(** * trello_backup.py: a shallow embedding and its checked properties

    The development follows [src/trello_backup.py]: the rate-limited fetcher
    [trello_get], the downloader [download_file], the per-board exporter
    [export_board] with its attachment classifier and locator, the CSV sink
    [export_csv] and the driver [main].

    Conventions of the model.
    - A Python [str] is a [string]; a character is read as the code point
      below 256 with the same number (the Latin-1 range of Unicode).
    - Python library calls are modelled by executable functions that follow
      CPython's behaviour on a POSIX system ([str.isalnum], [int],
      [str.split], [pathlib.PurePosixPath], [urllib.parse.urlparse]).
    - Effects (HTTP requests, sleeping, printing, the file system) are
      threaded through an explicit [world]; exceptions are an outcome of the
      monad [M]. *)

From Stdlib Require Import ZArith NArith Ascii String List Bool Lia.
From stdpp Require Import base option list strings gmap.

Local Open Scope string_scope.
Local Open Scope list_scope.
Local Open Scope Z_scope.

(** ** Python strings *)

Module Py.

Definition code (c : ascii) : N := N_of_ascii c.

Definition between (lo hi : N) (c : ascii) : bool :=
  ((lo <=? code c) && (code c <=? hi))%N.

(** [str.isalnum] on one character: letters and the characters with a
    decimal, digit or numeric value. *)
Definition isalnum (c : ascii) : bool :=
  between 48 57 c || between 65 90 c || between 97 122 c
  || existsb (N.eqb (code c)) [170; 178; 179; 181; 185; 186; 188; 189; 190]%N
  || (between 192 255 c && negb (code c =? 215)%N && negb (code c =? 247)%N).

Definition isascii_alpha (c : ascii) : bool :=
  between 65 90 c || between 97 122 c.

Definition isdigit (c : ascii) : bool := between 48 57 c.

(** [str.lower] on one character: the upper-case letters are A-Z and the
    Latin-1 letters 192-222 without the multiplication sign. *)
Definition lower_char (c : ascii) : ascii :=
  if between 65 90 c || (between 192 222 c && negb (code c =? 215)%N)
  then ascii_of_N (code c + 32) else c.

Fixpoint map_chars (f : ascii -> ascii) (s : string) : string :=
  match s with
  | EmptyString => EmptyString
  | String c s' => String (f c) (map_chars f s')
  end.

Fixpoint all_chars (p : ascii -> bool) (s : string) : bool :=
  match s with
  | EmptyString => true
  | String c s' => p c && all_chars p s'
  end.

Fixpoint filter_chars (p : ascii -> bool) (s : string) : string :=
  match s with
  | EmptyString => EmptyString
  | String c s' => if p c then String c (filter_chars p s') else filter_chars p s'
  end.

Definition lower (s : string) : string := map_chars lower_char s.

(** [sub in s] for strings. *)
Fixpoint contains (sub s : string) : bool :=
  String.prefix sub s
  || match s with
     | EmptyString => false
     | String _ s' => contains sub s'
     end.

(** [c in s] for a one-character [c]. *)
Fixpoint has_char (c : ascii) (s : string) : bool :=
  match s with
  | EmptyString => false
  | String a s' => Ascii.eqb a c || has_char c s'
  end.

(** [s.split(sep)] for a one-character separator: never the empty list. *)
Fixpoint split (sep : ascii) (s : string) : list string :=
  match s with
  | EmptyString => [EmptyString]
  | String a s' =>
      if Ascii.eqb a sep then EmptyString :: split sep s'
      else match split sep s' with
           | [] => [String a EmptyString]
           | p :: ps => String a p :: ps
           end
  end.

(** [sep.join(l)]. *)
Fixpoint join (sep : string) (l : list string) : string :=
  match l with
  | [] => EmptyString
  | [x] => x
  | x :: rest => x +:+ sep +:+ join sep rest
  end.

(** [l.index(x)]: position of the first occurrence, [None] for ValueError. *)
Fixpoint index (x : string) (l : list string) : option nat :=
  match l with
  | [] => None
  | y :: l' => if String.eqb y x then Some O else S <$> index x l'
  end.

(** [l[-1]] of a list; [split] never returns the empty list. *)
Definition last_part (l : list string) : string := List.last l EmptyString.

(** The text before the first character satisfying [p] (all of it when
    there is none), and the text from that character on. *)
Fixpoint break_at (p : ascii -> bool) (s : string) : string * string :=
  match s with
  | EmptyString => (EmptyString, EmptyString)
  | String c s' =>
      if p c then (EmptyString, s)
      else let '(a, b) := break_at p s' in (String c a, b)
  end.

(** [s.lstrip(chars)] with the character set as a predicate. *)
Fixpoint lstrip (p : ascii -> bool) (s : string) : string :=
  match s with
  | EmptyString => EmptyString
  | String c s' => if p c then lstrip p s' else s
  end.

Definition rev_string (s : string) : string :=
  string_of_list_ascii (List.rev (list_ascii_of_string s)).

Definition rstrip (p : ascii -> bool) (s : string) : string :=
  rev_string (lstrip p (rev_string s)).

(** The white space [int] skips around a number. *)
Definition int_space (c : ascii) : bool :=
  between 9 13 c || (code c =? 32)%N || (code c =? 133)%N || (code c =? 160)%N.

(** Digits with single underscores between them, most significant first. *)
Fixpoint digits_value (acc : Z) (prev_digit : bool) (s : string) : option Z :=
  match s with
  | EmptyString => if prev_digit then Some acc else None
  | String c s' =>
      if isdigit c then digits_value (10 * acc + (Z.of_N (code c) - 48)) true s'
      else if Ascii.eqb c "_" then
        if prev_digit then
          match s' with
          | EmptyString => None
          | String d _ => if isdigit d then digits_value acc false s' else None
          end
        else None
      else None
  end.

(** [int(s)] for a string in base ten; [None] stands for ValueError.  The
    interpreter's limit on the number of digits is not modelled. *)
Definition int_of_str (s : string) : option Z :=
  match rstrip int_space (lstrip int_space s) with
  | String "+" d => digits_value 0 false d
  | String "-" d => Z.opp <$> digits_value 0 false d
  | d => digits_value 0 false d
  end.

End Py.

(** ** [pathlib.PurePosixPath]

    A path is its root ([""], ["/"] or ["//"]) and its components; empty and
    ["."] components are dropped when a string is parsed, [".."] is kept. *)

Module Path.

Record t : Type := mk { root : string; parts : list string }.

Definition keep (x : string) : bool :=
  negb (String.eqb x "") && negb (String.eqb x ".").

Definition parse_root (s : string) : string :=
  match s with
  | String "/" (String "/" (String "/" _)) => "/"
  | String "/" (String "/" _) => "//"
  | String "/" _ => "/"
  | _ => ""
  end.

(** [Path(s)]. *)
Definition of_string (s : string) : t :=
  {| root := parse_root s; parts := List.filter keep (Py.split "/" s) |}.

(** Joining two paths: an absolute [q] replaces [p]. *)
Definition append (p q : t) : t :=
  if String.eqb (root q) "" then {| root := root p; parts := parts p ++ parts q |}
  else q.

(** [p / s]. *)
Definition join (p : t) (s : string) : t := append p (of_string s).

(** [str(p)]. *)
Definition to_string (p : t) : string :=
  match root p, parts p with
  | EmptyString, [] => "."
  | r, ps => r +:+ Py.join "/" ps
  end.

(** [p.parent]. *)
Definition parent (p : t) : t :=
  {| root := root p; parts := List.removelast (parts p) |}.

Definition is_anchor (p : t) : bool :=
  match parts p with [] => true | _ => false end.

End Path.

Infix "</>" := Path.join (at level 40, left associativity).

(** ** [urllib.parse.urlparse]

    The components the program and the specification speak about: scheme,
    network location and path (parameters, query and fragment are split off
    and dropped).  [None] stands for the ValueError that [urlsplit] raises.
    The check of a network location with a matched pair of square brackets
    differs between CPython releases (none before 3.11.4, an IPv6/IPvFuture
    literal check after), so it is a parameter [bracketed_ok]. *)

Module Url.

Record parsed : Type := mk { scheme : string; netloc : string; path : string }.

Definition c0_or_space (c : ascii) : bool := (Py.code c <=? 32)%N.

Definition tab_cr_lf (c : ascii) : bool :=
  existsb (N.eqb (Py.code c)) [9; 10; 13]%N.

Definition scheme_char (c : ascii) : bool :=
  Py.isascii_alpha c || Py.isdigit c || Py.has_char c "+-.".

Definition uses_params : list string :=
  [""; "ftp"; "hdl"; "prospero"; "http"; "imap"; "https"; "shttp"; "rtsp";
   "rtspu"; "sip"; "sips"; "mms"; "sftp"; "tel"].

(** The scheme and the text after its colon; no scheme when the text before
    the first colon is empty, does not start with an ASCII letter or holds a
    character outside [scheme_char]. *)
Definition split_scheme (url : string) : string * string :=
  match Py.break_at (Ascii.eqb ":") url with
  | (String c0 s0, String _ rest) =>
      if Py.isascii_alpha c0 && Py.all_chars scheme_char (String c0 s0)
      then (Py.lower (String c0 s0), rest)
      else (EmptyString, url)
  | _ => (EmptyString, url)
  end.

(** [_splitnetloc(url, 2)] when the text starts with two slashes. *)
Definition split_netloc (url : string) : string * string :=
  match url with
  | String "/" (String "/" s) => Py.break_at (fun c => Py.has_char c "/?#") s
  | _ => (EmptyString, url)
  end.

Fixpoint map_last (f : string -> string) (l : list string) : list string :=
  match l with
  | [] => []
  | [x] => [f x]
  | x :: rest => x :: map_last f rest
  end.

(** [_splitparams]: the path up to the first [;] of its last segment. *)
Definition strip_params (url : string) : string :=
  Py.join "/" (map_last (fun seg => fst (Py.break_at (Ascii.eqb ";") seg))
                        (Py.split "/" url)).

Definition split (url : string) : parsed :=
  let url := Py.filter_chars (fun c => negb (tab_cr_lf c)) (Py.lstrip c0_or_space url) in
  let '(sch, url) := split_scheme url in
  let '(loc, url) := split_netloc url in
  let url := fst (Py.break_at (Ascii.eqb "#") url) in
  let url := fst (Py.break_at (Ascii.eqb "?") url) in
  let url := if existsb (String.eqb sch) uses_params then strip_params url else url in
  {| scheme := sch; netloc := loc; path := url |}.

Section Validation.

Variable bracketed_ok : string -> bool.

Definition netloc_ok (loc : string) : bool :=
  match Py.has_char "[" loc, Py.has_char "]" loc with
  | false, false => true
  | true, true => bracketed_ok loc
  | _, _ => false
  end.

(** [urlparse(url)]. *)
Definition urlparse (url : string) : option parsed :=
  let r := split url in
  if netloc_ok (netloc r) then Some r else None.

End Validation.

End Url.

(** ** Data model: the JSON objects the program reads and writes *)

(** An attachment object; [None] is an absent key (or JSON null). *)
Record Attachment : Type := mk_attachment {
  att_url : option string;
  att_name : option string
}.

(** A card object.  [c_attachments] is [[]] when the key is absent;
    [c_local_attachments] is the key the exporter adds. *)
Record Card : Type := mk_card {
  c_id : string;
  c_idList : option string;
  c_name : option string;
  c_desc : option string;
  c_attachments : list Attachment;
  c_local_attachments : option (list string)
}.

Record TList : Type := mk_tlist { l_id : string; l_name : string }.

(** The nested board payload: the keys the program touches. *)
Record BoardData : Type := mk_board_data {
  d_lists : list TList;
  d_cards : list Card
}.

(** An entry of the list-boards answer; [b_closed] is the truth value of
    [b.get("closed")]. *)
Record Board : Type := mk_board {
  b_id : string;
  b_name : string;
  b_closed : bool
}.

Inductive json : Type :=
  | JBoards (bs : list Board)
  | JBoard (d : BoardData)
  | JAttachments (atts : list Attachment).

(** ** HTTP *)

Record request : Type := mk_request {
  req_url : string;
  req_params : list (string * string);
  req_stream : bool
}.

(** A response: [body] is what [resp.json()] decodes ([None]: not JSON),
    [chunks] what [resp.iter_content] yields, [stream_ok] whether the
    stream ends without a connection error. *)
Record response : Type := mk_response {
  status : Z;
  headers : list (string * string);
  body : option json;
  chunks : list string;
  stream_ok : bool
}.

(** What becomes of one request the session sends.  [Reply r]: the answer
    [r] is handed to the program.  [NoReply]: the connection fails.
    [Redirect url]: the answer is a redirection that `requests` follows, as
    it does by default for a GET (status 301, 302, 303, 307 or 308 with a
    Location header that is not empty); [url] is the address it computes
    from the Location for the next request.  These are the fates of a
    request that is sent: an address that `requests` refuses before it
    sends anything (no scheme, no host) is outside the model. *)
Inductive reply : Type :=
  | Reply (r : response)
  | NoReply
  | Redirect (url : string).

(** ** Exceptions, printed lines, events *)

Inductive exn : Type :=
  | HTTPError (code : Z)
  | ConnectionError
  | JSONDecodeError
  | ValueError
  | TypeError
  | AttributeError
  | KeyError
  | IndexError
  | FileNotFoundError
  | FileExistsError
  | NotADirectoryError
  | IsADirectoryError
  | OverflowError
  | TooManyRedirects.

(** The lines the program prints, by their format string. *)
Inductive message : Type :=
  | MsgExporting (board_name board_id : string)
  | MsgUrls (urls : list string)
  | MsgDownloading (safe_name dir : string)
  | MsgFailed (safe_name : string) (e : exn)
  | MsgWroteJson (path : string)
  | MsgWroteCsv (path : string)
  | MsgFound (n : nat)
  | MsgAllDone.

(** [EvGet r]: the program calls [sess.get] and the request [r] is sent;
    [EvFollow r]: the session sends [r] on its own, following a
    redirection. *)
Inductive event : Type :=
  | EvGet (r : request)
  | EvSleep (seconds : Z)
  | EvPrint (m : message)
  | EvFollow (r : request).

(** ** The world *)

Inductive content : Type :=
  | Bytes (data : list string)
  | JsonDoc (d : BoardData)
  | CsvRows (rows : list (list string)).

Inductive node : Type :=
  | Dir
  | File (c : content).

(** The file system maps the rendering of an absolute-or-cwd-relative path to
    its node (no symbolic links, [..] is not resolved); the server answers
    the [n]-th request of the run; [log] records what the run did, oldest
    first. *)
Record world : Type := mk_world {
  fs : gmap string node;
  cwd : Path.t;
  server : nat -> request -> reply;
  nreq : nat;
  log : list event;
  API_BASE_URL : string
}.

Definition set_fs (f : gmap string node) (w : world) : world :=
  mk_world f (cwd w) (server w) (nreq w) (log w) (API_BASE_URL w).

Definition set_cwd (p : Path.t) (w : world) : world :=
  mk_world (fs w) p (server w) (nreq w) (log w) (API_BASE_URL w).

Definition add_event (e : event) (w : world) : world :=
  mk_world (fs w) (cwd w) (server w) (nreq w) (log w ++ [e]) (API_BASE_URL w).

Definition count_request (w : world) : world :=
  mk_world (fs w) (cwd w) (server w) (S (nreq w)) (log w) (API_BASE_URL w).

(** ** The monad: state and exceptions *)

Inductive outcome (A : Type) : Type :=
  | Ok (a : A)
  | Raise (e : exn)
  | OutOfFuel.

Arguments Ok {A} a.
Arguments Raise {A} e.
Arguments OutOfFuel {A}.

Definition M (A : Type) : Type := world -> outcome A * world.

Definition ret {A} (a : A) : M A := fun w => (Ok a, w).

Definition raise {A} (e : exn) : M A := fun w => (Raise e, w).

Definition bind {A B} (m : M A) (k : A -> M B) : M B :=
  fun w =>
    match m w with
    | (Ok a, w') => k a w'
    | (Raise e, w') => (Raise e, w')
    | (OutOfFuel, w') => (OutOfFuel, w')
    end.

(** [try: m  except Exception as e: h e]. *)
Definition try_except {A} (m : M A) (h : exn -> M A) : M A :=
  fun w =>
    match m w with
    | (Raise e, w') => h e w'
    | r => r
    end.

Notation "'let*' x ':=' c 'in' k" := (bind c (fun x => k))
  (at level 10, x pattern, c at level 100, k at level 200).
Notation "c1 '>>' c2" := (bind c1 (fun _ => c2))
  (at level 100, c2 at level 200, right associativity).

Definition get_world : M world := fun w => (Ok w, w).

Definition modify (f : world -> world) : M unit := fun w => (Ok tt, f w).

Definition print (m : message) : M unit := modify (add_event (EvPrint m)).

(** ** File system calls *)

Global Instance path_eq_dec : EqDecision Path.t.
Proof. solve_decision. Defined.

Definition resolve (p : Path.t) (w : world) : Path.t := Path.append (cwd w) p.

(** What is at [p]: the anchors (the starting directory, the root) are
    directories that always exist. *)
Definition lookup_path (p : Path.t) (w : world) : option node :=
  if Path.is_anchor (resolve p w) then Some Dir
  else fs w !! Path.to_string (resolve p w).

Definition stat (p : Path.t) : M (option node) :=
  fun w => (Ok (lookup_path p w), w).

Definition put_node (p : Path.t) (n : node) : M unit :=
  modify (fun w => set_fs (<[Path.to_string (resolve p w) := n]> (fs w)) w).

(** [p.exists()]. *)
Definition path_exists (p : Path.t) : M bool :=
  let* n := stat p in
  ret (match n with Some _ => true | None => false end).

(** [os.mkdir(p)]. *)
Definition os_mkdir (p : Path.t) : M unit :=
  let* n := stat p in
  match n with
  | Some _ => raise FileExistsError
  | None =>
      let* up := stat (Path.parent p) in
      match up with
      | None => raise FileNotFoundError
      | Some (File _) => raise NotADirectoryError
      | Some Dir => put_node p Dir
      end
  end.

(** [Path.mkdir(parents=..., exist_ok=...)], as pathlib defines it: try
    [os.mkdir]; on FileNotFoundError create the parents first when asked to;
    on another OSError give in only if [exist_ok] and the path is a
    directory.  [depth] bounds the climb to the parents. *)
Fixpoint path_mkdir (depth : nat) (parents exist_ok : bool) (p : Path.t) : M unit :=
  try_except (os_mkdir p) (fun e =>
    match e with
    | FileNotFoundError =>
        if negb parents || bool_decide (Path.parent p = p) then raise e
        else match depth with
             | O => raise e
             | S d =>
                 path_mkdir d true true (Path.parent p) >>
                 path_mkdir d false exist_ok p
             end
    | _ =>
        let* n := stat p in
        match n with
        | Some Dir => if exist_ok then ret tt else raise e
        | _ => raise e
        end
    end).

Definition mkdir (parents exist_ok : bool) (p : Path.t) : M unit :=
  path_mkdir (length (Path.parts p)) parents exist_ok p.

(** [os.chdir(p)]. *)
Definition chdir (p : Path.t) : M unit :=
  let* n := stat p in
  match n with
  | None => raise FileNotFoundError
  | Some (File _) => raise NotADirectoryError
  | Some Dir => modify (fun w => set_cwd (resolve p w) w)
  end.

(** [open(p, "w")] followed by writing [c] and closing. *)
Definition write_file (p : Path.t) (c : content) : M unit :=
  let* n := stat p in
  match n with
  | Some Dir => raise IsADirectoryError
  | _ =>
      let* up := stat (Path.parent p) in
      match up with
      | None => raise FileNotFoundError
      | Some (File _) => raise NotADirectoryError
      | Some Dir => put_node p (File c)
      end
  end.

(** ** HTTP calls *)

(** [Session.max_redirects]. *)
Definition max_redirects : nat := 30.

(** The session sends [r] and follows the redirections it is answered
    with, [hops] of them at most; [first] tells the request of the program
    from those the session adds.  A followed request goes to the address
    computed from the Location, with nothing but that address (the query
    is part of it) and the [stream] setting of the call. *)
Fixpoint follow (hops : nat) (first : bool) (r : request) : M response :=
  fun w =>
    let w' := count_request (add_event (if first then EvGet r else EvFollow r) w) in
    match server w (nreq w) r with
    | Reply resp => (Ok resp, w')
    | NoReply => (Raise ConnectionError, w')
    | Redirect url =>
        match hops with
        | O => (Raise TooManyRedirects, w')
        | S hops' => follow hops' false (mk_request url [] (req_stream r)) w'
        end
    end.

(** [sess.get(...)] on a fresh OAuth1 session: the request, and after it
    the requests of the redirections, which [allow_redirects] (on by
    default) makes the session follow, up to [max_redirects] of them. *)
Definition sess_get (r : request) : M response := follow max_redirects true r.

(** [resp.raise_for_status()]. *)
Definition raise_for_status (resp : response) : M unit :=
  if (400 <=? status resp) && (status resp <? 600)
  then raise (HTTPError (status resp)) else ret tt.

(** [resp.json()]. *)
Definition resp_json (resp : response) : M json :=
  match body resp with
  | Some j => ret j
  | None => raise JSONDecodeError
  end.

(** [resp.headers.get(name)]: header names compare without case. *)
Definition header_get (name : string) (hs : list (string * string)) : option string :=
  snd <$> List.find (fun kv => String.eqb (Py.lower (fst kv)) (Py.lower name)) hs.

(** The whole seconds CPython turns into its 64-bit count of nanoseconds:
    from [-sleep_bound] to [sleep_bound]. *)
Definition sleep_bound : Z := 9223372036.

(** A delay of some 68 years: well below [sleep_bound], whatever the
    uptime of the machine. *)
Definition long_delay : Z := 2147483647.

(** [time.sleep(seconds)] for an [int]: the conversion to nanoseconds comes
    first (OverflowError outside the bounds), then the sign (ValueError).
    A delay that passes both is slept.  (CPython from 3.11 on adds the
    delay to the monotonic clock, so that under Linux a delay within the
    uptime of the machine from [sleep_bound] fails with OSError; the model
    leaves the clock out, and no property below is about delays above
    [long_delay].) *)
Definition time_sleep (seconds : Z) : M unit :=
  if (seconds <? - sleep_bound) || (sleep_bound <? seconds) then raise OverflowError
  else if seconds <? 0 then raise ValueError
  else modify (add_event (EvSleep seconds)).

(** [int(resp.headers.get("Retry-After", 3))]. *)
Definition retry_after (resp : response) : M Z :=
  match header_get "Retry-After" (headers resp) with
  | None => ret 3
  | Some s =>
      match Py.int_of_str s with
      | Some z => ret z
      | None => raise ValueError
      end
  end.

(** ** 4) Trello helper functions *)

(** [trello_get(endpoint, **params)].  [fuel] bounds the depth of the
    recursion on HTTP 429. *)
Fixpoint trello_get (fuel : nat) (endpoint : string)
    (params : list (string * string)) : M json :=
  match fuel with
  | O => fun w => (OutOfFuel, w)
  | S fuel' =>
      let* w := get_world in
      let url := API_BASE_URL w +:+ endpoint in
      let* resp := sess_get (mk_request url params false) in
      if status resp =? 429 then
        let* seconds := retry_after resp in
        time_sleep seconds >>
        trello_get fuel' endpoint params
      else
        raise_for_status resp >>
        resp_json resp
  end.

(** [download_file(url, dest)]. *)
Definition download_file (url : string) (dest : Path.t) : M unit :=
  let* present := path_exists dest in
  if present then ret tt
  else
    let* resp := sess_get (mk_request url [] true) in
    raise_for_status resp >>
    write_file dest (Bytes (chunks resp)) >>
    if stream_ok resp then ret tt else raise ConnectionError.

(** ** 5) Export logic *)

Definition DEBUG : bool := true.
Definition DEBUG_BOARD_ID : string := "5f67b24e3bf4a71838a837cf".

(** ["".join(c if c.isalnum() else "_" for c in board_name)]. *)
Definition slug_of (board_name : string) : string :=
  Py.map_chars (fun c => if Py.isalnum c then c else "_"%char) board_name.

(** [''.join(ch if ch.isalnum() or ch in '._-' else '_' for ch in filename)]. *)
Definition safe_name_of (filename : string) : string :=
  Py.map_chars
    (fun ch => if Py.isalnum ch || Py.has_char ch "._-" then ch else "_"%char)
    filename.

(** [att.get('url', '')]. *)
Definition get_url (att : Attachment) : string := default "" (att_url att).

(** The nested function of [export_board]. *)
Definition is_trello_card_image (att : Attachment) : bool :=
  let url := get_url att in
  negb (String.eqb url "") && Py.contains "trello.com" url && Py.contains "/cards/" url.

(** The truth value of [att.get('url')]. *)
Definition has_url (att : Attachment) : bool := negb (String.eqb (get_url att) "").

(** [path_parts.index('attachments')] and [path_parts[att_idx]]. *)
Definition list_index (x : string) (l : list string) : M nat :=
  match Py.index x l with
  | Some i => ret i
  | None => raise ValueError
  end.

Definition list_item (l : list string) (i : nat) : M string :=
  match l !! i with
  | Some s => ret s
  | None => raise IndexError
  end.

(** Lines 160-164: the attachment id, or ['unknown'] on ValueError and
    IndexError. *)
Definition attachment_id_of (path_parts : list string) : M string :=
  try_except
    (let* i := list_index "attachments" path_parts in
     let att_idx := (i + 1)%nat in
     list_item path_parts att_idx)
    (fun e =>
       match e with
       | ValueError | IndexError => ret "unknown"
       | _ => raise e
       end).

(** [att.get('name') or path_parts[-1]]. *)
Definition filename_of (att : Attachment) (path_parts : list string) : string :=
  match att_name att with
  | Some (String c s) => String c s
  | _ => Py.last_part path_parts
  end.

(** [card.setdefault('local_attachments', []).append(x)]. *)
Definition append_local (x : string) (c : Card) : Card :=
  mk_card (c_id c) (c_idList c) (c_name c) (c_desc c) (c_attachments c)
          (Some (default [] (c_local_attachments c) ++ [x])).

(** [card['local_attachments'] = urls]. *)
Definition set_local (urls : list string) (c : Card) : Card :=
  mk_card (c_id c) (c_idList c) (c_name c) (c_desc c) (c_attachments c) (Some urls).

Definition board_params : list (string * string) :=
  [("lists", "all"); ("cards", "all"); ("checklists", "all");
   ("card_attachments", "true"); ("attachment_fields", "name,url");
   ("fields", "name,desc,closed,dateLastActivity")].

Section Exporter.

Variable bracketed_ok : string -> bool.

(** [urlparse(url).path.split('/')]. *)
Definition url_path_parts (url : string) : M (list string) :=
  match Url.urlparse bracketed_ok url with
  | Some r => ret (Py.split "/" (Url.path r))
  | None => raise ValueError
  end.

(** The body of the loop over [atts_with_images] (lines 157-187).  The
    handler prints the failure and then calls the value [print] returned,
    [None], with the board query as arguments: a TypeError leaves the
    handler, and the assignment [dest = "failed"] after it is never
    reached. *)
Definition download_attachment (attachments_dir : Path.t) (card_id : string)
    (att : Attachment) (card : Card) : M Card :=
  let* url := match att_url att with
              | Some u => ret u
              | None => raise TypeError
              end in
  let* path_parts := url_path_parts url in
  let* attachment_id := attachment_id_of path_parts in
  let att_dir := attachments_dir </> (card_id +:+ "_" +:+ attachment_id) in
  mkdir false true att_dir >>
  let filename := filename_of att path_parts in
  let safe_name := safe_name_of filename in
  let dest := att_dir </> safe_name in
  print (MsgDownloading safe_name (card_id +:+ "_" +:+ attachment_id)) >>
  try_except
    (download_file url dest >>
     ret (append_local (Path.to_string dest) card))
    (fun e =>
       print (MsgFailed safe_name e) >>
       raise TypeError).

Fixpoint download_all (attachments_dir : Path.t) (card_id : string)
    (atts : list Attachment) (card : Card) : M Card :=
  match atts with
  | [] => ret card
  | att :: rest =>
      let* card' := download_attachment attachments_dir card_id att card in
      download_all attachments_dir card_id rest card'
  end.

(** [card.get('attachments', []) or trello_get(f"/cards/{card['id']}/attachments")].
    An answer of another shape than a list of attachment objects is
    modelled as AttributeError. *)
Definition card_attachments (fuel : nat) (card : Card) : M (list Attachment) :=
  match c_attachments card with
  | [] =>
      let* j := trello_get fuel ("/cards/" +:+ c_id card +:+ "/attachments") [] in
      match j with
      | JAttachments atts => ret atts
      | _ => raise AttributeError
      end
  | atts => ret atts
  end.

(** The body of the loop over the cards (lines 133-187); the result is the
    card object as the loop leaves it. *)
Definition process_card (fuel : nat) (board_dir : Path.t) (card : Card) : M Card :=
  if DEBUG && negb (bool_decide (c_idList card = Some DEBUG_BOARD_ID)) then ret card
  else
    let* atts := card_attachments fuel card in
    let atts_with_images := List.filter is_trello_card_image atts in
    let atts_with_urls :=
      List.filter (fun att => has_url att && negb (is_trello_card_image att)) atts in
    let* card :=
      match atts_with_urls with
      | [] => ret card
      | _ =>
          let urls := List.map get_url atts_with_urls in
          print (MsgUrls urls) >>
          ret (set_local urls card)
      end in
    match atts_with_images with
    | [] => ret card
    | _ =>
        let attachments_dir := board_dir </> "attachments" in
        mkdir true true attachments_dir >>
        let card_id := c_id card in
        download_all attachments_dir card_id atts_with_images card
    end.

Fixpoint process_cards (fuel : nat) (board_dir : Path.t) (cards : list Card)
    : M (list Card) :=
  match cards with
  | [] => ret []
  | card :: rest =>
      let* card' := process_card fuel board_dir card in
      let* rest' := process_cards fuel board_dir rest in
      ret (card' :: rest')
  end.

(** [export_board(board)]. *)
Definition export_board (fuel : nat) (board : Board) : M (BoardData * string) :=
  let board_id := b_id board in
  let board_name := b_name board in
  print (MsgExporting board_name board_id) >>
  let slug := slug_of board_name in
  let board_dir := Path.of_string slug in
  let* j := trello_get fuel ("/boards/" +:+ board_id) board_params in
  let* data := match j with
               | JBoard d => ret d
               | _ => raise AttributeError
               end in
  let* cards := process_cards fuel board_dir (d_cards data) in
  let data := mk_board_data (d_lists data) cards in
  let out_json := board_dir </> ("board_" +:+ slug +:+ "_" +:+ board_id +:+ ".json") in
  write_file out_json (JsonDoc data) >>
  print (MsgWroteJson (Path.to_string out_json)) >>
  ret (data, board_name).

(** [{lst['id']: lst['name'] for lst in data.get('lists', [])}]: a later
    entry with the same id wins. *)
Definition lists_dict (ls : list TList) : gmap string string :=
  fold_left (fun m lst => <[l_id lst := l_name lst]> m) ls ∅.

(** The row of one card; [None] is the KeyError of [card['idList']]. *)
Definition card_row (lists : gmap string string) (board_name : string)
    (card : Card) : option (list string) :=
  match c_idList card with
  | None => None
  | Some id_list =>
      let list_name := default "" (lists !! id_list) in
      let item := default "" (c_name card) in
      let desc :=
        Py.map_chars (fun c => if Ascii.eqb c "010" then " "%char else c)
                     (default "" (c_desc card)) in
      let atts := Py.join ";" (default [] (c_local_attachments card)) in
      Some [board_name; list_name; item; desc; atts]
  end.

(** The rows written before the loops end; the flag is [false] when a
    KeyError stopped them. *)
Fixpoint card_rows (lists : gmap string string) (board_name : string)
    (cards : list Card) : list (list string) * bool :=
  match cards with
  | [] => ([], true)
  | card :: rest =>
      match card_row lists board_name card with
      | None => ([], false)
      | Some row =>
          let '(rows, ok) := card_rows lists board_name rest in
          (row :: rows, ok)
      end
  end.

Fixpoint board_rows (all_boards : list (BoardData * string))
    : list (list string) * bool :=
  match all_boards with
  | [] => ([], true)
  | (data, board_name) :: rest =>
      let '(rows, ok) := card_rows (lists_dict (d_lists data)) board_name (d_cards data) in
      if ok then
        let '(rows', ok') := board_rows rest in
        (rows ++ rows', ok')
      else (rows, false)
  end.

(** [export_csv(all_boards)]. *)
Definition export_csv (all_boards : list (BoardData * string)) : M unit :=
  let csv_file := Path.of_string "trello_export.csv" in
  let '(rows, ok) := board_rows all_boards in
  write_file csv_file
    (CsvRows (["board"; "list"; "item"; "description"; "attachments"] :: rows)) >>
  if ok then print (MsgWroteCsv (Path.to_string csv_file)) else raise KeyError.

(** The loop of [main] over the active boards (lines 224-227). *)
Fixpoint export_each (fuel : nat) (active : list Board)
    (all_data : list (BoardData * string)) : M (list (BoardData * string)) :=
  match active with
  | [] => ret all_data
  | b :: rest =>
      let* r := export_board fuel b in
      export_each fuel rest (all_data ++ [r])
  end.

(** [main()]. *)
Definition main (fuel : nat) : M unit :=
  let root := Path.of_string "trello_exports" in
  mkdir false true root >>
  chdir root >>
  let* j := trello_get fuel "/members/me/boards"
              [("fields", "name,closed,dateLastActivity")] in
  let* boards := match j with
                 | JBoards bs => ret bs
                 | _ => raise AttributeError
                 end in
  let active := List.filter (fun b => negb (b_closed b)) boards in
  print (MsgFound (length active)) >>
  let* all_data := export_each fuel active [] in
  export_csv all_data >>
  print MsgAllDone.

End Exporter.

(** ** Concrete runs used below as test inputs *)

Module Examples.

(** CPython before 3.11.4: a bracketed network location is not checked. *)
Definition no_bracket_check : string -> bool := fun _ => true.

Definition api : string := "https://api.trello.com/1".

Definition ok_json (j : json) : response :=
  mk_response 200 [] (Some j) [] true.

Definition ok_file (data : list string) : response :=
  mk_response 200 [] None data true.

Definition error_response (code : Z) : response :=
  mk_response code [] None [] true.

Definition rate_limited (retry : option string) : response :=
  mk_response 429
    (match retry with Some s => [("Retry-After", s)] | None => [] end)
    None [] true.

Definition photo_url : string :=
  "https://trello.com/1/cards/abc/attachments/XYZ/photo.png".
Definition notes_url : string :=
  "https://trello.com/1/cards/abc/attachments/UVW/notes.txt".
Definition pdf_url : string := "https://example.com/file.pdf".

Definition photo : Attachment := mk_attachment (Some photo_url) (Some "photo.png").
Definition notes : Attachment := mk_attachment (Some notes_url) (Some "my notes.txt").
Definition pdf : Attachment := mk_attachment (Some pdf_url) (Some "file.pdf").

(** A link to another host whose path mentions trello.com and /cards/, an
    attachment the user named ".", and a URL with an unmatched bracket. *)
Definition mirror_url : string := "https://example.com/trello.com/cards/x".
Definition mirror : Attachment := mk_attachment (Some mirror_url) (Some "x").
Definition dot : Attachment := mk_attachment (Some photo_url) (Some ".").
Definition bracket_url : string := "https://trello.com[/cards/1".
Definition bracket : Attachment := mk_attachment (Some bracket_url) (Some "x.png").

(** A card of the list the DEBUG switch selects, and one of another list. *)
Definition card_abc : Card :=
  mk_card "abc" (Some DEBUG_BOARD_ID) (Some "Trip") (Some "plan") [photo; pdf; notes] None.
Definition card_other : Card :=
  mk_card "def" (Some "another-list") (Some "Ideas") None [pdf] None.

Definition card_with (atts : list Attachment) : Card :=
  mk_card "abc" (Some DEBUG_BOARD_ID) (Some "Trip") None atts None.

Definition board_a : Board := mk_board "idA" "Board A" false.
Definition board_b : Board := mk_board "idB" "Board B" false.
Definition board_old : Board := mk_board "idOld" "Old" true.

Definition data_a : BoardData :=
  mk_board_data [mk_tlist DEBUG_BOARD_ID "Doing"; mk_tlist "another-list" "Later"]
                [card_abc; card_other].
Definition data_b : BoardData := mk_board_data [mk_tlist "another-list" "Later"] [card_other].

(** A server that answers every request the same way whenever it comes:
    the three boards, the given answers for the payloads of boards A and B,
    and [file_reply] for the attachment downloads. *)
Definition site (board_a_reply board_b_reply file_reply : reply)
    (n : nat) (r : request) : reply :=
  if String.eqb (req_url r) (api +:+ "/members/me/boards")
  then Reply (ok_json (JBoards [board_a; board_old; board_b]))
  else if String.eqb (req_url r) (api +:+ "/boards/idA") then board_a_reply
  else if String.eqb (req_url r) (api +:+ "/boards/idB") then board_b_reply
  else if req_stream r then file_reply
  else Reply (error_response 404).

(** The server when all is well. *)
Definition healthy : nat -> request -> reply :=
  site (Reply (ok_json (JBoard data_a))) (Reply (ok_json (JBoard data_b)))
       (Reply (ok_file ["png"])).

(** A server whose first answer is HTTP 429 with the given Retry-After. *)
Definition busy_once (retry : option string) (n : nat) (r : request) : reply :=
  match n with
  | O => Reply (rate_limited retry)
  | _ => healthy n r
  end.

Definition start (f : gmap string node) (srv : nat -> request -> reply) : world :=
  mk_world f (Path.of_string "") srv O [] api.

(** The directories of an earlier run. *)
Definition old_dirs : gmap string node :=
  <["trello_exports/Board_B" := Dir]>
    (<["trello_exports/Board_A" := Dir]>
       (<["trello_exports" := Dir]> ∅)).

End Examples.

(** ** Observations on a log *)

(** The boards whose export was started, and the JSON files written. *)
Definition started (evs : list event) : list (string * string) :=
  flat_map (fun e => match e with
                     | EvPrint (MsgExporting name id) => [(name, id)]
                     | _ => []
                     end) evs.

Definition finished (evs : list event) : list string :=
  flat_map (fun e => match e with
                     | EvPrint (MsgWroteJson path) => [path]
                     | _ => []
                     end) evs.

(** The URLs the program asks for as attachment downloads
    ([stream=True]); the requests the session adds when it follows a
    redirection are the [EvFollow] events. *)
Definition downloads (evs : list event) : list string :=
  flat_map (fun e => match e with
                     | EvGet r => if req_stream r then [req_url r] else []
                     | _ => []
                     end) evs.

(** The events the processing of one card can add to the log. *)
Definition card_event (e : event) : Prop :=
  match e with
  | EvGet r =>
      req_stream r = false \/
      (Py.contains "trello.com" (req_url r) = true /\
       Py.contains "/cards/" (req_url r) = true)
  | EvSleep _ => True
  | EvPrint (MsgUrls _) | EvPrint (MsgDownloading _ _) | EvPrint (MsgFailed _ _) => True
  | EvPrint _ => False
  | EvFollow _ => True
  end.

(** Whether a run returned. *)
Definition is_ok {A} (r : outcome A) : bool :=
  match r with Ok _ => true | _ => false end.

(** Events that neither start nor finish the export of a board. *)
Definition quiet (e : event) : Prop :=
  match e with
  | EvPrint (MsgExporting _ _) | EvPrint (MsgWroteJson _) => False
  | _ => True
  end.

(** [m] only appends to the log, and what it appends satisfies [P]. *)
Definition emits {A} (P : event -> Prop) (m : M A) : Prop :=
  forall w r w', m w = (r, w') -> exists evs, log w' = log w ++ evs /\ Forall P evs.

(** [m] leaves the log as it is. *)
Definition silent {A} (m : M A) : Prop :=
  forall w r w', m w = (r, w') -> log w' = log w.

(** The JSON file of a board, as [export_board] names it. *)
Definition json_path (b : Board) : string :=
  let slug := slug_of (b_name b) in
  Path.to_string (Path.of_string slug </> ("board_" +:+ slug +:+ "_" +:+ b_id b +:+ ".json")).

Definition board_key (b : Board) : string * string := (b_name b, b_id b).

(** ** The locator as a function

    What lines 159-172 compute for one attachment, without the effects:
    the attachment id, and the rendering of [dest]. *)

Definition attachment_id (path_parts : list string) : string :=
  match Py.index "attachments" path_parts with
  | Some i => default "unknown" (path_parts !! (i + 1)%nat)
  | None => "unknown"
  end.

(** [str(Path(slug) / "attachments" / f"{card_id}_{attachment_id}" / safe_name)]. *)
Definition local_path (slug card_id attachment_id safe_name : string) : string :=
  Path.to_string
    (Path.of_string slug </> "attachments"
       </> (card_id +:+ "_" +:+ attachment_id) </> safe_name).

(** The entry a successful download of [att] records; [None] when the
    attachment has no URL or [urlparse] rejects it. *)
Definition recorded_path (bracketed_ok : string -> bool) (slug card_id : string)
    (att : Attachment) : option string :=
  match att_url att with
  | None => None
  | Some url =>
      match Url.urlparse bracketed_ok url with
      | None => None
      | Some r =>
          let path_parts := Py.split "/" (Url.path r) in
          Some (local_path slug card_id (attachment_id path_parts)
                  (safe_name_of (filename_of att path_parts)))
      end
  end.

Fixpoint recorded_paths (bracketed_ok : string -> bool) (slug card_id : string)
    (atts : list Attachment) : option (list string) :=
  match atts with
  | [] => Some []
  | att :: rest =>
      match recorded_path bracketed_ok slug card_id att,
            recorded_paths bracketed_ok slug card_id rest with
      | Some p, Some ps => Some (p :: ps)
      | _, _ => None
      end
  end.

(** The card after the entries [paths] were appended one by one. *)
Definition record_all (paths : list string) (card : Card) : Card :=
  fold_left (fun c p => append_local p c) paths card.

(** The attachments the exporter classifies as foreign. *)
Definition is_foreign (att : Attachment) : bool :=
  has_url att && negb (is_trello_card_image att).

(** ** The classifier, in the words of the specification

    "Native iff its URL's host belongs to the source provider's domain AND
    its path contains a /cards/ segment": the host is the network location
    without user information and port, in lower case. *)

Definition url_host (url : string) : string :=
  let hostport := Py.last_part (Py.split "@" (Url.netloc (Url.split url))) in
  Py.lower (fst (Py.break_at (Ascii.eqb ":") hostport)).

Definition in_provider_domain (host : string) : bool :=
  String.eqb host "trello.com"
  || String.prefix (Py.rev_string ".trello.com") (Py.rev_string host).

Definition spec_is_native (url : string) : bool :=
  in_provider_domain (url_host url)
  && Py.contains "/cards/" (Url.path (Url.split url)).

(** ** More observations *)

(** The requests of a log and the sleeps of a log, oldest first. *)
Definition requests (evs : list event) : list request :=
  flat_map (fun e => match e with EvGet r => [r] | _ => [] end) evs.

Definition sleeps (evs : list event) : list Z :=
  flat_map (fun e => match e with EvSleep z => [z] | _ => [] end) evs.

(** The followed requests of a log. *)
Definition follows (evs : list event) : list request :=
  flat_map (fun e => match e with EvFollow r => [r] | _ => [] end) evs.

(** What a server that is always busy answers: 429 with no Retry-After or
    one that [int] reads as a number of seconds from 0 to [long_delay]. *)
Definition busy_reply (r : reply) : Prop :=
  exists resp,
    r = Reply resp /\ status resp = 429 /\
    (header_get "Retry-After" (headers resp) = None \/
     exists s z, header_get "Retry-After" (headers resp) = Some s /\
                 Py.int_of_str s = Some z /\ 0 <= z <= long_delay).

(** The answers that `requests` does not hand to the program but follows:
    a redirect status with a Location header that is not empty.  In the
    model such an answer is a [Redirect]. *)
Definition redirect_status (s : Z) : bool :=
  (s =? 301) || (s =? 302) || (s =? 303) || (s =? 307) || (s =? 308).

Definition redirection (resp : response) : bool :=
  redirect_status (status resp) &&
  match header_get "Location" (headers resp) with
  | Some (String _ _) => true
  | _ => false
  end.

(** What [trello_get] makes of an answer that is not a 429. *)
Definition decoded (resp : response) : outcome json :=
  if (400 <=? status resp) && (status resp <? 600)
  then Raise (HTTPError (status resp))
  else match body resp with
       | Some j => Ok j
       | None => Raise JSONDecodeError
       end.

(** ** The CSV, as a function of the exported documents *)

(** The number of cards of the exported boards. *)
Definition card_count (all_boards : list (BoardData * string)) : nat :=
  list_sum (List.map (fun x => length (d_cards (fst x))) all_boards).

(** The last list of the payload with the given id. *)
Definition last_list (id_list : string) (ls : list TList) : option TList :=
  List.find (fun l => String.eqb (l_id l) id_list) (List.rev ls).

Definition csv_header : list string :=
  ["board"; "list"; "item"; "description"; "attachments"].

Definition csv_path : Path.t := Path.of_string "trello_export.csv".

(** ** What a run leaves on disk *)

(** [w'] holds every file and directory of [w] as it was, seen from the
    same starting directory. *)
Definition extends (w w' : world) : Prop :=
  cwd w' = cwd w /\ fs w ⊆ fs w'.

(** Every run of [m] only adds to the file system. *)
Definition grows {A} (m : M A) : Prop :=
  forall w r w', m w = (r, w') -> extends w w'.

(** Between [v] and [v'] nothing was requested and nothing written. *)
Definition untouched (v v' : world) : Prop :=
  fs v' = fs v /\ cwd v' = cwd v /\ nreq v' = nreq v.

(** The JSON file of a board as a path: [json_path] is its rendering. *)
Definition json_file (b : Board) : Path.t :=
  let slug := slug_of (b_name b) in
  Path.of_string slug </> ("board_" +:+ slug +:+ "_" +:+ b_id b +:+ ".json").

(** [w'] still has every file and directory of [w], a directory still
    being a directory; the content of a file may differ. *)
Definition persists (w w' : world) : Prop :=
  cwd w' = cwd w /\
  forall k n, fs w !! k = Some n ->
              exists n', fs w' !! k = Some n' /\ (n = Dir -> n' = Dir).

(** The condition under which a card is processed without a request for
    its attachments: a card of the DEBUG list comes with attachments. *)
Definition has_attachments (c : Card) : Prop :=
  c_idList c = Some DEBUG_BOARD_ID -> c_attachments c <> [].

(** ** The exports of a run *)

(** [exports ok fuel bs w xs w']: [export_board] runs on the boards [bs]
    one after the other, the first from [w] and each next one from the
    world the one before has left; the runs return the documents [xs] and
    leave [w']. *)
Fixpoint exports (ok : string -> bool) (fuel : nat) (bs : list Board) (w : world)
    (xs : list (BoardData * string)) (w' : world) : Prop :=
  match bs, xs with
  | [], [] => w' = w
  | b :: bs', x :: xs' =>
      exists w1, export_board ok fuel b w = (Ok x, w1) /\ exports ok fuel bs' w1 xs' w'
  | _, _ => False
  end.

(** [w'] still has every file of [w] as a file and every directory as a
    directory, seen from the same starting directory. *)
Definition settled (w w' : world) : Prop :=
  cwd w' = cwd w /\
  forall k n, fs w !! k = Some n ->
              exists n', fs w' !! k = Some n' /\ (n = Dir <-> n' = Dir).

Definition settles {A} (m : M A) : Prop :=
  forall w r w', m w = (r, w') -> settled w w'.




(** * Properties *)

(** ** The monad *)

Lemma bind_ok {A B} (m : M A) (k : A -> M B) w a w1 :
  m w = (Ok a, w1) -> bind m k w = k a w1.
Proof. intros H. unfold bind. now rewrite H. Qed.

Lemma bind_raise {A B} (m : M A) (k : A -> M B) w e w1 :
  m w = (Raise e, w1) -> bind m k w = (Raise e, w1).
Proof. intros H. unfold bind. now rewrite H. Qed.

Lemma bind_inv_ok {A B} (m : M A) (k : A -> M B) w b w' :
  bind m k w = (Ok b, w') ->
  exists a w1, m w = (Ok a, w1) /\ k a w1 = (Ok b, w').
Proof.
  unfold bind. destruct (m w) as [[a | e |] w1]; intros H; try discriminate.
  exists a, w1. split; [reflexivity | exact H].
Qed.

Lemma bind_assoc {A B C} (m : M A) (k : A -> M B) (h : B -> M C) w :
  bind (bind m k) h w = bind m (fun a => bind (k a) h) w.
Proof.
  unfold bind. destruct (m w) as [[a | e |] w1]; try reflexivity.
Qed.

Lemma try_except_ok {A} (m : M A) h w a w1 :
  m w = (Ok a, w1) -> try_except m h w = (Ok a, w1).
Proof. intros H. unfold try_except. now rewrite H. Qed.

Lemma try_except_raise {A} (m : M A) h w e w1 :
  m w = (Raise e, w1) -> try_except m h w = h e w1.
Proof. intros H. unfold try_except. now rewrite H. Qed.

(** ** Logs only grow *)

Lemma emits_weaken {A} (P Q : event -> Prop) (m : M A) :
  (forall e, P e -> Q e) -> emits P m -> emits Q m.
Proof.
  intros HPQ Hm w r w' Hrun.
  destruct (Hm w r w' Hrun) as (evs & Hlog & Hall).
  exists evs. split; [exact Hlog |].
  eapply Forall_impl; [exact Hall | exact HPQ].
Qed.

Lemma silent_emits {A} P (m : M A) : silent m -> emits P m.
Proof.
  intros Hm w r w' Hrun. exists []. split; [| constructor].
  rewrite (Hm w r w' Hrun). now rewrite app_nil_r.
Qed.

Lemma emits_ret {A} P (a : A) : emits P (ret a).
Proof. apply silent_emits. intros w r w' H. now inversion H. Qed.

Lemma emits_raise {A} P e : emits P (@raise A e).
Proof. apply silent_emits. intros w r w' H. now inversion H. Qed.

Lemma emits_bind {A B} P (m : M A) (k : A -> M B) :
  emits P m -> (forall a, emits P (k a)) -> emits P (bind m k).
Proof.
  intros Hm Hk w r w' Hrun. unfold bind in Hrun.
  destruct (m w) as [[a | e |] w1] eqn:Em.
  - destruct (Hm _ _ _ Em) as (evs1 & L1 & F1).
    destruct (Hk a _ _ _ Hrun) as (evs2 & L2 & F2).
    exists (evs1 ++ evs2). split.
    + rewrite L2, L1. now rewrite app_assoc.
    + apply Forall_app. now split.
  - inversion Hrun; subst. eapply Hm. exact Em.
  - inversion Hrun; subst. eapply Hm. exact Em.
Qed.

Lemma emits_try_except {A} P (m : M A) h :
  emits P m -> (forall e, emits P (h e)) -> emits P (try_except m h).
Proof.
  intros Hm Hh w r w' Hrun. unfold try_except in Hrun.
  destruct (m w) as [[a | e |] w1] eqn:Em.
  - inversion Hrun; subst. eapply Hm. exact Em.
  - destruct (Hm _ _ _ Em) as (evs1 & L1 & F1).
    destruct (Hh e _ _ _ Hrun) as (evs2 & L2 & F2).
    exists (evs1 ++ evs2). split.
    + rewrite L2, L1. now rewrite app_assoc.
    + apply Forall_app. now split.
  - inversion Hrun; subst. eapply Hm. exact Em.
Qed.

Lemma emits_bind_ret {A B} P (a : A) (k : A -> M B) :
  emits P (k a) -> emits P (bind (ret a) k).
Proof. intros H w r w' Hrun. exact (H w r w' Hrun). Qed.

Lemma emits_bind_raise {A B} P e (k : A -> M B) :
  emits P (bind (raise e) k).
Proof.
  apply silent_emits. intros w r w' H. now inversion H.
Qed.

Lemma emits_event P (e : event) : P e -> emits P (modify (add_event e)).
Proof.
  intros He w r w' H. inversion H; subst. exists [e]. split; [reflexivity |].
  now constructor.
Qed.

Lemma emits_print P m : P (EvPrint m) -> emits P (print m).
Proof. apply emits_event. Qed.

Lemma emits_get_world P : emits P get_world.
Proof. apply silent_emits. intros w r w' H. now inversion H. Qed.

(** One step of the session. *)
Lemma follow_unfold hops first r w :
  follow hops first r w =
  (let w' := count_request (add_event (if first then EvGet r else EvFollow r) w) in
   match server w (nreq w) r with
   | Reply resp => (Ok resp, w')
   | NoReply => (Raise ConnectionError, w')
   | Redirect url =>
       match hops with
       | O => (Raise TooManyRedirects, w')
       | S hops' => follow hops' false (mk_request url [] (req_stream r)) w'
       end
   end).
Proof. destruct hops; reflexivity. Qed.

(** An answer handed to the program ends [sess.get] after the one request. *)
Lemma sess_get_reply r w resp :
  server w (nreq w) r = Reply resp ->
  sess_get r w = (Ok resp, count_request (add_event (EvGet r) w)).
Proof. intros H. unfold sess_get. rewrite follow_unfold, H. reflexivity. Qed.

Lemma sess_get_no_reply r w :
  server w (nreq w) r = NoReply ->
  sess_get r w = (Raise ConnectionError, count_request (add_event (EvGet r) w)).
Proof. intros H. unfold sess_get. rewrite follow_unfold, H. reflexivity. Qed.

Lemma sess_get_redirect r w url :
  server w (nreq w) r = Redirect url ->
  sess_get r w =
  follow (pred max_redirects) false (mk_request url [] (req_stream r))
         (count_request (add_event (EvGet r) w)).
Proof. intros H. unfold sess_get. rewrite follow_unfold, H. reflexivity. Qed.

Lemma lookup_path_same p w v :
  fs v = fs w -> cwd v = cwd w -> lookup_path p v = lookup_path p w.
Proof. intros Hf Hc. unfold lookup_path, resolve. now rewrite Hf, Hc. Qed.

(** The session leaves the files alone. *)
Lemma follow_keeps_files hops : forall first r w x w',
  follow hops first r w = (x, w') -> fs w' = fs w /\ cwd w' = cwd w.
Proof.
  induction hops as [| h IH]; intros first r w x w' H;
    rewrite follow_unfold in H; cbv zeta in H;
    destruct (server w (nreq w) r) as [resp | | url];
    try (inversion H; subst; now auto).
  apply IH in H. exact H.
Qed.

Lemma sess_get_keeps_files r w x w' :
  sess_get r w = (x, w') -> fs w' = fs w /\ cwd w' = cwd w.
Proof. apply follow_keeps_files. Qed.

Lemma emits_follow (P : event -> Prop) hops : forall (first : bool) r,
  P (if first then EvGet r else EvFollow r) -> (forall r', P (EvFollow r')) ->
  emits P (follow hops first r).
Proof.
  induction hops as [| h IH]; intros first r He Hf w x w' H;
    rewrite follow_unfold in H; cbv zeta in H;
    destruct (server w (nreq w) r) as [resp | | url];
    try (inversion H; subst; exists [if first then EvGet r else EvFollow r];
         split; [reflexivity | now constructor]).
  destruct (IH false _ (Hf _) Hf _ _ _ H) as (evs & L & F).
  exists ((if first then EvGet r else EvFollow r) :: evs). split.
  - rewrite L. simpl. now rewrite <- app_assoc.
  - now constructor.
Qed.

Lemma emits_sess_get P r :
  P (EvGet r) -> (forall r', P (EvFollow r')) -> emits P (sess_get r).
Proof. intros He Hf. now apply emits_follow. Qed.

Lemma emits_other_state {A} P (f : world -> outcome A * world) :
  (forall w, log (snd (f w)) = log w) -> emits P f.
Proof.
  intros Hf. apply silent_emits. intros w r w' H.
  specialize (Hf w). now rewrite H in Hf.
Qed.

Lemma emits_modify_quiet P (f : world -> world) :
  (forall w, log (f w) = log w) -> emits P (modify f).
Proof.
  intros Hf. apply silent_emits. intros w r w' H. inversion H; subst. apply Hf.
Qed.

Ltac emits_step :=
  match goal with
  | |- emits _ (ret _) => apply emits_ret
  | |- emits _ (raise _) => apply emits_raise
  | |- emits _ get_world => apply emits_get_world
  | |- emits _ (bind _ _) => apply emits_bind; [| intros ?]
  | |- emits _ (try_except _ _) => apply emits_try_except; [| intros ?]
  | |- emits _ (match ?x with _ => _ end) => destruct x
  | |- emits _ (if ?x then _ else _) => destruct x
  end.

Lemma emits_stat P p : emits P (stat p).
Proof. apply silent_emits. intros w r w' H. now inversion H. Qed.

Lemma emits_put_node P p n : emits P (put_node p n).
Proof. apply emits_modify_quiet. reflexivity. Qed.

Lemma emits_path_exists P p : emits P (path_exists p).
Proof. unfold path_exists. emits_step; [apply emits_stat | emits_step]. Qed.

Lemma emits_os_mkdir P p : emits P (os_mkdir p).
Proof.
  unfold os_mkdir. emits_step; [apply emits_stat |].
  repeat emits_step; auto using emits_stat, emits_put_node.
Qed.

Lemma emits_path_mkdir P depth : forall parents exist_ok p,
  emits P (path_mkdir depth parents exist_ok p).
Proof.
  induction depth as [| d IH]; intros parents exist_ok p; simpl;
    (emits_step; [apply emits_os_mkdir |]);
    repeat emits_step; auto using emits_stat.
Qed.

Lemma emits_mkdir P parents exist_ok p : emits P (mkdir parents exist_ok p).
Proof. apply emits_path_mkdir. Qed.

Lemma emits_chdir P p : emits P (chdir p).
Proof.
  unfold chdir. emits_step; [apply emits_stat |].
  repeat emits_step. apply emits_modify_quiet. reflexivity.
Qed.

Lemma emits_write_file P p c : emits P (write_file p c).
Proof.
  unfold write_file. emits_step; [apply emits_stat |].
  repeat emits_step; auto using emits_stat, emits_put_node.
Qed.

Lemma emits_raise_for_status P resp : emits P (raise_for_status resp).
Proof. unfold raise_for_status. repeat emits_step. Qed.

Lemma emits_resp_json P resp : emits P (resp_json resp).
Proof. unfold resp_json. repeat emits_step. Qed.

Lemma emits_time_sleep P s : (forall z, P (EvSleep z)) -> emits P (time_sleep s).
Proof.
  intros HP. unfold time_sleep. emits_step; [emits_step |].
  emits_step; [emits_step |].
  apply emits_event. apply HP.
Qed.

Lemma emits_retry_after P resp : emits P (retry_after resp).
Proof. unfold retry_after. repeat emits_step. Qed.

(** [trello_get] adds plain (not streamed) requests, what the session
    adds to them, and sleeps. *)
Lemma emits_trello_get P fuel : forall endpoint params,
  (forall r, req_stream r = false -> P (EvGet r)) ->
  (forall r, P (EvFollow r)) ->
  (forall z, P (EvSleep z)) ->
  emits P (trello_get fuel endpoint params).
Proof.
  induction fuel as [| f IH]; intros endpoint params Hget Hfollow Hsleep; simpl.
  - apply silent_emits. intros w r w' H. now inversion H.
  - emits_step; [emits_step |].
    emits_step; [apply emits_sess_get; [apply Hget; reflexivity | exact Hfollow] |].
    emits_step.
    + emits_step; [apply emits_retry_after |].
      emits_step; [now apply emits_time_sleep | now apply IH].
    + emits_step; [apply emits_raise_for_status | apply emits_resp_json].
Qed.

(** [download_file] adds at most the streamed request for its URL and
    what the session adds to it. *)
Lemma emits_download_file P url dest :
  P (EvGet (mk_request url [] true)) -> (forall r, P (EvFollow r)) ->
  emits P (download_file url dest).
Proof.
  intros HP Hfollow. unfold download_file.
  emits_step; [apply emits_path_exists |].
  emits_step; [emits_step |].
  emits_step; [now apply emits_sess_get |].
  emits_step; [apply emits_raise_for_status |].
  emits_step; [apply emits_write_file |].
  repeat emits_step.
Qed.

(** ** What the processing of cards adds to the log *)

Lemma native_url att u :
  is_trello_card_image att = true -> att_url att = Some u ->
  u <> "" /\ Py.contains "trello.com" u = true /\ Py.contains "/cards/" u = true.
Proof.
  unfold is_trello_card_image, get_url. intros H Hu. rewrite Hu in H. simpl in H.
  apply andb_prop in H as [H H3]. apply andb_prop in H as [H1 H2].
  repeat split; try assumption.
  intros ->. discriminate H1.
Qed.

Lemma emits_attachment_id_of P parts : emits P (attachment_id_of parts).
Proof.
  unfold attachment_id_of, list_index, list_item. repeat emits_step.
Qed.

Section CardLog.

Variable ok : string -> bool.

Lemma emits_url_path_parts P url : emits P (url_path_parts ok url).
Proof. unfold url_path_parts. repeat emits_step. Qed.

Lemma emits_download_attachment dir card_id att card :
  is_trello_card_image att = true ->
  emits card_event (download_attachment ok dir card_id att card).
Proof.
  intros Hnat. unfold download_attachment.
  destruct (att_url att) as [u |] eqn:Hu.
  - destruct (native_url att u Hnat Hu) as (_ & H1 & H2).
    apply emits_bind_ret.
    emits_step; [apply emits_url_path_parts |].
    emits_step; [apply emits_attachment_id_of |].
    emits_step; [apply emits_mkdir |].
    emits_step; [apply emits_print; exact I |].
    emits_step.
    + emits_step; [| emits_step].
      apply emits_download_file; [simpl; now right | intros; exact I].
    + emits_step; [apply emits_print; exact I | emits_step].
  - apply emits_bind_raise.
Qed.

Lemma emits_download_all dir card_id atts : forall card,
  Forall (fun att => is_trello_card_image att = true) atts ->
  emits card_event (download_all ok dir card_id atts card).
Proof.
  induction atts as [| att rest IH]; intros card Hall; simpl.
  - emits_step.
  - inversion Hall; subst.
    emits_step; [now apply emits_download_attachment | now apply IH].
Qed.

Lemma emits_card_attachments fuel card :
  emits card_event (card_attachments fuel card).
Proof.
  unfold card_attachments. destruct (c_attachments card); [| emits_step].
  emits_step; [| repeat emits_step].
  apply emits_trello_get; intros; simpl; auto.
Qed.

Lemma filter_Forall {A} (f : A -> bool) (l : list A) :
  Forall (fun x => f x = true) (List.filter f l).
Proof.
  apply List.Forall_forall. intros x Hx. now apply List.filter_In in Hx.
Qed.

Lemma emits_process_card fuel dir card :
  emits card_event (process_card ok fuel dir card).
Proof.
  unfold process_card. emits_step; [emits_step |].
  emits_step; [apply emits_card_attachments |].
  emits_step.
  - destruct (List.filter _ a); [emits_step |].
    emits_step; [apply emits_print; exact I | emits_step].
  - destruct (List.filter is_trello_card_image a) eqn:E; [emits_step |].
    emits_step; [apply emits_mkdir |].
    apply emits_download_all. rewrite <- E. apply filter_Forall.
Qed.

Lemma emits_process_cards fuel dir cards :
  emits card_event (process_cards ok fuel dir cards).
Proof.
  induction cards as [| c rest IH]; simpl; [emits_step |].
  emits_step; [apply emits_process_card |].
  emits_step; [exact IH | emits_step].
Qed.

End CardLog.

(** ** Runs, step by step *)

Lemma bind_run {A B} (m : M A) (k : A -> M B) w r w' :
  bind m k w = (r, w') ->
  (exists a w1, m w = (Ok a, w1) /\ k a w1 = (r, w')) \/
  (exists e, m w = (Raise e, w') /\ r = Raise e) \/
  (m w = (OutOfFuel, w') /\ r = OutOfFuel).
Proof.
  unfold bind. destruct (m w) as [[a | e |] w1]; intros H.
  - left. now exists a, w1.
  - right. left. exists e. now inversion H.
  - right. right. now inversion H.
Qed.

Lemma card_event_quiet e : card_event e -> quiet e.
Proof. destruct e as [r | z | [] | r']; simpl; tauto. Qed.

Lemma started_app a b : started (a ++ b) = started a ++ started b.
Proof. unfold started. apply flat_map_app. Qed.

Lemma finished_app a b : finished (a ++ b) = finished a ++ finished b.
Proof. unfold finished. apply flat_map_app. Qed.

Lemma downloads_app a b : downloads (a ++ b) = downloads a ++ downloads b.
Proof. unfold downloads. apply flat_map_app. Qed.

Lemma quiet_started evs : Forall quiet evs -> started evs = [].
Proof.
  induction 1 as [| e evs He _ IH]; [reflexivity |].
  simpl. rewrite IH. destruct e as [r | z | [] | r']; simpl in *; tauto.
Qed.

Lemma quiet_finished evs : Forall quiet evs -> finished evs = [].
Proof.
  induction 1 as [| e evs He _ IH]; [reflexivity |].
  simpl. rewrite IH. destruct e as [r | z | [] | r']; simpl in *; tauto.
Qed.

Section BoardLog.

Variable ok : string -> bool.

(** The log of one [export_board]: the announcement, what the fetch and the
    cards add, and the line for the JSON file exactly when the export
    returns. *)
Lemma export_board_log fuel b w r w' :
  export_board ok fuel b w = (r, w') ->
  exists mid tail,
    log w' = log w ++ EvPrint (MsgExporting (b_name b) (b_id b)) :: mid ++ tail /\
    Forall card_event mid /\
    ((tail = [] /\ is_ok r = false) \/
     (tail = [EvPrint (MsgWroteJson (json_path b))] /\
      exists d, r = Ok (d, b_name b))).
Proof.
  unfold export_board. intros H.
  apply bind_run in H as [(u & w1 & H1 & H) | [(e & H1 & _) | (H1 & _)]];
    try discriminate H1.
  inversion H1; subst; clear H1.
  set (w0 := add_event _ w) in H.
  assert (L0 : log w0 = log w ++ [EvPrint (MsgExporting (b_name b) (b_id b))])
    by reflexivity.
  assert (Hget : emits card_event
            (trello_get fuel ("/boards/" +:+ b_id b) board_params))
    by (apply emits_trello_get; intros; simpl; auto).
  apply bind_run in H as [(j & w1 & H1 & H) | [(e & H1 & ->) | (H1 & ->)]].
  2,3: destruct (Hget _ _ _ H1) as (evs & L & F); exists evs, [];
       rewrite L, L0, <- app_assoc, app_nil_r; simpl; auto.
  destruct (Hget _ _ _ H1) as (evs1 & L1 & F1).
  destruct j as [bs | d | atts].
  1,3: inversion H; subst; exists evs1, [];
       rewrite L1, L0, <- app_assoc, app_nil_r; simpl; auto.
  change (bind (ret d) ?k w1) with (k d w1) in H. cbv beta in H.
  pose proof (emits_process_cards ok fuel
                (Path.of_string (slug_of (b_name b))) (d_cards d)) as Hcards.
  apply bind_run in H as [(cs & w2 & H2 & H) | [(e & H2 & ->) | (H2 & ->)]].
  2,3: destruct (Hcards _ _ _ H2) as (evs2 & L2 & F2); exists (evs1 ++ evs2), [];
       rewrite L2, L1, L0, <- !app_assoc, app_nil_r; simpl; split;
       [reflexivity | split; [now apply Forall_app | auto]].
  destruct (Hcards _ _ _ H2) as (evs2 & L2 & F2).
  assert (L12 : log w2 = log w ++ EvPrint (MsgExporting (b_name b) (b_id b))
                           :: (evs1 ++ evs2) ++ [])
    by (rewrite L2, L1, L0, <- !app_assoc, app_nil_r; reflexivity).
  assert (F12 : Forall card_event (evs1 ++ evs2)) by now apply Forall_app.
  pose proof (emits_write_file (fun _ => False)
                (Path.of_string (slug_of (b_name b)) </>
                   ("board_" +:+ slug_of (b_name b) +:+ "_" +:+ b_id b +:+ ".json"))
                (JsonDoc (mk_board_data (d_lists d) cs))) as Hwrite.
  apply bind_run in H as [(u & w3 & H3 & H) | [(e & H3 & ->) | (H3 & ->)]].
  2,3: destruct (Hwrite _ _ _ H3) as (evs3 & L3 & F3);
       destruct evs3; [| now inversion F3];
       exists (evs1 ++ evs2), []; rewrite L3, app_nil_r, L12; auto.
  destruct (Hwrite _ _ _ H3) as (evs3 & L3 & F3).
  destruct evs3; [| now inversion F3]. rewrite app_nil_r in L3.
  inversion H; subst.
  exists (evs1 ++ evs2), [EvPrint (MsgWroteJson (json_path b))].
  split; [| split; [exact F12 | right; split; [reflexivity | eauto]]].
  simpl. rewrite L3, L12, app_nil_r. rewrite <- app_assoc. reflexivity.
Qed.

(** The log of the loop of [main]: the exports are started in the order of
    [active]; the loop returns exactly when all of them returned. *)
Lemma export_each_log fuel active : forall acc w r w',
  export_each ok fuel active acc w = (r, w') ->
  exists evs k,
    log w' = log w ++ evs /\
    (k <= length active)%nat /\
    started evs = List.map board_key (take k active) /\
    finished evs = List.map json_path (take (if is_ok r then k else pred k) active) /\
    (if is_ok r then k = length active else (1 <= k)%nat).
Proof.
  induction active as [| b rest IH]; intros acc w r w' H; simpl in H.
  - inversion H; subst. exists [], O. rewrite app_nil_r. simpl. auto.
  - apply bind_run in H as [(x & w1 & H1 & H) | [(e & H1 & ->) | (H1 & ->)]].
    + destruct (export_board_log _ _ _ _ _ H1) as (mid & tail & L1 & F1 & Ht).
      destruct Ht as [(_ & Hno) | (-> & _)]; [discriminate Hno |].
      destruct (IH _ _ _ _ H) as (evs & k & L & Hk & Hs & Hf & Hr).
      pose proof (quiet_started mid (Forall_impl _ _ _ F1 card_event_quiet)) as S1.
      pose proof (quiet_finished mid (Forall_impl _ _ _ F1 card_event_quiet)) as S2.
      exists ((EvPrint (MsgExporting (b_name b) (b_id b)) :: mid ++
                 [EvPrint (MsgWroteJson (json_path b))]) ++ evs), (S k).
      split; [rewrite L, L1; now rewrite <- app_assoc |].
      split; [simpl; lia |].
      split.
      { rewrite started_app. simpl started at 1. rewrite started_app, S1, Hs.
        reflexivity. }
      split.
      { rewrite finished_app. simpl finished at 1. rewrite finished_app, S2, Hf.
        simpl. destruct (is_ok r); [reflexivity |].
        destruct k as [| k]; [lia | reflexivity]. }
      destruct (is_ok r); simpl; lia.
    + destruct (export_board_log _ _ _ _ _ H1) as (mid & tail & L1 & F1 & Ht).
      destruct Ht as [(-> & _) | (_ & d & Hd)]; [| discriminate Hd].
      pose proof (quiet_started mid (Forall_impl _ _ _ F1 card_event_quiet)) as S1.
      pose proof (quiet_finished mid (Forall_impl _ _ _ F1 card_event_quiet)) as S2.
      exists (EvPrint (MsgExporting (b_name b) (b_id b)) :: mid ++ []), 1%nat.
      split; [exact L1 |]. rewrite app_nil_r. simpl.
      rewrite S1, S2. repeat split; try reflexivity; lia.
    + destruct (export_board_log _ _ _ _ _ H1) as (mid & tail & L1 & F1 & Ht).
      destruct Ht as [(-> & _) | (_ & d & Hd)]; [| discriminate Hd].
      pose proof (quiet_started mid (Forall_impl _ _ _ F1 card_event_quiet)) as S1.
      pose proof (quiet_finished mid (Forall_impl _ _ _ F1 card_event_quiet)) as S2.
      exists (EvPrint (MsgExporting (b_name b) (b_id b)) :: mid ++ []), 1%nat.
      split; [exact L1 |]. rewrite app_nil_r. simpl.
      rewrite S1, S2. repeat split; try reflexivity; lia.
Qed.

End BoardLog.

Lemma emits_export_csv all_boards : emits quiet (export_csv all_boards).
Proof.
  unfold export_csv. destruct (board_rows all_boards) as [rows good].
  emits_step; [apply emits_write_file |].
  emits_step; [apply emits_print; exact I | emits_step].
Qed.

(** ** The driver *)

Section Driver.

Variable ok : string -> bool.

(** Once the boards are listed, [main] is the loop over the open boards
    followed by the CSV export. *)
Lemma main_after_listing fuel w wa wb w1 boards :
  mkdir false true (Path.of_string "trello_exports") w = (Ok tt, wa) ->
  chdir (Path.of_string "trello_exports") wa = (Ok tt, wb) ->
  trello_get fuel "/members/me/boards"
    [("fields", "name,closed,dateLastActivity")] wb = (Ok (JBoards boards), w1) ->
  main ok fuel w =
  (let active := List.filter (fun b => negb (b_closed b)) boards in
   print (MsgFound (length active)) >>
   let* all_data := export_each ok fuel active [] in
   export_csv all_data >>
   print MsgAllDone) w1.
Proof.
  intros Hmk Hcd Hget. unfold main.
  rewrite (bind_ok _ _ _ _ _ Hmk), (bind_ok _ _ _ _ _ Hcd), (bind_ok _ _ _ _ _ Hget).
  reflexivity.
Qed.

End Driver.

Section Abort.

Variable ok : string -> bool.

Lemma bind_ext {A B} (m : M A) (k1 k2 : A -> M B) w :
  (forall a w1, k1 a w1 = k2 a w1) -> bind m k1 w = bind m k2 w.
Proof.
  intros H. unfold bind. destruct (m w) as [[a | e |] w1]; auto.
Qed.

Lemma export_each_app fuel pre : forall rest acc w,
  export_each ok fuel (pre ++ rest) acc w =
  bind (export_each ok fuel pre acc) (fun acc' => export_each ok fuel rest acc') w.
Proof.
  induction pre as [| b pre IH]; intros rest acc w; simpl; [reflexivity |].
  rewrite bind_assoc. apply bind_ext. intros r w1. apply IH.
Qed.

(** An exception of the board fetch leaves [export_board] as it is. *)
Lemma export_board_fetch_raises fuel b w e w' :
  trello_get fuel ("/boards/" +:+ b_id b) board_params
    (add_event (EvPrint (MsgExporting (b_name b) (b_id b))) w) = (Raise e, w') ->
  export_board ok fuel b w = (Raise e, w').
Proof.
  intros H. unfold export_board.
  erewrite bind_ok by reflexivity.
  now rewrite (bind_raise _ _ _ _ _ H).
Qed.

(** C2, as amended.  When the fetch of one board's nested payload raises an
    HTTP error, the error leaves [export_board], the loop over the boards
    and [main]: the run ends in the state the failed fetch left.  The boards
    before it have been exported; the export of the failing board was
    started; no later board is started and the CSV file is not written. *)
Theorem board_fetch_error_aborts_run fuel w wa wb w1 boards pre b rest done w2 w3 code :
  mkdir false true (Path.of_string "trello_exports") w = (Ok tt, wa) ->
  chdir (Path.of_string "trello_exports") wa = (Ok tt, wb) ->
  trello_get fuel "/members/me/boards"
    [("fields", "name,closed,dateLastActivity")] wb = (Ok (JBoards boards), w1) ->
  List.filter (fun b => negb (b_closed b)) boards = pre ++ b :: rest ->
  export_each ok fuel pre []
    (add_event (EvPrint (MsgFound (length (pre ++ b :: rest)))) w1) = (Ok done, w2) ->
  trello_get fuel ("/boards/" +:+ b_id b) board_params
    (add_event (EvPrint (MsgExporting (b_name b) (b_id b))) w2)
    = (Raise (HTTPError code), w3) ->
  main ok fuel w = (Raise (HTTPError code), w3) /\
  exists evs,
    log w3 = log w1 ++ evs /\
    started evs = List.map board_key (pre ++ [b]) /\
    finished evs = List.map json_path pre.
Proof.
  intros Hmk Hcd Hget Hopen Hpre Hfetch.
  assert (Hget' : emits card_event
            (trello_get fuel ("/boards/" +:+ b_id b) board_params))
    by (apply emits_trello_get; intros; simpl; auto).
  split.
  - rewrite (main_after_listing ok _ _ _ _ _ _ Hmk Hcd Hget). cbv zeta.
    rewrite Hopen. erewrite bind_ok by reflexivity.
    apply bind_raise. rewrite export_each_app.
    rewrite (bind_ok _ _ _ _ _ Hpre). simpl.
    apply bind_raise. now apply export_board_fetch_raises.
  - destruct (export_each_log ok _ _ _ _ _ _ Hpre) as (evs & k & L & Hk & Hs & Hf & Hr).
    simpl in Hf, Hr. subst k. rewrite firstn_all in Hs, Hf.
    destruct (Hget' _ _ _ Hfetch) as (evs' & L' & F').
    pose proof (Forall_impl _ _ _ F' card_event_quiet) as Q'.
    exists (EvPrint (MsgFound (length (pre ++ b :: rest))) :: evs
              ++ EvPrint (MsgExporting (b_name b) (b_id b)) :: evs').
    split; [| split].
    + rewrite L'. simpl. rewrite L. simpl. rewrite <- !app_assoc. reflexivity.
    + simpl. rewrite started_app, Hs. simpl. rewrite (quiet_started _ Q').
      now rewrite List.map_app.
    + simpl. rewrite finished_app, Hf. simpl. rewrite (quiet_finished _ Q').
      now rewrite app_nil_r.
Qed.

End Abort.

(** *** Concrete runs of the driver *)

(** Board B answers HTTP 500 after board A was exported. *)
Lemma board_fetch_error_aborts_run_witness :
  let w := Examples.start Examples.old_dirs
             (Examples.site (Reply (Examples.ok_json (JBoard Examples.data_a)))
                            (Reply (Examples.error_response 500))
                            (Reply (Examples.ok_file ["png"]))) in
  let r := main Examples.no_bracket_check 5 w in
  r = (Raise (HTTPError 500), snd r) /\
  exists evs,
    started evs = [("Board A", "idA"); ("Board B", "idB")] /\
    finished evs = ["Board_A/board_Board_A_idA.json"].
Proof.
  intros w r.
  pose (wa := snd (mkdir false true (Path.of_string "trello_exports") w)).
  pose (wb := snd (chdir (Path.of_string "trello_exports") wa)).
  pose (w1 := snd (trello_get 5 "/members/me/boards"
                     [("fields", "name,closed,dateLastActivity")] wb)).
  pose (run := export_each Examples.no_bracket_check 5 [Examples.board_a] []
                 (add_event (EvPrint (MsgFound 2)) w1)).
  destruct (board_fetch_error_aborts_run Examples.no_bracket_check 5 w wa wb w1
              [Examples.board_a; Examples.board_old; Examples.board_b]
              [Examples.board_a] Examples.board_b []
              (match fst run with Ok d => d | _ => [] end) (snd run) (snd r) 500)
    as (Hmain & evs & _ & S & F); try (vm_compute; reflexivity).
  split; [exact Hmain |].
  exists evs. split; [exact S | exact F].
Defined.

(** C2 fails as stated: board A answers HTTP 500, and board B, which is not
    closed and comes after it, is never fetched nor exported: the run ends
    with the error. *)
Lemma later_board_not_exported_after_http_error :
  let w := Examples.start Examples.old_dirs
             (Examples.site (Reply (Examples.error_response 500))
                            (Reply (Examples.ok_json (JBoard Examples.data_b)))
                            (Reply (Examples.ok_file ["png"]))) in
  let r := main Examples.no_bracket_check 5 w in
  fst r = Raise (HTTPError 500) /\
  b_closed Examples.board_b = false /\
  ~ In (board_key Examples.board_b) (started (log (snd r))) /\
  ~ In (EvGet (mk_request (Examples.api +:+ "/boards/idB") board_params false))
       (log (snd r)).
Proof.
  vm_compute. repeat split; try reflexivity; intros H;
    repeat (destruct H as [H | H]; [discriminate H |]); exact H.
Qed.

(** C1 (the code departs from it).  The download of the first attachment
    of a card answers HTTP 404: the failure is printed, and then a
    TypeError ends the run.  The card's next attachment is not downloaded,
    the JSON file of the board is not written and the next board is not
    started. *)
Theorem download_failure_aborts_run :
  let w := Examples.start Examples.old_dirs
             (Examples.site (Reply (Examples.ok_json (JBoard Examples.data_a)))
                            (Reply (Examples.ok_json (JBoard Examples.data_b)))
                            (Reply (Examples.error_response 404))) in
  let r := main Examples.no_bracket_check 5 w in
  fst r = Raise TypeError /\
  List.last (log (snd r)) (EvSleep 0) = EvPrint (MsgFailed "photo.png" (HTTPError 404)) /\
  downloads (log (snd r)) = [Examples.photo_url] /\
  started (log (snd r)) = [("Board A", "idA")] /\
  finished (log (snd r)) = [].
Proof. vm_compute. repeat split; reflexivity. Qed.

(** ** One attachment, one card *)

Lemma attachment_id_of_run parts w :
  attachment_id_of parts w = (Ok (attachment_id parts), w).
Proof.
  unfold attachment_id_of, attachment_id, try_except, bind, list_index, list_item.
  destruct (Py.index "attachments" parts) as [i |]; simpl; [| reflexivity].
  destruct (parts !! (i + 1)%nat); reflexivity.
Qed.

(** A failed download is printed and then ends in a TypeError. *)
Lemma failed_download_raises_TypeError url dest safe_name (c : Card) w e w' :
  download_file url dest w = (Raise e, w') ->
  try_except (download_file url dest >> ret c)
             (fun e => print (MsgFailed safe_name e) >> raise TypeError) w
  = (Raise TypeError, add_event (EvPrint (MsgFailed safe_name e)) w').
Proof.
  intros H. erewrite try_except_raise by (apply bind_raise; exact H). reflexivity.
Qed.

Section CardResult.

Variable ok : string -> bool.

(** When the loop body returns, it recorded the path of the locator. *)
Lemma download_attachment_ok slug card_id att card w card' w' :
  download_attachment ok (Path.of_string slug </> "attachments") card_id att card w
    = (Ok card', w') ->
  exists p, recorded_path ok slug card_id att = Some p /\ card' = append_local p card.
Proof.
  unfold download_attachment, recorded_path, url_path_parts. intros H.
  destruct (att_url att) as [url |]; [| discriminate H].
  change (bind (ret url) ?k w) with (k url w) in H. cbv beta in H.
  destruct (Url.urlparse ok url) as [r |]; [| discriminate H].
  change (bind (ret ?x) ?k w) with (k x w) in H. cbv beta in H.
  rewrite (bind_ok _ _ _ _ _ (attachment_id_of_run _ w)) in H.
  apply bind_inv_ok in H as (u1 & w1 & _ & H).
  apply bind_inv_ok in H as (u2 & w2 & _ & H).
  unfold try_except in H.
  match type of H with
  | (let (_, _) := ?m ?w in _) = _ => destruct (m w) as [[c | e |] w3] eqn:E
  end; try discriminate H.
  apply bind_inv_ok in E as (u3 & w4 & _ & E).
  inversion E; subst. inversion H; subst.
  eexists. split; reflexivity.
Qed.

Lemma download_all_ok slug card_id atts : forall card w card' w',
  download_all ok (Path.of_string slug </> "attachments") card_id atts card w
    = (Ok card', w') ->
  exists paths,
    recorded_paths ok slug card_id atts = Some paths /\ card' = record_all paths card.
Proof.
  induction atts as [| att rest IH]; intros card w card' w' H; simpl in H.
  - inversion H; subst. now exists [].
  - apply bind_inv_ok in H as (c1 & w1 & H1 & H).
    apply download_attachment_ok in H1 as (p & Hp & ->).
    apply IH in H as (ps & Hps & ->).
    exists (p :: ps). simpl. now rewrite Hp, Hps.
Qed.

Lemma record_all_local paths : forall card,
  c_local_attachments (record_all paths card) =
  match paths with
  | [] => c_local_attachments card
  | _ => Some (default [] (c_local_attachments card) ++ paths)
  end.
Proof.
  induction paths as [| p ps IH]; intros card; [reflexivity |].
  simpl. rewrite IH. destruct ps; simpl; [reflexivity |].
  now rewrite <- app_assoc.
Qed.

Lemma record_all_fields paths : forall card,
  c_id (record_all paths card) = c_id card /\
  c_idList (record_all paths card) = c_idList card /\
  c_attachments (record_all paths card) = c_attachments card.
Proof.
  induction paths as [| p ps IH]; intros card; [auto |].
  simpl. destruct (IH (append_local p card)) as (-> & -> & ->). auto.
Qed.

Lemma recorded_paths_length slug card_id atts : forall paths,
  recorded_paths ok slug card_id atts = Some paths -> length paths = length atts.
Proof.
  induction atts as [| att rest IH]; intros paths H; simpl in H.
  - now inversion H.
  - destruct (recorded_path ok slug card_id att); [| discriminate].
    destruct (recorded_paths ok slug card_id rest) as [ps |]; [| discriminate].
    inversion H; subst. simpl. f_equal. now apply IH.
Qed.

(** A card of another list than the DEBUG one is left alone. *)
Lemma process_card_skipped fuel dir card w :
  c_idList card <> Some DEBUG_BOARD_ID ->
  process_card ok fuel dir card w = (Ok card, w).
Proof.
  intros H. unfold process_card, DEBUG. simpl.
  rewrite bool_decide_eq_false_2 by exact H. reflexivity.
Qed.

(** A card of the DEBUG list, when its processing returns. *)
Lemma process_card_ok fuel slug card w card' w' :
  c_idList card = Some DEBUG_BOARD_ID ->
  process_card ok fuel (Path.of_string slug) card w = (Ok card', w') ->
  exists atts wa paths,
    card_attachments fuel card w = (Ok atts, wa) /\
    recorded_paths ok slug (c_id card) (List.filter is_trello_card_image atts)
      = Some paths /\
    card' = record_all paths
              (match List.filter is_foreign atts with
               | [] => card
               | foreign => set_local (List.map get_url foreign) card
               end).
Proof.
  intros Hlist H. unfold process_card, DEBUG in H. simpl in H.
  rewrite bool_decide_eq_true_2 in H by exact Hlist. simpl in H.
  apply bind_inv_ok in H as (atts & wa & Ha & H).
  exists atts, wa. fold is_foreign in H.
  destruct (List.filter is_foreign atts) as [| f fs] eqn:Ef.
  - change (bind (ret card) ?k wa) with (k card wa) in H. cbv beta in H.
    destruct (List.filter is_trello_card_image atts) as [| n ns] eqn:En.
    + inversion H; subst. exists []. auto.
    + apply bind_inv_ok in H as (u & w2 & _ & H).
      apply download_all_ok in H as (paths & Hp & ->). eauto.
  - apply bind_inv_ok in H as (c1 & w1 & H1 & H).
    apply bind_inv_ok in H1 as (u & w0 & _ & H1). inversion H1; subst; clear H1.
    destruct (List.filter is_trello_card_image atts) as [| n ns] eqn:En.
    + inversion H; subst. exists []. auto.
    + apply bind_inv_ok in H as (u' & w2 & _ & H).
      apply download_all_ok in H as (paths & Hp & ->). eauto.
Qed.

End CardResult.

(** ** One board *)

Section BoardResult.

Variable ok : string -> bool.

Lemma process_cards_ok fuel dir cards : forall w cards' w',
  process_cards ok fuel dir cards w = (Ok cards', w') ->
  Forall2 (fun c c' => exists wa wb, process_card ok fuel dir c wa = (Ok c', wb))
          cards cards'.
Proof.
  induction cards as [| c rest IH]; intros w cards' w' H; simpl in H.
  - inversion H; subst. constructor.
  - apply bind_inv_ok in H as (c' & w1 & H1 & H).
    apply bind_inv_ok in H as (rest' & w2 & H2 & H).
    inversion H; subst. constructor; [eauto | eapply IH; eauto].
Qed.

(** When [export_board] returns: the payload it fetched, and the cards it
    returns are the processed cards of that payload. *)
Lemma export_board_ok fuel b w data' name w' :
  export_board ok fuel b w = (Ok (data', name), w') ->
  exists data w1 w2,
    trello_get fuel ("/boards/" +:+ b_id b) board_params
      (add_event (EvPrint (MsgExporting (b_name b) (b_id b))) w)
      = (Ok (JBoard data), w1) /\
    process_cards ok fuel (Path.of_string (slug_of (b_name b))) (d_cards data) w1
      = (Ok (d_cards data'), w2) /\
    d_lists data' = d_lists data /\ name = b_name b.
Proof.
  unfold export_board. intros H.
  apply bind_inv_ok in H as (u & w0 & H0 & H). inversion H0; subst; clear H0.
  apply bind_inv_ok in H as (j & w1 & H1 & H).
  destruct j as [bs | d | atts]; try discriminate H.
  change (bind (ret d) ?k w1) with (k d w1) in H. cbv beta in H.
  apply bind_inv_ok in H as (cs & w2 & H2 & H).
  apply bind_inv_ok in H as (u1 & w3 & _ & H).
  apply bind_inv_ok in H as (u2 & w4 & _ & H).
  inversion H; subst. exists d, w1, w2. auto.
Qed.

Lemma native_has_url att : is_trello_card_image att = true -> has_url att = true.
Proof.
  unfold is_trello_card_image, has_url. intros H.
  apply andb_prop in H as [H _]. now apply andb_prop in H as [H _].
Qed.

Lemma filter_partition_length atts :
  (length (List.filter is_foreign atts) + length (List.filter is_trello_card_image atts)
   = length (List.filter has_url atts))%nat.
Proof.
  induction atts as [| a rest IH]; [reflexivity |].
  simpl. unfold is_foreign at 1.
  pose proof (native_has_url a) as Hn.
  destruct (is_trello_card_image a), (has_url a); simpl; try lia.
Qed.

(** C10.  [DEBUG] is [True] as shipped, and [export_board] passes over every
    card whose list id differs from [DEBUG_BOARD_ID]: processing such a
    card changes neither the card nor the world (no classification, no
    request, no file, no line printed), however many attachments it has;
    so the exported document holds the card as it was fetched, and a card
    fetched without [local_attachments] is exported without it. *)
Theorem debug_skips_cards_of_other_lists fuel :
  DEBUG = true /\
  (forall dir card w,
      c_idList card <> Some DEBUG_BOARD_ID ->
      process_card ok fuel dir card w = (Ok card, w)) /\
  (forall b w data' name w',
      export_board ok fuel b w = (Ok (data', name), w') ->
      exists data w1,
        trello_get fuel ("/boards/" +:+ b_id b) board_params
          (add_event (EvPrint (MsgExporting (b_name b) (b_id b))) w)
          = (Ok (JBoard data), w1) /\
        forall i card,
          d_cards data !! i = Some card ->
          c_idList card <> Some DEBUG_BOARD_ID ->
          d_cards data' !! i = Some card /\
          (c_local_attachments card = None ->
           exists card', d_cards data' !! i = Some card' /\
                         c_local_attachments card' = None)).
Proof.
  split; [reflexivity |]. split.
  - intros dir card w H. now apply process_card_skipped.
  - intros b w data' name w' H.
    apply export_board_ok in H as (data & w1 & w2 & Hget & Hcards & _ & _).
    exists data, w1. split; [exact Hget |].
    intros i card Hi Hlist.
    apply process_cards_ok in Hcards.
    destruct (Forall2_lookup_l _ _ _ _ _ Hcards Hi) as (card' & Hi' & wa & wb & Hrun).
    rewrite process_card_skipped in Hrun by exact Hlist.
    inversion Hrun; subst. split; [exact Hi' |]. intros Hnone. eauto.
Qed.

(** The cards are processed one after the other: each card in the world
    the cards before it have left. *)
Lemma process_cards_at fuel dir cards : forall w cards' w',
  process_cards ok fuel dir cards w = (Ok cards', w') ->
  forall i card,
    cards !! i = Some card ->
    exists card' wa wb,
      cards' !! i = Some card' /\
      process_cards ok fuel dir (take i cards) w = (Ok (take i cards'), wa) /\
      process_card ok fuel dir card wa = (Ok card', wb).
Proof.
  induction cards as [| c rest IH]; intros w cards' w' H i card Hi;
    [discriminate Hi |].
  simpl in H.
  apply bind_inv_ok in H as (c' & w1 & H1 & H).
  apply bind_inv_ok in H as (rest' & w2 & H2 & H).
  inversion H; subst; clear H.
  destruct i as [| j].
  - inversion Hi; subst. exists c', w, w1. auto.
  - destruct (IH _ _ _ H2 j card Hi) as (card' & wa & wb & Hj & Hpre & Hrun).
    exists card', wa, wb. split; [exact Hj |]. split; [| exact Hrun].
    simpl. now rewrite (bind_ok _ _ _ _ _ H1), (bind_ok _ _ _ _ _ Hpre).
Qed.

(** C3, as amended.  After [export_board] returns, for every card of the
    fetched payload that is in the list [DEBUG_BOARD_ID] and was fetched
    without a [local_attachments] key: let [atts] be its attachments (those
    of the payload when it has any, else the answer of the per-card fetch
    made in this run, in the world [wa] that the fetch of the board and the
    processing of the cards before this one have left).
    If no attachment has a URL the card gets no [local_attachments];
    otherwise the field holds exactly one entry per attachment with a URL:
    first the URLs of the foreign attachments, then the local paths of the
    native ones, each group in payload order. *)
Theorem local_attachments_after_export fuel b w data' name w' :
  export_board ok fuel b w = (Ok (data', name), w') ->
  exists data w1,
    trello_get fuel ("/boards/" +:+ b_id b) board_params
      (add_event (EvPrint (MsgExporting (b_name b) (b_id b))) w)
      = (Ok (JBoard data), w1) /\
    length (d_cards data') = length (d_cards data) /\
    forall i card,
      d_cards data !! i = Some card ->
      c_idList card = Some DEBUG_BOARD_ID ->
      c_local_attachments card = None ->
      exists card' atts wa wb paths,
        d_cards data' !! i = Some card' /\
        process_cards ok fuel (Path.of_string (slug_of (b_name b)))
          (take i (d_cards data)) w1 = (Ok (take i (d_cards data')), wa) /\
        card_attachments fuel card wa = (Ok atts, wb) /\
        (c_attachments card <> [] -> atts = c_attachments card) /\
        recorded_paths ok (slug_of (b_name b)) (c_id card)
          (List.filter is_trello_card_image atts) = Some paths /\
        c_local_attachments card' =
          match List.filter has_url atts with
          | [] => None
          | _ => Some (List.map get_url (List.filter is_foreign atts) ++ paths)
          end /\
        length (List.map get_url (List.filter is_foreign atts) ++ paths)
          = length (List.filter has_url atts).
Proof.
  intros H.
  apply export_board_ok in H as (data & w1 & w2 & Hget & Hcards & _ & _).
  exists data, w1. split; [exact Hget |].
  split; [symmetry; eapply Forall2_length; apply process_cards_ok in Hcards;
          exact Hcards |].
  intros i card Hi Hlist Hnone.
  destruct (process_cards_at _ _ _ _ _ _ Hcards i card Hi)
    as (card' & wa & wb & Hi' & Hpre & Hrun).
  apply process_card_ok in Hrun as (atts & wc & paths & Hatts & Hpaths & ->);
    [| exact Hlist].
  exists (record_all paths
            (match List.filter is_foreign atts with
             | [] => card
             | foreign => set_local (List.map get_url foreign) card
             end)), atts, wa, wc, paths.
  pose proof (recorded_paths_length ok _ _ _ _ Hpaths) as Hlen.
  pose proof (filter_partition_length atts) as Hpart.
  assert (Hcount : length (List.map get_url (List.filter is_foreign atts) ++ paths)
                   = length (List.filter has_url atts)).
  { rewrite length_app, length_map, Hlen. exact Hpart. }
  split; [exact Hi' |]. split; [exact Hpre |]. split; [exact Hatts |].
  split.
  { intros Hne. unfold card_attachments in Hatts.
    destruct (c_attachments card); [congruence |]. now inversion Hatts. }
  split; [exact Hpaths |]. split; [| exact Hcount].
  rewrite record_all_local.
  destruct (List.filter has_url atts) as [| u us] eqn:Eu.
  - destruct (List.filter is_foreign atts); [| discriminate Hcount].
    destruct paths; [exact Hnone | discriminate Hcount].
  - destruct (List.filter is_foreign atts) as [| f fs] eqn:Ef.
    + destruct paths as [| p ps]; [discriminate Hcount |].
      simpl. now rewrite Hnone.
    + destruct paths as [| p ps]; simpl; [now rewrite app_nil_r | reflexivity].
Qed.

End BoardResult.

(** *** Concrete exports of one board *)

Lemma debug_skips_cards_of_other_lists_witness :
  c_idList Examples.card_other <> Some DEBUG_BOARD_ID /\
  forall w,
    process_card Examples.no_bracket_check 5 (Path.of_string "Board_B")
      Examples.card_other w = (Ok Examples.card_other, w).
Proof.
  assert (H : c_idList Examples.card_other <> Some DEBUG_BOARD_ID) by discriminate.
  split; [exact H |]. intros w.
  destruct (debug_skips_cards_of_other_lists Examples.no_bracket_check 5)
    as (_ & Hskip & _).
  apply Hskip. exact H.
Defined.

(** C3 fails as stated: board B is exported, its card has one attachment
    with a URL, and the exported card has no [local_attachments] at all,
    because the card is not in the list [DEBUG_BOARD_ID]. *)
Lemma card_of_other_list_gets_no_entries :
  let w := set_cwd (Path.of_string "trello_exports")
             (Examples.start Examples.old_dirs Examples.healthy) in
  let r := export_board Examples.no_bracket_check 5 Examples.board_b w in
  match fst r with
  | Ok (data', _) =>
      List.map (fun c => (List.map get_url (List.filter has_url (c_attachments c)),
                          c_local_attachments c)) (d_cards data')
      = [(["https://example.com/file.pdf"], None)]
  | _ => False
  end.
Proof. vm_compute. reflexivity. Qed.

Lemma local_attachments_after_export_witness :
  let w := set_cwd (Path.of_string "trello_exports")
             (Examples.start Examples.old_dirs Examples.healthy) in
  let r := export_board Examples.no_bracket_check 5 Examples.board_a w in
  is_ok (fst r) = true /\
  exists data' card',
    fst r = Ok (data', "Board A") /\
    d_cards data' !! O = Some card' /\
    c_local_attachments card' =
      Some ["https://example.com/file.pdf";
            "Board_A/attachments/abc_XYZ/photo.png";
            "Board_A/attachments/abc_UVW/my_notes.txt"].
Proof.
  intros w r. split; [vm_compute; reflexivity |].
  destruct (fst r) as [[data' name] | e |] eqn:Er;
    [| vm_compute in Er; discriminate Er | vm_compute in Er; discriminate Er].
  assert (Hname : name = "Board A")
    by (vm_compute in Er; now inversion Er).
  subst name.
  destruct (local_attachments_after_export Examples.no_bracket_check 5
              Examples.board_a w data' "Board A" (snd r))
    as (data & w1 & Hget & _ & Hcards).
  { rewrite <- Er. apply surjective_pairing. }
  vm_compute in Hget. inversion Hget; subst data; clear Hget.
  destruct (Hcards O Examples.card_abc eq_refl eq_refl eq_refl)
    as (card' & atts & wa & wb & paths & Hi & _ & _ & Hsame & Hpaths & Hlocal & _).
  rewrite (Hsame ltac:(discriminate)) in Hpaths, Hlocal.
  vm_compute in Hpaths. inversion Hpaths; subst paths; clear Hpaths.
  exists data', card'. split; [reflexivity |]. split; [exact Hi |].
  rewrite Hlocal. vm_compute. reflexivity.
Defined.

(** ** The downloader *)

Lemma download_file_present url dest w :
  lookup_path dest w <> None -> download_file url dest w = (Ok tt, w).
Proof.
  intros H. unfold download_file, path_exists, stat, bind, ret.
  destruct (lookup_path dest w); [reflexivity | congruence].
Qed.

Lemma write_file_present p c w w' :
  write_file p c w = (Ok tt, w') -> lookup_path p w' <> None.
Proof.
  unfold write_file, stat, bind. intros H.
  assert (Hput : forall v, put_node p (File c) v = (Ok tt, w') ->
                           lookup_path p w' <> None).
  { intros v Hv. inversion Hv; subst. unfold lookup_path, resolve. simpl.
    destruct (Path.is_anchor _); [discriminate |].
    rewrite lookup_insert_eq. discriminate. }
  destruct (lookup_path p w) as [[| c0] |];
    try discriminate H;
    destruct (lookup_path (Path.parent p) w) as [[| c1] |];
    try discriminate H; eapply Hput; exact H.
Qed.

(** C7.  [download_file] is idempotent.  If the destination exists, the
    call returns at once: no request, no write, the world is unchanged;
    so a second call in a row against the same destination does the same
    and performs no request.  And whenever a call has returned, the
    destination exists, so the next call in a row performs no request
    (nor anything else). *)
Theorem download_file_idempotent url dest w :
  (lookup_path dest w <> None ->
   download_file url dest w = (Ok tt, w) /\
   download_file url dest (snd (download_file url dest w)) = (Ok tt, w)) /\
  (forall w', download_file url dest w = (Ok tt, w') ->
              lookup_path dest w' <> None /\
              download_file url dest w' = (Ok tt, w')).
Proof.
  split.
  { intros H. rewrite (download_file_present url dest w H). simpl.
    split; [reflexivity | now apply download_file_present]. }
  intros w' H.
  assert (Hex : lookup_path dest w' <> None).
  { unfold download_file in H.
    apply bind_inv_ok in H as (present & w0 & H0 & H).
    unfold path_exists, stat, bind, ret in H0.
    destruct (lookup_path dest w) eqn:E; inversion H0; subst; clear H0.
    - inversion H; subst. congruence.
    - apply bind_inv_ok in H as (resp & w1 & _ & H).
      apply bind_inv_ok in H as (u & w2 & _ & H).
      apply bind_inv_ok in H as (u' & w3 & Hw & H).
      destruct u'. apply write_file_present in Hw.
      destruct (stream_ok resp); inversion H; subst. exact Hw. }
  split; [exact Hex | now apply download_file_present].
Qed.

Lemma download_file_idempotent_witness :
  let w := set_cwd (Path.of_string "trello_exports")
             (Examples.start Examples.old_dirs Examples.healthy) in
  let dest := Path.of_string "Board_A" </> "attachments" </> "abc_XYZ" </> "photo.png" in
  let w1 := snd (mkdir true true (Path.of_string "Board_A/attachments/abc_XYZ") w) in
  let w2 := snd (download_file Examples.photo_url dest w1) in
  lookup_path dest w1 = None /\
  downloads (log w2) = [Examples.photo_url] /\
  lookup_path dest w2 <> None /\
  download_file Examples.photo_url dest w2 = (Ok tt, w2).
Proof.
  intros w dest w1 w2.
  split; [vm_compute; reflexivity |].
  split; [vm_compute; reflexivity |].
  destruct (download_file_idempotent Examples.photo_url dest w1) as [_ H].
  apply (H w2). vm_compute. reflexivity.
Defined.

(** ** The rate-limited fetcher *)

Lemma trello_get_unfold fuel endpoint params w :
  trello_get (S fuel) endpoint params w =
  (let* resp := sess_get (mk_request (API_BASE_URL w +:+ endpoint) params false) in
   if status resp =? 429
   then let* seconds := retry_after resp in
        time_sleep seconds >> trello_get fuel endpoint params
   else raise_for_status resp >> resp_json resp) w.
Proof. reflexivity. Qed.

(** The first thing a call does is the request for its endpoint. *)
Lemma trello_get_first_request fuel endpoint params w :
  exists evs,
    log (snd (trello_get (S fuel) endpoint params w)) =
    log w ++ EvGet (mk_request (API_BASE_URL w +:+ endpoint) params false) :: evs.
Proof.
  set (req := mk_request (API_BASE_URL w +:+ endpoint) params false).
  assert (Hrest : forall resp,
            emits (fun _ => True)
              (if status resp =? 429
               then let* seconds := retry_after resp in
                    time_sleep seconds >> trello_get fuel endpoint params
               else raise_for_status resp >> resp_json resp)).
  { intros resp. destruct (status resp =? 429).
    - emits_step; [apply emits_retry_after |].
      emits_step; [now apply emits_time_sleep | now apply emits_trello_get].
    - emits_step; [apply emits_raise_for_status | apply emits_resp_json]. }
  assert (Hfirst : forall hops x v,
            follow hops true req w = (x, v) ->
            exists evs, log v = log w ++ EvGet req :: evs).
  { intros hops x v H. rewrite follow_unfold in H. cbv zeta in H.
    destruct (server w (nreq w) req) as [resp | | url].
    - inversion H; subst. now exists [].
    - inversion H; subst. now exists [].
    - destruct hops as [| h]; [inversion H; subst; now exists [] |].
      destruct (emits_follow (fun _ => True) h false _ I (fun _ => I) _ _ _ H)
        as (evs & L & _).
      exists evs. rewrite L. simpl. now rewrite <- app_assoc. }
  rewrite trello_get_unfold. fold req. unfold bind at 1.
  destruct (sess_get req w) as [[resp | e |] w1] eqn:E1;
    destruct (Hfirst _ _ _ E1) as (evs1 & L1); simpl.
  - match goal with
    | |- context [snd (?k ?v)] => destruct (k v) as [r w'] eqn:E
    end.
    destruct (Hrest resp _ _ _ E) as (evs & L & _).
    exists (evs1 ++ evs). simpl. rewrite L, L1. now rewrite <- app_assoc.
  - now exists evs1.
  - now exists evs1.
Qed.

(** C4.  For every fetch whose answer has status 429: with the header
    [Retry-After: 2] the fetcher sleeps 2 (so at least 2) time units, with
    no such header 3, and then calls itself with the same endpoint and
    parameters; that call first issues one request identical to the
    original and only then looks at the new answer: if it is not a 429
    again, nothing more is requested and the answer decides the result. *)
Theorem trello_get_retries_after_429 fuel endpoint params w resp seconds :
  let req := mk_request (API_BASE_URL w +:+ endpoint) params false in
  let w1 := add_event (EvSleep seconds) (count_request (add_event (EvGet req) w)) in
  let w2 := count_request (add_event (EvGet req) w1) in
  server w (nreq w) req = Reply resp ->
  status resp = 429 ->
  (header_get "Retry-After" (headers resp) = Some "2" /\ seconds = 2) \/
  (header_get "Retry-After" (headers resp) = None /\ seconds = 3) ->
  trello_get (S (S fuel)) endpoint params w = trello_get (S fuel) endpoint params w1 /\
  (exists evs,
     log (snd (trello_get (S (S fuel)) endpoint params w)) =
     log w ++ [EvGet req; EvSleep seconds; EvGet req] ++ evs) /\
  (forall resp2,
     server w (S (nreq w)) req = Reply resp2 ->
     status resp2 <> 429 ->
     trello_get (S (S fuel)) endpoint params w =
     ((if (400 <=? status resp2) && (status resp2 <? 600)
       then Raise (HTTPError (status resp2))
       else match body resp2 with
            | Some j => Ok j
            | None => Raise JSONDecodeError
            end), w2) /\
     log w2 = log w ++ [EvGet req; EvSleep seconds; EvGet req]).
Proof.
  intros req w1 w2 Hreply H429 Hhdr.
  assert (Hstep : trello_get (S (S fuel)) endpoint params w
                  = trello_get (S fuel) endpoint params w1).
  { change (trello_get (S (S fuel)) endpoint params w) with
      ((let* resp := sess_get req in
        if status resp =? 429
        then let* seconds := retry_after resp in
             time_sleep seconds >> trello_get (S fuel) endpoint params
        else raise_for_status resp >> resp_json resp) w).
    unfold bind at 1. rewrite (sess_get_reply _ _ _ Hreply), H429. simpl Z.eqb. cbv iota.
    unfold bind at 1. unfold retry_after.
    destruct Hhdr as [[-> ->] | [-> ->]]; reflexivity. }
  split; [exact Hstep |]. split.
  - rewrite Hstep.
    destruct (trello_get_first_request fuel endpoint params w1) as (evs & L).
    exists evs. rewrite L. unfold w1. simpl. rewrite <- !app_assoc. reflexivity.
  - intros resp2 Hreply2 Hnot.
    split; [| unfold w2, w1; simpl; rewrite <- !app_assoc; reflexivity].
    rewrite Hstep.
    change (trello_get (S fuel) endpoint params w1) with
      ((let* resp := sess_get req in
        if status resp =? 429
        then let* seconds := retry_after resp in
             time_sleep seconds >> trello_get fuel endpoint params
        else raise_for_status resp >> resp_json resp) w1).
    unfold bind at 1. rewrite (sess_get_reply req w1 resp2 Hreply2).
    destruct (status resp2 =? 429) eqn:E; [apply Z.eqb_eq in E; contradiction |].
    fold w2. unfold bind, raise_for_status, resp_json.
    destruct ((400 <=? status resp2) && (status resp2 <? 600)); [reflexivity |].
    simpl. destruct (body resp2); reflexivity.
Qed.

Lemma trello_get_retries_after_429_witness :
  let w := Examples.start Examples.old_dirs (Examples.busy_once (Some "2")) in
  let req := mk_request (Examples.api +:+ "/members/me/boards")
               [("fields", "name,closed,dateLastActivity")] false in
  server w (nreq w) req = Reply (Examples.rate_limited (Some "2")) /\
  log (snd (trello_get 2 "/members/me/boards"
              [("fields", "name,closed,dateLastActivity")] w))
  = [EvGet req; EvSleep 2; EvGet req].
Proof.
  intros w req. split; [reflexivity |].
  destruct (trello_get_retries_after_429 0 "/members/me/boards"
              [("fields", "name,closed,dateLastActivity")] w
              (Examples.rate_limited (Some "2")) 2)
    as (_ & _ & H); [reflexivity | reflexivity | left; split; reflexivity |].
  destruct (H (Examples.ok_json
                 (JBoards [Examples.board_a; Examples.board_old; Examples.board_b])))
    as [Hrun Hlog]; [reflexivity | discriminate |].
  rewrite Hrun. exact Hlog.
Defined.

(** ** The attachment id *)

Lemma index_first x l i :
  Py.index x l = Some i ->
  exists pre post, l = pre ++ x :: post /\ ~ In x pre /\ length pre = i.
Proof.
  revert i. induction l as [| y l IH]; intros i H; simpl in H; [discriminate |].
  destruct (String.eqb y x) eqn:E.
  - apply String.eqb_eq in E. subst y. inversion H; subst.
    exists [], l. auto.
  - apply String.eqb_neq in E.
    destruct (Py.index x l) as [j |]; [| discriminate].
    inversion H; subst.
    destruct (IH j eq_refl) as (pre & post & -> & Hpre & Hlen).
    exists (y :: pre), post. simpl. repeat split; [| now rewrite Hlen].
    intros [Hy | Hin]; [congruence | contradiction].
Qed.

Lemma index_none x l : Py.index x l = None -> ~ In x l.
Proof.
  induction l as [| y l IH]; intros H; simpl in H; [tauto |].
  destruct (String.eqb y x) eqn:E; [discriminate |].
  apply String.eqb_neq in E.
  destruct (Py.index x l); [discriminate |].
  intros [Hy | Hin]; [congruence | now apply IH].
Qed.

(** The id is the segment after the first [attachments], and [unknown]
    when there is no such segment or nothing after it. *)
Lemma attachment_id_spec parts :
  (exists pre x post,
      parts = pre ++ "attachments" :: x :: post /\
      ~ In "attachments" pre /\ attachment_id parts = x) \/
  ((~ In "attachments" parts \/
    exists pre, parts = pre ++ ["attachments"] /\ ~ In "attachments" pre) /\
   attachment_id parts = "unknown").
Proof.
  unfold attachment_id.
  destruct (Py.index "attachments" parts) as [i |] eqn:E.
  - destruct (index_first _ _ _ E) as (pre & post & -> & Hpre & Hlen).
    subst i. rewrite lookup_app_r by lia.
    replace (length pre + 1 - length pre)%nat with 1%nat by lia.
    destruct post as [| x post]; simpl.
    + right. split; [| reflexivity]. right. now exists pre.
    + left. now exists pre, x, post.
  - right. split; [| reflexivity]. left. now apply index_none.
Qed.

Section AttachmentId.

Variable ok : string -> bool.

(** For every attachment URL that [urlparse] accepts, the attachment id is
    the segment of the URL path right after the first segment
    [attachments]; when there is no such segment, or no segment after it,
    the id is [unknown]; computing it raises nothing and changes nothing. *)
Theorem attachment_id_after_attachments_segment url r w :
  Url.urlparse ok url = Some r ->
  let parts := Py.split "/" (Url.path r) in
  url_path_parts ok url w = (Ok parts, w) /\
  exists id,
    attachment_id_of parts w = (Ok id, w) /\
    ((exists pre x post,
         parts = pre ++ "attachments" :: x :: post /\
         ~ In "attachments" pre /\ id = x) \/
     ((~ In "attachments" parts \/
       exists pre, parts = pre ++ ["attachments"] /\ ~ In "attachments" pre) /\
      id = "unknown")).
Proof.
  intros H parts. split.
  - unfold url_path_parts. now rewrite H.
  - exists (attachment_id parts). split; [apply attachment_id_of_run |].
    apply attachment_id_spec.
Qed.

End AttachmentId.

Lemma attachment_id_after_attachments_segment_witness :
  Url.urlparse Examples.no_bracket_check Examples.photo_url
  = Some (Url.mk "https" "trello.com" "/1/cards/abc/attachments/XYZ/photo.png") /\
  forall w,
    attachment_id_of ["" ; "1"; "cards"; "abc"; "attachments"; "XYZ"; "photo.png"] w
    = (Ok "XYZ", w).
Proof.
  split; [reflexivity |]. intros w.
  destruct (attachment_id_after_attachments_segment Examples.no_bracket_check
              Examples.photo_url
              (Url.mk "https" "trello.com" "/1/cards/abc/attachments/XYZ/photo.png")
              w eq_refl)
    as (_ & id & Hrun & _).
  rewrite attachment_id_of_run in Hrun. inversion Hrun as [Hid].
  apply attachment_id_of_run.
Defined.

(** C8 (the code departs from it).  The try block of lines 160-164 turns a
    missing [attachments] segment into the id [unknown], but [urlparse] on
    line 159 stands before it: this URL is classified native, has no
    [attachments] segment, and [urlparse] rejects it for the unmatched
    bracket in its network location.  The ValueError ends the export of
    the board and the run: no JSON file is written and the next board is
    not started. *)
Theorem unmatched_bracket_url_aborts_export :
  let data := mk_board_data [] [Examples.card_with [Examples.bracket]] in
  let w := Examples.start Examples.old_dirs
             (Examples.site (Reply (Examples.ok_json (JBoard data)))
                            (Reply (Examples.ok_json (JBoard Examples.data_b)))
                            (Reply (Examples.ok_file ["png"]))) in
  let r := main Examples.no_bracket_check 5 w in
  is_trello_card_image Examples.bracket = true /\
  Py.contains "attachments" Examples.bracket_url = false /\
  fst r = Raise ValueError /\
  started (log (snd r)) = [("Board A", "idA")] /\
  finished (log (snd r)) = [].
Proof. vm_compute. repeat split; reflexivity. Qed.

(** ** The classifier *)

Lemma prefix_spec sub : forall s,
  String.prefix sub s = true <-> exists b, s = sub +:+ b.
Proof.
  induction sub as [| c sub IH]; intros s.
  - split; [intros _; exists s; reflexivity | intros _; now destruct s].
  - destruct s as [| d s]; simpl.
    + split; [discriminate | intros (b & Hb); discriminate Hb].
    + destruct (ascii_dec c d) as [-> | Hne].
      * rewrite IH. split; intros (b & Hb); exists b.
        -- now rewrite Hb.
        -- now inversion Hb.
      * split; [discriminate | intros (b & Hb); inversion Hb; congruence].
Qed.

(** [sub in s] holds exactly when [s] is some text, [sub], some text. *)
Lemma contains_spec sub : forall s,
  Py.contains sub s = true <-> exists a b, s = a +:+ sub +:+ b.
Proof.
  induction s as [| c s IH].
  - change (Py.contains sub "") with (String.prefix sub "" || false).
    rewrite orb_false_r, prefix_spec. split.
    + intros (b & Hb). exists "", b. exact Hb.
    + intros (a & b & H). destruct a; [now exists b | discriminate H].
  - change (Py.contains sub (String c s))
      with (String.prefix sub (String c s) || Py.contains sub s).
    rewrite orb_true_iff, prefix_spec, IH. split.
    + intros [(b & Hb) | (a & b & Hab)].
      * exists "", b. exact Hb.
      * exists (String c a), b. simpl. now rewrite Hab.
    + intros (a & b & H). destruct a as [| d a].
      * left. now exists b.
      * right. simpl in H. inversion H; subst. now exists a, b.
Qed.

Lemma record_all_keeps x paths : forall card,
  In x (default [] (c_local_attachments card)) ->
  In x (default [] (c_local_attachments (record_all paths card))).
Proof.
  induction paths as [| p ps IH]; intros card H; [exact H |].
  simpl. apply IH. simpl. apply in_or_app. now left.
Qed.

Section Classifier.

Variable ok : string -> bool.

(** C5, as amended.  The classifier marks an attachment native exactly
    when its URL is not empty and contains the text [trello.com] and the
    text [/cards/], wherever they stand in the URL (host, path or query).
    So [https://example.com/file.pdf] is foreign.  For a card of the list
    [DEBUG_BOARD_ID], when its processing returns, the URL of every
    foreign attachment stands in the card's [local_attachments] as it is;
    a card of another list is passed over, and nothing is recorded for it.
    Whatever the card and the outcome, every download the processing of a
    card requests is for a URL that contains both texts: the exporter
    never asks for a foreign attachment (the requests the session adds
    when a download is redirected go where the server sends them). *)
Theorem native_iff_url_mentions_trello_cards :
  (forall att,
      is_trello_card_image att = true <->
      exists url,
        att_url att = Some url /\ url <> "" /\
        (exists a b, url = a +:+ "trello.com" +:+ b) /\
        (exists a b, url = a +:+ "/cards/" +:+ b)) /\
  (forall name,
      is_trello_card_image (mk_attachment (Some "https://example.com/file.pdf") name)
      = false) /\
  (forall fuel slug card w card' w',
      c_idList card = Some DEBUG_BOARD_ID ->
      process_card ok fuel (Path.of_string slug) card w = (Ok card', w') ->
      exists atts wa,
        card_attachments fuel card w = (Ok atts, wa) /\
        forall att, In att atts -> is_foreign att = true ->
                    In (get_url att) (default [] (c_local_attachments card'))) /\
  (forall fuel dir card w,
      c_idList card <> Some DEBUG_BOARD_ID ->
      process_card ok fuel dir card w = (Ok card, w)) /\
  (forall fuel dir card w r w',
      process_card ok fuel dir card w = (r, w') ->
      exists evs,
        log w' = log w ++ evs /\
        forall url, In url (downloads evs) ->
                    Py.contains "trello.com" url = true /\
                    Py.contains "/cards/" url = true).
Proof.
  split; [| split; [| split; [| split]]].
  - intros att. unfold is_trello_card_image, get_url.
    rewrite !andb_true_iff, !contains_spec, negb_true_iff, String.eqb_neq.
    split.
    + intros [[Hne Ht] Hc]. destruct (att_url att) as [url |]; [| now elim Hne].
      exists url. auto.
    + intros (url & -> & Hne & Ht & Hc). auto.
  - intros name. reflexivity.
  - intros fuel slug card w card' w' Hlist Hrun.
    apply process_card_ok in Hrun as (atts & wa & paths & Hatts & _ & ->);
      [| exact Hlist].
    exists atts, wa. split; [exact Hatts |].
    intros att Hin Hforeign. apply record_all_keeps.
    assert (Hf : In att (List.filter is_foreign atts))
      by (apply List.filter_In; auto).
    destruct (List.filter is_foreign atts) as [| f fs]; [contradiction |].
    simpl c_local_attachments. simpl default.
    apply (List.in_map get_url) in Hf. exact Hf.
  - intros fuel dir card w Hlist. now apply process_card_skipped.
  - intros fuel dir card w r w' Hrun.
    destruct (emits_process_card ok fuel dir card _ _ _ Hrun) as (evs & L & F).
    exists evs. split; [exact L |].
    clear L Hrun. induction F as [| e evs He _ IH]; [contradiction |].
    intros url Hin. simpl in Hin. apply in_app_or in Hin as [Hin | Hin];
      [| now apply IH].
    destruct e as [q | z | m | q']; try contradiction.
    destruct (req_stream q) eqn:Es; [| contradiction].
    destruct Hin as [<- | []]. simpl in He.
    destruct He as [He | He]; [congruence | exact He].
Qed.

End Classifier.

Lemma native_iff_url_mentions_trello_cards_witness :
  is_trello_card_image Examples.photo = true /\
  exists url, att_url Examples.photo = Some url /\
              exists a b, url = a +:+ "trello.com" +:+ b.
Proof.
  assert (H : is_trello_card_image Examples.photo = true) by reflexivity.
  split; [exact H |].
  destruct (native_iff_url_mentions_trello_cards Examples.no_bracket_check)
    as (Hiff & _).
  destruct (proj1 (Hiff Examples.photo) H) as (url & Hurl & _ & Ht & _).
  exists url. split; [exact Hurl | exact Ht].
Defined.

(** C5 fails as stated: the host of this URL is example.com, outside the
    provider's domain, yet the classifier marks the attachment native,
    because the path mentions trello.com and /cards/; the exporter
    downloads it and records a local path instead of the link. *)
Lemma foreign_host_classified_native :
  let w := set_cwd (Path.of_string "trello_exports")
             (Examples.start Examples.old_dirs Examples.healthy) in
  let r := process_card Examples.no_bracket_check 5 (Path.of_string "Board_A")
             (Examples.card_with [Examples.mirror]) w in
  url_host Examples.mirror_url = "example.com" /\
  in_provider_domain (url_host Examples.mirror_url) = false /\
  spec_is_native Examples.mirror_url = false /\
  is_trello_card_image Examples.mirror = true /\
  downloads (log (snd r)) = [Examples.mirror_url] /\
  (c_local_attachments <$> (match fst r with Ok c => Some c | _ => None end))
  = Some (Some ["Board_A/attachments/abc_unknown/x"]).
Proof. vm_compute. repeat split; reflexivity. Qed.

(** ** The locator *)

Lemma has_char_map_chars x f s :
  (forall c, Ascii.eqb (f c) x = false) -> Py.has_char x (Py.map_chars f s) = false.
Proof.
  intros Hf. induction s as [| c s IH]; [reflexivity |].
  simpl. now rewrite Hf, IH.
Qed.

Lemma has_char_app x a b :
  Py.has_char x (a +:+ b) = Py.has_char x a || Py.has_char x b.
Proof.
  induction a as [| c a IH]; [reflexivity |].
  simpl. now rewrite IH, orb_assoc.
Qed.

Lemma slug_char c x :
  Py.isalnum x = false -> Ascii.eqb x "_" = false ->
  Ascii.eqb (if Py.isalnum c then c else "_"%char) x = false.
Proof.
  intros Hx Hu. destruct (Py.isalnum c) eqn:E; [| now rewrite Ascii.eqb_sym].
  destruct (Ascii.eqb c x) eqn:Ec; [| reflexivity].
  apply Ascii.eqb_eq in Ec. congruence.
Qed.

Lemma safe_char c x :
  Py.isalnum x = false -> Py.has_char x "._-" = false -> Ascii.eqb x "_" = false ->
  Ascii.eqb (if Py.isalnum c || Py.has_char c "._-" then c else "_"%char) x = false.
Proof.
  intros Hx Hd Hu.
  destruct (Py.isalnum c || Py.has_char c "._-") eqn:E; [| now rewrite Ascii.eqb_sym].
  destruct (Ascii.eqb c x) eqn:Ec; [| reflexivity].
  apply Ascii.eqb_eq in Ec. subst c. rewrite Hx, Hd in E. discriminate E.
Qed.

Lemma slug_no_slash n : Py.has_char "/" (slug_of n) = false.
Proof. apply has_char_map_chars. intros c. now apply slug_char. Qed.

Lemma slug_no_dot n : Py.has_char "." (slug_of n) = false.
Proof. apply has_char_map_chars. intros c. now apply slug_char. Qed.

Lemma safe_name_no_slash f : Py.has_char "/" (safe_name_of f) = false.
Proof. apply has_char_map_chars. intros c. now apply safe_char. Qed.

Lemma split_single c s : Py.has_char c s = false -> Py.split c s = [s].
Proof.
  induction s as [| a s IH]; [reflexivity |].
  simpl. intros H. apply orb_false_elim in H as [Ha Hs].
  rewrite Ha, (IH Hs). reflexivity.
Qed.

Lemma split_no_sep c s :
  Forall (fun p => Py.has_char c p = false) (Py.split c s).
Proof.
  induction s as [| a s IH]; simpl; [now repeat constructor |].
  destruct (Ascii.eqb a c) eqn:E; [now constructor |].
  destruct (Py.split c s) as [| p ps].
  - repeat constructor. simpl. now rewrite E.
  - inversion IH; subst. constructor; [| assumption]. simpl. now rewrite E.
Qed.

Lemma attachment_id_no_slash path :
  Py.has_char "/" (attachment_id (Py.split "/" path)) = false.
Proof.
  unfold attachment_id.
  destruct (Py.index "attachments" (Py.split "/" path)) as [i |]; [| reflexivity].
  destruct (Py.split "/" path !! (i + 1)%nat) as [x |] eqn:E; [| reflexivity].
  simpl. pose proof (split_no_sep "/" path) as H.
  rewrite List.Forall_forall in H. apply H.
  apply list_elem_of_In. eapply list_elem_of_lookup_2. exact E.
Qed.

Lemma parse_root_relative s : Py.has_char "/" s = false -> Path.parse_root s = "".
Proof.
  destruct s as [| c s]; [reflexivity |].
  simpl Py.has_char. intros H. apply orb_false_elim in H as [Hc _].
  destruct c as [[] [] [] [] [] [] [] []]; try reflexivity; discriminate Hc.
Qed.

(** A single component parses to itself. *)
Lemma of_string_component s :
  Py.has_char "/" s = false -> s <> "" -> s <> "." ->
  Path.of_string s = Path.mk "" [s].
Proof.
  intros Hs He Hd. unfold Path.of_string.
  rewrite parse_root_relative, split_single by exact Hs.
  simpl. unfold Path.keep.
  apply String.eqb_neq in He, Hd. now rewrite He, Hd.
Qed.

Lemma join_component p s :
  Py.has_char "/" s = false -> s <> "" -> s <> "." ->
  p </> s = Path.mk (Path.root p) (Path.parts p ++ [s]).
Proof.
  intros Hs He Hd. unfold Path.join. now rewrite of_string_component.
Qed.

Lemma get_map_chars f s : forall i,
  String.get i (Py.map_chars f s) = f <$> String.get i s.
Proof.
  induction s as [| c s IH]; intros i; [reflexivity |].
  destruct i; simpl; [reflexivity | apply IH].
Qed.

Lemma length_map_chars f s : String.length (Py.map_chars f s) = String.length s.
Proof. induction s as [| c s IH]; simpl; [reflexivity | now rewrite IH]. Qed.

Lemma append_assoc (a b c : string) : (a +:+ b) +:+ c = a +:+ (b +:+ c).
Proof.
  induction a as [| x a IH]; [reflexivity |].
  change (String x ((a +:+ b) +:+ c) = String x (a +:+ (b +:+ c))).
  now rewrite IH.
Qed.

(** The path of the locator, when nothing is there for pathlib to
    normalise. *)
Lemma local_path_plain board_name card_id attachment_id safe_name :
  board_name <> "" ->
  Py.has_char "/" card_id = false ->
  Py.has_char "/" attachment_id = false ->
  Py.has_char "/" safe_name = false ->
  safe_name <> "" -> safe_name <> "." ->
  local_path (slug_of board_name) card_id attachment_id safe_name =
  slug_of board_name +:+ "/attachments/" +:+ card_id +:+ "_" +:+ attachment_id
    +:+ "/" +:+ safe_name.
Proof.
  intros Hname Hcard Hatt Hsafe Hne Hnd. unfold local_path.
  assert (Hslug : Path.of_string (slug_of board_name) = Path.mk "" [slug_of board_name]).
  { apply of_string_component; [apply slug_no_slash | |].
    - destruct board_name; [congruence | discriminate].
    - intros H. pose proof (slug_no_dot board_name) as Hd.
      rewrite H in Hd. discriminate Hd. }
  rewrite Hslug.
  rewrite (join_component _ "attachments") by (try reflexivity; discriminate).
  rewrite (join_component _ (card_id +:+ "_" +:+ attachment_id)).
  - rewrite (join_component _ safe_name) by assumption.
    change (slug_of board_name +:+ "/attachments/"
              +:+ ((card_id +:+ "_" +:+ attachment_id) +:+ "/" +:+ safe_name)
            = slug_of board_name +:+ "/attachments/" +:+ card_id +:+ "_"
              +:+ attachment_id +:+ "/" +:+ safe_name).
    rewrite (append_assoc card_id). reflexivity.
  - rewrite !has_char_app, Hcard, Hatt. reflexivity.
  - destruct card_id; discriminate.
  - destruct card_id as [| c card_id]; [discriminate |].
    simpl. intros H. inversion H as [[Hc Hrest]].
    destruct card_id; discriminate Hrest.
Qed.

Section Locator.

Variable ok : string -> bool.

(** C6, as amended.  The path recorded for a native attachment is
    [local_path] of the board slug, the card id, the attachment id and the
    sanitized name: a function of these four and of nothing else (same
    inputs, same path).  The sanitized name has the length of the file name
    and replaces exactly the characters that are not alphanumeric, [.], [_]
    or [-] by [_].  The path is the text
    <board-slug>/attachments/<card-id>_<attachment-id>/<sanitized-name>
    whenever the board name is not empty, the card id contains no [/] and
    the sanitized name is neither empty nor [.]; otherwise pathlib
    normalises it. *)
Theorem local_path_of_four_inputs :
  (forall slug card_id att card w card' w',
      download_attachment ok (Path.of_string slug </> "attachments")
        card_id att card w = (Ok card', w') ->
      exists url r,
        att_url att = Some url /\ Url.urlparse ok url = Some r /\
        let path_parts := Py.split "/" (Url.path r) in
        card' = append_local
                  (local_path slug card_id (attachment_id path_parts)
                     (safe_name_of (filename_of att path_parts))) card) /\
  (forall filename,
      String.length (safe_name_of filename) = String.length filename /\
      forall i c,
        String.get i filename = Some c ->
        String.get i (safe_name_of filename) =
        Some (if Py.isalnum c || Py.has_char c "._-" then c else "_"%char)) /\
  (forall board_name card_id path filename,
      board_name <> "" ->
      Py.has_char "/" card_id = false ->
      safe_name_of filename <> "" ->
      safe_name_of filename <> "." ->
      local_path (slug_of board_name) card_id
        (attachment_id (Py.split "/" path)) (safe_name_of filename) =
      slug_of board_name +:+ "/attachments/" +:+ card_id +:+ "_"
        +:+ attachment_id (Py.split "/" path) +:+ "/" +:+ safe_name_of filename).
Proof.
  split; [| split].
  - intros slug card_id att card w card' w' H.
    apply (download_attachment_ok ok) in H as (p & Hp & ->).
    unfold recorded_path in Hp.
    destruct (att_url att) as [url |] eqn:Eu; [| discriminate Hp].
    destruct (Url.urlparse ok url) as [r |] eqn:Er; [| discriminate Hp].
    exists url, r. inversion Hp; subst.
    split; [reflexivity | split; [exact Er | reflexivity]].
  - intros filename. split; [apply length_map_chars |].
    intros i c Hc. unfold safe_name_of. rewrite get_map_chars, Hc. reflexivity.
  - intros board_name card_id path filename Hname Hcard Hne Hnd.
    apply local_path_plain; auto using attachment_id_no_slash, safe_name_no_slash.
Qed.

End Locator.

Lemma local_path_of_four_inputs_witness :
  "Board A" <> "" /\
  local_path (slug_of "Board A") "abc"
    (attachment_id (Py.split "/" "/1/cards/abc/attachments/XYZ/photo.png"))
    (safe_name_of "my photo.png")
  = "Board_A/attachments/abc_XYZ/my_photo.png".
Proof.
  split; [discriminate |].
  destruct (local_path_of_four_inputs Examples.no_bracket_check) as (_ & _ & H).
  rewrite (H "Board A" "abc" "/1/cards/abc/attachments/XYZ/photo.png" "my photo.png");
    [reflexivity | discriminate | reflexivity | discriminate | discriminate].
Defined.

(** C6 fails as stated: for an attachment the user named ".", the
    sanitized name is "." and the recorded path is the attachment's
    directory, not <slug>/attachments/<card>_<id>/<sanitized-name>. *)
Lemma dot_name_path_is_the_directory :
  let w := set_cwd (Path.of_string "trello_exports")
             (Examples.start Examples.old_dirs Examples.healthy) in
  let r := process_card Examples.no_bracket_check 5 (Path.of_string (slug_of "Board A"))
             (Examples.card_with [Examples.dot]) w in
  safe_name_of "." = "." /\
  (c_local_attachments <$> (match fst r with Ok c => Some c | _ => None end))
  = Some (Some ["Board_A/attachments/abc_XYZ"]) /\
  "Board_A/attachments/abc_XYZ" <>
  slug_of "Board A" +:+ "/attachments/" +:+ "abc" +:+ "_" +:+ "XYZ"
    +:+ "/" +:+ safe_name_of ".".
Proof. vm_compute. repeat split; try reflexivity. discriminate. Qed.

(** * Further properties *)

(** ** The fetcher: answers other than 429, endless 429, bad Retry-After *)

(** An answer with a status other than 429 that is handed to the program
    is never retried: after the one request, a status from 400 to 599
    raises HTTPError, any other status has its body decoded as JSON.  A
    request without an answer raises ConnectionError.  A redirection is
    not handed to the program: the session sends one more request, to the
    address of the redirection and with nothing but that address, and the
    answer to that request is treated in the same way. *)
Theorem trello_get_single_request fuel endpoint params w :
  let req := mk_request (API_BASE_URL w +:+ endpoint) params false in
  let w1 := count_request (add_event (EvGet req) w) in
  (forall resp,
      server w (nreq w) req = Reply resp ->
      redirection resp = false ->
      status resp <> 429 ->
      trello_get (S fuel) endpoint params w = (decoded resp, w1)) /\
  (server w (nreq w) req = NoReply ->
   trello_get (S fuel) endpoint params w = (Raise ConnectionError, w1)) /\
  (forall url resp,
      server w (nreq w) req = Redirect url ->
      let req2 := mk_request url [] false in
      server w (S (nreq w)) req2 = Reply resp ->
      redirection resp = false ->
      status resp <> 429 ->
      trello_get (S fuel) endpoint params w
      = (decoded resp, count_request (add_event (EvFollow req2) w1))).
Proof.
  intros req w1.
  assert (Hdecode : forall resp v,
            status resp <> 429 ->
            (if status resp =? 429
             then let* seconds := retry_after resp in
                  time_sleep seconds >> trello_get fuel endpoint params
             else raise_for_status resp >> resp_json resp) v = (decoded resp, v)).
  { intros resp v Hnot.
    destruct (status resp =? 429) eqn:E; [apply Z.eqb_eq in E; contradiction |].
    unfold bind, raise_for_status, resp_json, decoded.
    destruct ((400 <=? status resp) && (status resp <? 600)); [reflexivity |].
    simpl. destruct (body resp); reflexivity. }
  split; [| split].
  - intros resp Hreply _ Hnot. rewrite trello_get_unfold. fold req.
    unfold bind at 1. rewrite (sess_get_reply _ _ _ Hreply). fold w1.
    now apply Hdecode.
  - intros Hreply. rewrite trello_get_unfold. fold req.
    unfold bind at 1. rewrite (sess_get_no_reply _ _ Hreply). reflexivity.
  - intros url resp Hredirect req2 Hreply _ Hnot. rewrite trello_get_unfold. fold req.
    unfold bind at 1. rewrite (sess_get_redirect _ _ _ Hredirect). fold w1.
    rewrite follow_unfold. cbv zeta.
    change (server w1 (nreq w1) (mk_request url [] (req_stream req)))
      with (server w (S (nreq w)) req2).
    rewrite Hreply. now apply Hdecode.
Qed.

(** The boards are listed at a new address. *)
Lemma trello_get_single_request_witness :
  let moved := "https://api.trello.com/2/members/me/boards" in
  let srv := fun (n : nat) (r : request) =>
               if String.eqb (req_url r) moved
               then Reply (Examples.ok_json (JBoards [Examples.board_old]))
               else Redirect moved in
  let w := Examples.start Examples.old_dirs srv in
  let r := trello_get 1 "/members/me/boards" [] w in
  fst r = Ok (JBoards [Examples.board_old]) /\
  log (snd r) = [EvGet (mk_request (Examples.api +:+ "/members/me/boards") [] false);
                 EvFollow (mk_request moved [] false)].
Proof.
  intros moved srv w r.
  destruct (trello_get_single_request 0 "/members/me/boards" [] w) as (_ & _ & H).
  specialize (H moved (Examples.ok_json (JBoards [Examples.board_old]))
                eq_refl eq_refl eq_refl ltac:(discriminate)).
  subst r. rewrite H. split; reflexivity.
Defined.


(** The fetcher has no bound of its own on the retries: against a server
    that answers every request with 429 and a delay that can be slept
    (none given, or a number of seconds from 0 to [long_delay]), a call
    with recursion depth [fuel] issues [fuel] requests, each followed by a
    sleep, and is still not done. *)
Theorem trello_get_retries_without_bound fuel : forall endpoint params w,
  (forall n r, busy_reply (server w n r)) ->
  exists evs,
    trello_get fuel endpoint params w
    = (OutOfFuel,
       mk_world (fs w) (cwd w) (server w) (nreq w + fuel) (log w ++ evs)
                (API_BASE_URL w)) /\
    requests evs
    = List.repeat (mk_request (API_BASE_URL w +:+ endpoint) params false) fuel /\
    length (sleeps evs) = fuel.
Proof.
  induction fuel as [| fuel IH]; intros endpoint params w Hbusy.
  - exists []. simpl. rewrite Nat.add_0_r, app_nil_r. destruct w; auto.
  - set (req := mk_request (API_BASE_URL w +:+ endpoint) params false).
    destruct (Hbusy (nreq w) req) as (resp & Hreply & H429 & Hhdr).
    assert (Hz : exists z, retry_after resp = ret z /\ 0 <= z <= sleep_bound).
    { unfold retry_after. destruct Hhdr as [-> | (s & z & -> & -> & Hz)].
      - exists 3. split; [reflexivity | unfold sleep_bound; lia].
      - exists z. split; [reflexivity |]. unfold long_delay, sleep_bound in *. lia. }
    destruct Hz as (z & Hra & Hz).
    set (w1 := add_event (EvSleep z) (count_request (add_event (EvGet req) w))).
    assert (Hstep : trello_get (S fuel) endpoint params w
                    = trello_get fuel endpoint params w1).
    { rewrite trello_get_unfold. fold req.
      unfold bind at 1. rewrite (sess_get_reply _ _ _ Hreply), H429. simpl Z.eqb. cbv iota.
      rewrite Hra. unfold bind at 1. unfold ret. unfold bind at 1.
      unfold time_sleep.
      destruct (z <? - sleep_bound) eqn:E1; [lia |].
      destruct (sleep_bound <? z) eqn:E2; [lia |].
      destruct (z <? 0) eqn:E; [lia |]. reflexivity. }
    destruct (IH endpoint params w1 Hbusy) as (evs & Hrun & Hreq & Hsl).
    exists (EvGet req :: EvSleep z :: evs).
    rewrite Hstep, Hrun. split; [| split].
    + unfold w1. simpl. f_equal. f_equal; [lia |].
      rewrite <- !app_assoc. reflexivity.
    + simpl. now rewrite Hreq.
    + simpl. now rewrite Hsl.
Qed.

Lemma trello_get_retries_without_bound_witness :
  let w := Examples.start Examples.old_dirs
             (fun _ _ => Reply (Examples.rate_limited (Some "2"))) in
  fst (trello_get 7 "/members/me/boards" [] w) = OutOfFuel /\
  nreq (snd (trello_get 7 "/members/me/boards" [] w)) = 7%nat.
Proof.
  intros w.
  destruct (trello_get_retries_without_bound 7 "/members/me/boards" [] w)
    as (evs & Hrun & _).
  { intros n r. exists (Examples.rate_limited (Some "2")).
    split; [reflexivity |]. split; [reflexivity |]. right.
    exists "2", 2. split; [reflexivity |]. split; [reflexivity |].
    unfold long_delay. lia. }
  rewrite Hrun. split; reflexivity.
Defined.



(** ** The downloader: errors, what is written, broken streams *)

Lemma download_file_absent url dest w :
  lookup_path dest w = None ->
  download_file url dest w =
  (let* resp := sess_get (mk_request url [] true) in
   raise_for_status resp >>
   write_file dest (Bytes (chunks resp)) >>
   if stream_ok resp then ret tt else raise ConnectionError) w.
Proof.
  intros H. unfold download_file. unfold bind at 1.
  unfold path_exists, stat, bind, ret. now rewrite H.
Qed.

(** A download answered with a status from 400 to 599 - 429 included,
    which only the fetcher retries - raises HTTPError after the one
    request and creates no file. *)
Theorem download_file_http_error url dest w resp :
  lookup_path dest w = None ->
  server w (nreq w) (mk_request url [] true) = Reply resp ->
  400 <= status resp < 600 ->
  download_file url dest w
  = (Raise (HTTPError (status resp)),
     count_request (add_event (EvGet (mk_request url [] true)) w)) /\
  fs (snd (download_file url dest w)) = fs w.
Proof.
  intros Habs Hreply Hst.
  assert (H : download_file url dest w
              = (Raise (HTTPError (status resp)),
                 count_request (add_event (EvGet (mk_request url [] true)) w))).
  { rewrite download_file_absent by exact Habs.
    unfold bind at 1. rewrite (sess_get_reply _ _ _ Hreply).
    unfold bind, raise_for_status.
    destruct ((400 <=? status resp) && (status resp <? 600)) eqn:E; [reflexivity |].
    apply andb_false_iff in E as [E | E]; lia. }
  split; [exact H | now rewrite H].
Qed.

Lemma download_file_http_error_witness :
  let w := set_cwd (Path.of_string "trello_exports")
             (Examples.start Examples.old_dirs
                (fun _ _ => Reply (Examples.rate_limited (Some "2")))) in
  let dest := Path.of_string "Board_A" </> "photo.png" in
  fst (download_file Examples.photo_url dest w) = Raise (HTTPError 429) /\
  fs (snd (download_file Examples.photo_url dest w)) = fs w.
Proof.
  intros w dest.
  destruct (download_file_http_error Examples.photo_url dest w
              (Examples.rate_limited (Some "2")))
    as [H1 H2]; [reflexivity | reflexivity | simpl; lia |].
  rewrite H1 in *. split; [reflexivity | exact H2].
Defined.

(** What [download_file] does with the answer the session hands over. *)
Lemma download_file_writes url dest w resp w1 :
  lookup_path dest w = None ->
  lookup_path (Path.parent dest) w = Some Dir ->
  sess_get (mk_request url [] true) w = (Ok resp, w1) ->
  ~ (400 <= status resp < 600) ->
  stream_ok resp = true ->
  exists w',
    download_file url dest w = (Ok tt, w') /\
    fs w' = <[Path.to_string (resolve dest w) := File (Bytes (chunks resp))]> (fs w) /\
    lookup_path dest w' = Some (File (Bytes (chunks resp))) /\
    log w' = log w1.
Proof.
  intros Habs Hpar Hget Hst Hok.
  rewrite download_file_absent by exact Habs.
  unfold bind at 1. rewrite Hget.
  destruct (sess_get_keeps_files _ _ _ _ Hget) as [F1 C1].
  unfold bind at 1. unfold raise_for_status.
  destruct ((400 <=? status resp) && (status resp <? 600)) eqn:E;
    [apply andb_true_iff in E as [E1 E2]; exfalso; apply Hst; lia |].
  unfold ret at 1. unfold bind at 1. unfold write_file, stat, bind.
  rewrite (lookup_path_same dest w w1 F1 C1), Habs.
  rewrite (lookup_path_same (Path.parent dest) w w1 F1 C1), Hpar.
  unfold put_node, modify. rewrite Hok.
  eexists. split; [reflexivity |].
  unfold lookup_path, resolve in *. simpl. rewrite C1, F1.
  split; [reflexivity |]. split; [| reflexivity].
  destruct (Path.is_anchor (Path.append (cwd w) dest)); [discriminate Habs |].
  apply lookup_insert_eq.
Qed.

(** A download into an existing directory whose answer, with a status
    outside 400-599 and a stream that ends well, is handed to the program
    returns after the one request and leaves at the destination a file
    with exactly the chunks received; nothing else in the file system
    changes.  When the answer is a redirection, the session sends one more
    streamed request, to the address of the redirection, and it is the
    answer to that request whose chunks the file holds. *)
Theorem download_file_writes_chunks url dest w :
  let req := mk_request url [] true in
  lookup_path dest w = None ->
  lookup_path (Path.parent dest) w = Some Dir ->
  (forall resp,
      server w (nreq w) req = Reply resp ->
      redirection resp = false ->
      ~ (400 <= status resp < 600) ->
      stream_ok resp = true ->
      exists w',
        download_file url dest w = (Ok tt, w') /\
        fs w' = <[Path.to_string (resolve dest w) := File (Bytes (chunks resp))]> (fs w) /\
        lookup_path dest w' = Some (File (Bytes (chunks resp))) /\
        log w' = log w ++ [EvGet req]) /\
  (forall url2 resp,
      server w (nreq w) req = Redirect url2 ->
      server w (S (nreq w)) (mk_request url2 [] true) = Reply resp ->
      redirection resp = false ->
      ~ (400 <= status resp < 600) ->
      stream_ok resp = true ->
      exists w',
        download_file url dest w = (Ok tt, w') /\
        fs w' = <[Path.to_string (resolve dest w) := File (Bytes (chunks resp))]> (fs w) /\
        lookup_path dest w' = Some (File (Bytes (chunks resp))) /\
        log w' = log w ++ [EvGet req; EvFollow (mk_request url2 [] true)]).
Proof.
  intros req Habs Hpar. split.
  - intros resp Hreply _ Hst Hok.
    destruct (download_file_writes url dest w resp _ Habs Hpar
                (sess_get_reply _ _ _ Hreply) Hst Hok) as (w' & H1 & H2 & H3 & H4).
    exists w'. repeat split; assumption.
  - intros url2 resp Hredirect Hreply _ Hst Hok.
    assert (Hget : sess_get req w
                   = (Ok resp,
                      count_request (add_event (EvFollow (mk_request url2 [] true))
                        (count_request (add_event (EvGet req) w))))).
    { rewrite (sess_get_redirect _ _ _ Hredirect), follow_unfold. cbv zeta.
      change (server _ _ _) with (server w (S (nreq w)) (mk_request url2 [] true)).
      now rewrite Hreply. }
    destruct (download_file_writes url dest w resp _ Habs Hpar Hget Hst Hok)
      as (w' & H1 & H2 & H3 & H4).
    exists w'. repeat split; try assumption.
    rewrite H4. simpl. now rewrite <- app_assoc.
Qed.

(** The photo is served from another address. *)
Lemma download_file_writes_chunks_witness :
  let store := "https://files.example.net/photo.png" in
  let srv := fun (n : nat) (r : request) =>
               if String.eqb (req_url r) store
               then Reply (Examples.ok_file ["png"]) else Redirect store in
  let w := set_cwd (Path.of_string "trello_exports")
             (Examples.start Examples.old_dirs srv) in
  let dest := Path.of_string "Board_A" </> "photo.png" in
  exists w',
    download_file Examples.photo_url dest w = (Ok tt, w') /\
    fs w' !! "trello_exports/Board_A/photo.png" = Some (File (Bytes ["png"])) /\
    log w' = [EvGet (mk_request Examples.photo_url [] true);
              EvFollow (mk_request store [] true)].
Proof.
  intros store srv w dest.
  destruct (download_file_writes_chunks Examples.photo_url dest w eq_refl eq_refl)
    as [_ H].
  destruct (H store (Examples.ok_file ["png"]) eq_refl eq_refl eq_refl
              ltac:(simpl; lia) eq_refl)
    as (w' & Hrun & Hfs & _ & Hlog).
  exists w'. split; [exact Hrun |]. split; [| exact Hlog].
  rewrite Hfs. apply lookup_insert_eq.
Defined.

(** When the stream of a download breaks, the call raises, but the file
    with the chunks received so far stays; as the downloader skips what
    exists, no later call fetches the attachment again. *)
Theorem download_file_keeps_partial_file url dest w resp :
  lookup_path dest w = None ->
  lookup_path (Path.parent dest) w = Some Dir ->
  server w (nreq w) (mk_request url [] true) = Reply resp ->
  ~ (400 <= status resp < 600) ->
  stream_ok resp = false ->
  exists w',
    download_file url dest w = (Raise ConnectionError, w') /\
    lookup_path dest w' = Some (File (Bytes (chunks resp))) /\
    forall srv,
      let w'' := mk_world (fs w') (cwd w') srv (nreq w') (log w') (API_BASE_URL w') in
      download_file url dest w'' = (Ok tt, w'').
Proof.
  intros Habs Hpar Hreply Hst Hbad.
  rewrite download_file_absent by exact Habs.
  unfold bind at 1. rewrite (sess_get_reply _ _ _ Hreply).
  set (w1 := count_request (add_event (EvGet (mk_request url [] true)) w)).
  unfold bind at 1. unfold raise_for_status.
  destruct ((400 <=? status resp) && (status resp <? 600)) eqn:E;
    [apply andb_true_iff in E as [E1 E2]; exfalso; apply Hst; lia |].
  unfold ret at 1. unfold bind at 1. unfold write_file, stat, bind.
  change (lookup_path dest w1) with (lookup_path dest w). rewrite Habs.
  change (lookup_path (Path.parent dest) w1) with (lookup_path (Path.parent dest) w).
  rewrite Hpar. unfold put_node, modify. rewrite Hbad.
  eexists. split; [reflexivity |].
  assert (Hlook : forall v,
            cwd v = cwd w ->
            fs v = <[Path.to_string (resolve dest w) := File (Bytes (chunks resp))]> (fs w) ->
            lookup_path dest v = Some (File (Bytes (chunks resp)))).
  { intros v Hc Hf. unfold lookup_path, resolve in *. rewrite Hc, Hf.
    destruct (Path.is_anchor (Path.append (cwd w) dest)); [discriminate Habs |].
    apply lookup_insert_eq. }
  split; [apply Hlook; reflexivity |].
  intros srv. cbv zeta. apply download_file_present.
  rewrite Hlook by reflexivity. discriminate.
Qed.

Lemma download_file_keeps_partial_file_witness :
  let w := set_cwd (Path.of_string "trello_exports")
             (Examples.start Examples.old_dirs
                (fun _ _ => Reply (mk_response 200 [] None ["pn"] false))) in
  let dest := Path.of_string "Board_A" </> "photo.png" in
  exists w',
    download_file Examples.photo_url dest w = (Raise ConnectionError, w') /\
    lookup_path dest w' = Some (File (Bytes ["pn"])).
Proof.
  intros w dest.
  destruct (download_file_keeps_partial_file Examples.photo_url dest w
              (mk_response 200 [] None ["pn"] false))
    as (w' & Hrun & Hfile & _);
    [reflexivity | reflexivity | reflexivity | simpl; lia | reflexivity |].
  exists w'. split; [exact Hrun | exact Hfile].
Defined.

(** ** One board: the JSON document and the board directory *)

Lemma write_file_ok p c w w' :
  write_file p c w = (Ok tt, w') ->
  lookup_path p w' = Some (File c) /\ log w' = log w /\ cwd w' = cwd w.
Proof.
  unfold write_file, stat, bind. intros H.
  assert (Hput : forall v, cwd v = cwd w -> log v = log w ->
                           put_node p (File c) v = (Ok tt, w') ->
                           Path.is_anchor (resolve p v) = false ->
                           lookup_path p w' = Some (File c) /\ log w' = log w /\ cwd w' = cwd w).
  { intros v Hc Hl Hv Ha. inversion Hv; subst. unfold lookup_path, resolve in *. simpl.
    rewrite Ha. rewrite lookup_insert_eq. auto. }
  assert (Ha : lookup_path p w <> Some Dir -> Path.is_anchor (resolve p w) = false).
  { unfold lookup_path. destruct (Path.is_anchor (resolve p w)); congruence. }
  destruct (lookup_path p w) as [[| c0] |] eqn:E;
    try discriminate H;
    destruct (lookup_path (Path.parent p) w) as [[| c1] |];
    try discriminate H; eapply Hput; eauto; apply Ha; discriminate.
Qed.

Lemma json_name_component slug board_id :
  Py.has_char "/" slug = false -> Py.has_char "/" board_id = false ->
  let name := "board_" +:+ slug +:+ "_" +:+ board_id +:+ ".json" in
  Py.has_char "/" name = false /\ name <> "" /\ name <> ".".
Proof.
  intros Hs Hb name. unfold name. split; [| split; discriminate].
  rewrite !has_char_app, Hs, Hb. reflexivity.
Qed.

Lemma slug_component n :
  n <> "" -> Path.of_string (slug_of n) = Path.mk "" [slug_of n].
Proof.
  intros Hn. apply of_string_component; [apply slug_no_slash | |].
  - destruct n; [congruence | discriminate].
  - intros H. pose proof (slug_no_dot n) as Hd. rewrite H in Hd. discriminate Hd.
Qed.

Section BoardFiles.

Variable ok : string -> bool.

Lemma process_cards_skipped fuel dir cards w :
  Forall (fun c => c_idList c <> Some DEBUG_BOARD_ID) cards ->
  process_cards ok fuel dir cards w = (Ok cards, w).
Proof.
  induction 1 as [| c cards Hc _ IH]; [reflexivity |].
  simpl. unfold bind at 1. rewrite (process_card_skipped ok fuel dir c w Hc).
  unfold bind at 1. now rewrite IH.
Qed.

(** [export_board] never creates the directory of the board itself: only
    a download creates it, on the way to its attachments directory.  So
    for a board none of whose cards is in the list [DEBUG_BOARD_ID] (no
    card at all, for one), when the directory of the board does not exist
    yet, the export fetches the payload and then fails with
    FileNotFoundError on opening the JSON file; nothing is written. *)
Theorem export_board_needs_board_directory fuel b w data w1 :
  b_name b <> "" ->
  Py.has_char "/" (b_id b) = false ->
  trello_get fuel ("/boards/" +:+ b_id b) board_params
    (add_event (EvPrint (MsgExporting (b_name b) (b_id b))) w)
    = (Ok (JBoard data), w1) ->
  Forall (fun c => c_idList c <> Some DEBUG_BOARD_ID) (d_cards data) ->
  let board_dir := Path.of_string (slug_of (b_name b)) in
  let out_json :=
    board_dir </> ("board_" +:+ slug_of (b_name b) +:+ "_" +:+ b_id b +:+ ".json") in
  lookup_path board_dir w1 = None ->
  lookup_path out_json w1 = None ->
  export_board ok fuel b w = (Raise FileNotFoundError, w1).
Proof.
  intros Hname Hid Hget Hcards board_dir out_json Hdir Hout.
  unfold export_board. erewrite bind_ok by reflexivity.
  rewrite (bind_ok _ _ _ _ _ Hget).
  change (bind (ret data) ?k w1) with (k data w1). cbv beta.
  erewrite bind_ok by (apply process_cards_skipped; exact Hcards).
  fold board_dir. fold out_json.
  apply bind_raise.
  destruct (json_name_component (slug_of (b_name b)) (b_id b)
              (slug_no_slash _) Hid) as (Hn1 & Hn2 & Hn3).
  assert (Hparent : Path.parent out_json = board_dir).
  { unfold out_json, board_dir. rewrite join_component by assumption.
    rewrite slug_component by exact Hname. reflexivity. }
  unfold write_file, stat, bind. rewrite Hout, Hparent, Hdir. reflexivity.
Qed.

(** When [export_board] returns, the JSON file of the board holds exactly
    the document it returns (which is what the CSV is made from), and the
    name it returns is the name of the board. *)
Theorem export_board_writes_returned_document fuel b w data' name w' :
  export_board ok fuel b w = (Ok (data', name), w') ->
  let out_json :=
    Path.of_string (slug_of (b_name b))
      </> ("board_" +:+ slug_of (b_name b) +:+ "_" +:+ b_id b +:+ ".json") in
  lookup_path out_json w' = Some (File (JsonDoc data')) /\
  name = b_name b /\
  List.last (log w') (EvSleep 0) = EvPrint (MsgWroteJson (Path.to_string out_json)).
Proof.
  intros H out_json. unfold export_board in H.
  apply bind_inv_ok in H as (u & w0 & H0 & H). inversion H0; subst; clear H0.
  apply bind_inv_ok in H as (j & w1 & H1 & H).
  destruct j as [bs | d | atts]; try discriminate H.
  change (bind (ret d) ?k w1) with (k d w1) in H. cbv beta in H.
  apply bind_inv_ok in H as (cs & w2 & H2 & H).
  apply bind_inv_ok in H as ([] & w3 & H3 & H).
  apply bind_inv_ok in H as (u2 & w4 & H4 & H).
  inversion H4; subst; clear H4. inversion H; subst; clear H.
  apply write_file_ok in H3 as (Hfile & _ & _).
  split; [exact Hfile |]. split; [reflexivity |].
  simpl. apply last_last.
Qed.

End BoardFiles.

Lemma export_board_needs_board_directory_witness :
  let w := set_cwd (Path.of_string "trello_exports")
             (Examples.start (<["trello_exports" := Dir]> ∅) Examples.healthy) in
  fst (export_board Examples.no_bracket_check 5 Examples.board_b w)
  = Raise FileNotFoundError.
Proof.
  intros w.
  pose (w1 := snd (trello_get 5 "/boards/idB" board_params
                     (add_event (EvPrint (MsgExporting "Board B" "idB")) w))).
  rewrite (export_board_needs_board_directory Examples.no_bracket_check 5
             Examples.board_b w Examples.data_b w1);
    [reflexivity | discriminate | reflexivity | vm_compute; reflexivity
     | repeat constructor; discriminate | vm_compute; reflexivity
     | vm_compute; reflexivity].
Defined.

Lemma export_board_writes_returned_document_witness :
  let w := set_cwd (Path.of_string "trello_exports")
             (Examples.start Examples.old_dirs Examples.healthy) in
  let r := export_board Examples.no_bracket_check 5 Examples.board_b w in
  fst r = Ok (Examples.data_b, "Board B") /\
  fs (snd r) !! "trello_exports/Board_B/board_Board_B_idB.json"
  = Some (File (JsonDoc Examples.data_b)).
Proof.
  intros w r. split; [vm_compute; reflexivity |].
  destruct (export_board_writes_returned_document Examples.no_bracket_check 5
              Examples.board_b w Examples.data_b "Board B" (snd r))
    as (Hfile & _ & _); [vm_compute; reflexivity |].
  exact Hfile.
Defined.

(** ** One card: links only, no attachments, an absolute card id *)

Section CardCases.

Variable ok : string -> bool.

(** A card of the DEBUG list whose attachments are all foreign costs no
    request and touches no file (the attachments directory is only made
    when needed): its links, if any, are printed and become its
    [local_attachments], replacing what the key held before. *)
Theorem card_with_links_only fuel dir card w :
  c_idList card = Some DEBUG_BOARD_ID ->
  c_attachments card <> [] ->
  List.filter is_trello_card_image (c_attachments card) = [] ->
  process_card ok fuel dir card w =
  match List.filter is_foreign (c_attachments card) with
  | [] => (Ok card, w)
  | foreign =>
      (Ok (set_local (List.map get_url foreign) card),
       add_event (EvPrint (MsgUrls (List.map get_url foreign))) w)
  end.
Proof.
  intros Hlist Hne Hnat. unfold process_card, DEBUG. simpl.
  rewrite bool_decide_eq_true_2 by exact Hlist. simpl.
  assert (Hatts : card_attachments fuel card w = (Ok (c_attachments card), w)).
  { unfold card_attachments. destruct (c_attachments card); [congruence | reflexivity]. }
  rewrite (bind_ok _ _ _ _ _ Hatts). rewrite Hnat. fold is_foreign.
  destruct (List.filter is_foreign (c_attachments card)); reflexivity.
Qed.

(** A card of the DEBUG list that comes without attachments costs one more
    request, to /cards/<id>/attachments.  If that fetch raises, the
    processing of the card raises the same; if it answers the empty list,
    the card stays as it is. *)
Theorem card_without_attachments_is_fetched fuel dir card w :
  c_idList card = Some DEBUG_BOARD_ID ->
  c_attachments card = [] ->
  let endpoint := "/cards/" +:+ c_id card +:+ "/attachments" in
  (exists evs,
     log (snd (process_card ok (S fuel) dir card w)) =
     log w ++ EvGet (mk_request (API_BASE_URL w +:+ endpoint) [] false) :: evs) /\
  (forall e w',
     trello_get fuel endpoint [] w = (Raise e, w') ->
     process_card ok fuel dir card w = (Raise e, w')) /\
  (forall w',
     trello_get fuel endpoint [] w = (Ok (JAttachments []), w') ->
     process_card ok fuel dir card w = (Ok card, w')).
Proof.
  intros Hlist Hnone endpoint.
  assert (Hrun : forall n,
            process_card ok n dir card w =
            (let* atts := (let* j := trello_get n endpoint [] in
                           match j with
                           | JAttachments atts => ret atts
                           | _ => raise AttributeError
                           end) in
             let atts_with_images := List.filter is_trello_card_image atts in
             let atts_with_urls := List.filter is_foreign atts in
             let* card0 :=
               match atts_with_urls with
               | [] => ret card
               | _ => print (MsgUrls (List.map get_url atts_with_urls)) >>
                      ret (set_local (List.map get_url atts_with_urls) card)
               end in
             match atts_with_images with
             | [] => ret card0
             | _ => mkdir true true (dir </> "attachments") >>
                    download_all ok (dir </> "attachments") (c_id card0)
                      atts_with_images card0
             end) w).
  { intros n. unfold process_card, DEBUG. simpl.
    rewrite bool_decide_eq_true_2 by exact Hlist. simpl.
    unfold card_attachments. rewrite Hnone. reflexivity. }
  split; [| split].
  - rewrite Hrun. rewrite bind_assoc.
    destruct (trello_get_first_request fuel endpoint [] w) as (evs & L).
    unfold bind at 1.
    destruct (trello_get (S fuel) endpoint [] w) as [[j | e |] w1] eqn:E;
      simpl in L; [| exists evs; exact L | exists evs; exact L].
    match goal with
    | |- context [snd (?k ?v)] => destruct (k v) as [r w2] eqn:E2
    end.
    assert (Hem : emits (fun _ => True) (process_card ok (S fuel) dir card)).
    { eapply emits_weaken; [| apply emits_process_card]. auto. }
    pose proof (Hrun (S fuel)) as Hr. rewrite bind_assoc in Hr.
    unfold bind at 1 in Hr. rewrite E in Hr. rewrite E2 in Hr.
    assert (Hk : emits (fun _ => True)
                   (fun v => (let* atts := match j with
                                           | JAttachments atts => ret atts
                                           | _ => raise AttributeError
                                           end in
                              let atts_with_images := List.filter is_trello_card_image atts in
                              let atts_with_urls := List.filter is_foreign atts in
                              let* card0 :=
                                match atts_with_urls with
                                | [] => ret card
                                | _ => print (MsgUrls (List.map get_url atts_with_urls)) >>
                                       ret (set_local (List.map get_url atts_with_urls) card)
                                end in
                              match atts_with_images with
                              | [] => ret card0
                              | _ => mkdir true true (dir </> "attachments") >>
                                     download_all ok (dir </> "attachments") (c_id card0)
                                       atts_with_images card0
                              end) v)).
    { destruct j; try apply emits_bind_raise.
      apply emits_bind_ret. cbv zeta.
      emits_step.
      - destruct (List.filter is_foreign atts); [emits_step |].
        emits_step; [apply emits_print; exact I | emits_step].
      - destruct (List.filter is_trello_card_image atts) eqn:Ei; [emits_step |].
        emits_step; [apply emits_mkdir |].
        eapply emits_weaken; [| apply emits_download_all]. { auto. }
        rewrite <- Ei. apply filter_Forall. }
    destruct (Hk _ _ _ E2) as (evs2 & L2 & _).
    exists (evs ++ evs2). simpl. rewrite L2, L. rewrite <- app_assoc. reflexivity.
  - intros e w' H. rewrite Hrun. rewrite bind_assoc. apply bind_raise. exact H.
  - intros w' H. rewrite Hrun. rewrite bind_assoc.
    rewrite (bind_ok _ _ _ _ _ H). reflexivity.
Qed.

End CardCases.

Lemma parse_root_one_slash s :
  Py.has_char "/" s = false -> Path.parse_root (String "/" s) = "/".
Proof.
  destruct s as [| c s]; [reflexivity |].
  simpl Py.has_char. intros H. apply orb_false_elim in H as [Hc _].
  destruct c as [[] [] [] [] [] [] [] []]; try reflexivity; discriminate Hc.
Qed.

(** The card id is used as it comes.  A card id that starts with a slash
    makes the directory of the attachment an absolute path: the file is
    placed at /<rest of the id>_<attachment id>/<name>, whatever the board
    and the current directory are. *)
Theorem absolute_card_id_leaves_export_directory slug c attachment_id safe_name w :
  Py.has_char "/" c = false ->
  Py.has_char "/" attachment_id = false ->
  Py.has_char "/" safe_name = false ->
  safe_name <> "" -> safe_name <> "." ->
  let card_id := "/" +:+ c in
  let dest := Path.of_string slug </> "attachments"
                </> (card_id +:+ "_" +:+ attachment_id) </> safe_name in
  local_path slug card_id attachment_id safe_name
  = "/" +:+ c +:+ "_" +:+ attachment_id +:+ "/" +:+ safe_name /\
  resolve dest w = dest /\
  Path.root dest = "/".
Proof.
  intros Hc Ha Hs Hne Hnd card_id dest.
  set (rest := c +:+ "_" +:+ attachment_id).
  assert (Hrest : Py.has_char "/" rest = false)
    by (unfold rest; rewrite !has_char_app, Hc, Ha; reflexivity).
  assert (Hrne : rest <> "") by (unfold rest; destruct c; discriminate).
  assert (Hrnd : rest <> ".").
  { unfold rest. destruct c as [| x c]; [discriminate |].
    intros H. inversion H as [[Hx Hr]]. destruct c; discriminate Hr. }
  assert (Hof : Path.of_string (card_id +:+ "_" +:+ attachment_id) = Path.mk "/" [rest]).
  { change (card_id +:+ "_" +:+ attachment_id) with (String "/" rest).
    unfold Path.of_string. rewrite parse_root_one_slash by exact Hrest.
    change (Py.split "/" (String "/" rest)) with ("" :: Py.split "/" rest).
    rewrite split_single by exact Hrest. simpl. unfold Path.keep.
    apply String.eqb_neq in Hrne, Hrnd. now rewrite Hrne, Hrnd. }
  assert (Hdest : dest = Path.mk "/" [rest; safe_name]).
  { unfold dest. unfold Path.join at 2. rewrite Hof. unfold Path.append at 1.
    simpl String.eqb. cbv iota. now rewrite join_component by assumption. }
  split; [| split].
  - unfold local_path. fold card_id. fold dest. rewrite Hdest.
    change (Path.to_string (Path.mk "/" [rest; safe_name]))
      with ("/" +:+ rest +:+ "/" +:+ safe_name).
    unfold rest. change ("/" +:+ ?x) with (String "/" x). f_equal.
    rewrite (append_assoc c). reflexivity.
  - rewrite Hdest. reflexivity.
  - rewrite Hdest. reflexivity.
Qed.

Lemma absolute_card_id_leaves_export_directory_witness :
  local_path "Board_A" "/etc" "XYZ" "photo.png" = "/etc_XYZ/photo.png".
Proof.
  exact (proj1 (absolute_card_id_leaves_export_directory
                  "Board_A" "etc" "XYZ" "photo.png"
                  (Examples.start ∅ Examples.healthy)
                  eq_refl eq_refl eq_refl ltac:(discriminate) ltac:(discriminate))).
Defined.

Lemma card_with_links_only_witness :
  let w := set_cwd (Path.of_string "trello_exports")
             (Examples.start Examples.old_dirs Examples.healthy) in
  process_card Examples.no_bracket_check 5 (Path.of_string "Board_A")
    (Examples.card_with [Examples.pdf]) w
  = (Ok (set_local [Examples.pdf_url] (Examples.card_with [Examples.pdf])),
     add_event (EvPrint (MsgUrls [Examples.pdf_url])) w).
Proof.
  intros w.
  rewrite (card_with_links_only Examples.no_bracket_check 5 (Path.of_string "Board_A")
             (Examples.card_with [Examples.pdf]) w);
    [reflexivity | reflexivity | discriminate | reflexivity].
Defined.

Lemma card_without_attachments_is_fetched_witness :
  let w := set_cwd (Path.of_string "trello_exports")
             (Examples.start Examples.old_dirs Examples.healthy) in
  process_card Examples.no_bracket_check 5 (Path.of_string "Board_A")
    (Examples.card_with []) w
  = (Raise (HTTPError 404),
     snd (trello_get 5 "/cards/abc/attachments" [] w)).
Proof.
  intros w.
  destruct (card_without_attachments_is_fetched Examples.no_bracket_check 5
              (Path.of_string "Board_A") (Examples.card_with []) w)
    as (_ & H & _); [reflexivity | reflexivity |].
  apply H. vm_compute. reflexivity.
Defined.

(** ** The CSV export *)

Lemma lists_dict_lookup id_list ls :
  lists_dict ls !! id_list = l_name <$> last_list id_list ls.
Proof.
  unfold lists_dict, last_list.
  induction ls as [| x ls IH] using rev_ind; [reflexivity |].
  rewrite fold_left_app, rev_app_distr. simpl.
  destruct (String.eqb (l_id x) id_list) eqn:E.
  - apply String.eqb_eq in E. subst. simpl. apply lookup_insert_eq.
  - apply String.eqb_neq in E. rewrite lookup_insert_ne by exact E. exact IH.
Qed.

(** The list column of a card's row is the name of the last list of the
    payload that has the card's [idList] (a later list with the same id
    wins), and empty when no list has it; a card without [idList] has no
    row (KeyError). *)
Theorem card_row_list_name ls board_name card :
  match c_idList card with
  | None => card_row (lists_dict ls) board_name card = None
  | Some id_list =>
      exists item desc atts,
        card_row (lists_dict ls) board_name card
        = Some [board_name;
                match last_list id_list ls with
                | Some l => l_name l
                | None => ""
                end;
                item; desc; atts]
  end.
Proof.
  unfold card_row. destruct (c_idList card) as [id_list |]; [| reflexivity].
  rewrite lists_dict_lookup. do 3 eexists.
  destruct (last_list id_list ls); reflexivity.
Qed.

Lemma newline_free s :
  Py.has_char "010"
    (Py.map_chars (fun c => if Ascii.eqb c "010" then " "%char else c) s) = false.
Proof.
  induction s as [| c s IH]; [reflexivity |].
  simpl. rewrite IH, orb_false_r.
  destruct (Ascii.eqb c "010") eqn:E; [reflexivity | exact E].
Qed.

(** The row of a card: five columns; the item is the card's name, the
    description is the card's with every newline replaced by a space (so
    it has none, and the same length), and the attachments are the card's
    [local_attachments] joined with semicolons - all empty for missing
    keys. *)
Theorem card_row_columns lists board_name card id_list :
  c_idList card = Some id_list ->
  exists list_name desc,
    card_row lists board_name card
    = Some [board_name; list_name; default "" (c_name card); desc;
            Py.join ";" (default [] (c_local_attachments card))] /\
    Py.has_char "010" desc = false /\
    String.length desc = String.length (default "" (c_desc card)) /\
    forall i c, String.get i (default "" (c_desc card)) = Some c ->
                String.get i desc = Some (if Ascii.eqb c "010" then " "%char else c).
Proof.
  intros H. unfold card_row. rewrite H. do 2 eexists.
  split; [reflexivity |]. split; [apply newline_free |].
  split; [apply length_map_chars |].
  intros i c Hc. rewrite get_map_chars, Hc. reflexivity.
Qed.

Lemma card_row_columns_witness :
  exists list_name desc,
    card_row (lists_dict (d_lists Examples.data_a)) "Board A" Examples.card_abc
    = Some ["Board A"; list_name; "Trip"; desc; ""] /\
    Py.has_char "010" desc = false.
Proof.
  destruct (card_row_columns (lists_dict (d_lists Examples.data_a)) "Board A"
              Examples.card_abc DEBUG_BOARD_ID eq_refl)
    as (list_name & desc & Hrow & Hnl & _).
  exists list_name, desc. split; [exact Hrow | exact Hnl].
Defined.

Lemma card_rows_all lists board_name cards :
  Forall (fun c => c_idList c <> None) cards ->
  exists rows,
    card_rows lists board_name cards = (rows, true) /\
    length rows = length cards /\
    Forall (fun row => length row = 5%nat /\ List.hd "" row = board_name) rows.
Proof.
  induction 1 as [| c cards Hc _ IH]; [exists []; simpl; auto |].
  destruct IH as (rows & Hrows & Hlen & Hall). simpl. unfold card_row at 1.
  destruct (c_idList c) as [id_list |]; [| congruence].
  rewrite Hrows. eexists. split; [reflexivity |]. split; [simpl; now rewrite Hlen |].
  constructor; [split; reflexivity | exact Hall].
Qed.

Lemma card_rows_stop lists board_name cards :
  Exists (fun c => c_idList c = None) cards ->
  exists rows,
    card_rows lists board_name cards = (rows, false) /\
    (length rows < length cards)%nat.
Proof.
  induction cards as [| c cards IH]; intros H; [inversion H |].
  simpl. unfold card_row at 1.
  destruct (c_idList c) as [id_list |] eqn:E.
  - inversion H as [? ? Hc | ? ? Hrest]; subst; [congruence |].
    destruct (IH Hrest) as (rows & -> & Hlen).
    eexists. split; [reflexivity | simpl; lia].
  - exists []. split; [reflexivity | simpl; lia].
Qed.

Lemma board_rows_all all_boards :
  Forall (fun x => Forall (fun c => c_idList c <> None) (d_cards (fst x))) all_boards ->
  exists rows,
    board_rows all_boards = (rows, true) /\
    length rows = card_count all_boards /\
    Forall (fun row => length row = 5%nat) rows.
Proof.
  induction 1 as [| [data name] rest Hx _ IH]; [exists []; simpl; auto |].
  destruct IH as (rows' & Hrows' & Hlen' & Hall').
  destruct (card_rows_all (lists_dict (d_lists data)) name (d_cards data) Hx)
    as (rows & Hrows & Hlen & Hall).
  simpl. rewrite Hrows, Hrows'. exists (rows ++ rows').
  split; [reflexivity |]. split.
  - rewrite length_app, Hlen, Hlen'. reflexivity.
  - apply Forall_app. split; [| exact Hall'].
    eapply Forall_impl; [exact Hall |]. simpl. tauto.
Qed.

Lemma board_rows_stop all_boards :
  Exists (fun x => Exists (fun c => c_idList c = None) (d_cards (fst x))) all_boards ->
  exists rows,
    board_rows all_boards = (rows, false) /\
    (length rows < card_count all_boards)%nat.
Proof.
  induction all_boards as [| [data name] rest IH]; intros H; [inversion H |].
  simpl. unfold card_count. simpl.
  destruct (card_rows (lists_dict (d_lists data)) name (d_cards data))
    as [rows good] eqn:E.
  destruct good.
  - assert (Hrest : Exists (fun x => Exists (fun c => c_idList c = None)
                                        (d_cards (fst x))) rest).
    { inversion H as [? ? Hx | ? ? Hr]; subst; [| exact Hr].
      destruct (card_rows_stop (lists_dict (d_lists data)) name _ Hx) as (r & Hr & _).
      simpl in Hr. congruence. }
    destruct (IH Hrest) as (rows' & -> & Hlen).
    exists (rows ++ rows'). split; [reflexivity |].
    assert (Hl : (length rows <= length (d_cards data))%nat).
    { clear -E. revert rows E.
      induction (d_cards data) as [| c cs IHc]; intros rows E; simpl in E.
      - inversion E; subst. simpl. lia.
      - destruct (card_row _ _ c); [| inversion E; subst; simpl; lia].
        destruct (card_rows _ _ cs) as [r g]. inversion E; subst.
        simpl. specialize (IHc r eq_refl). lia. }
    rewrite length_app. unfold card_count in Hlen. lia.
  - exists rows. split; [reflexivity |].
    assert (Hl : (length rows < length (d_cards data))%nat).
    { clear -E. revert rows E.
      induction (d_cards data) as [| c cs IHc]; intros rows E; simpl in E.
      - inversion E.
      - destruct (card_row _ _ c); [| inversion E; subst; simpl; lia].
        destruct (card_rows _ _ cs) as [r g]. inversion E; subst.
        simpl. specialize (IHc r eq_refl). lia. }
    lia.
Qed.

Lemma write_file_runs p c w :
  lookup_path p w <> Some Dir ->
  lookup_path (Path.parent p) w = Some Dir ->
  write_file p c w
  = (Ok tt, set_fs (<[Path.to_string (resolve p w) := File c]> (fs w)) w).
Proof.
  intros Hp Hpar. unfold write_file, stat, bind.
  destruct (lookup_path p w) as [[| c0] |]; [congruence | |];
    rewrite Hpar; reflexivity.
Qed.

(** When every card of the exported documents has an [idList], and the
    current directory exists and holds no directory named
    trello_export.csv, [export_csv] writes the file with the header and
    exactly one row of five columns per card, then prints that it wrote
    it. *)
Theorem export_csv_one_row_per_card all_boards w :
  Forall (fun x => Forall (fun c => c_idList c <> None) (d_cards (fst x))) all_boards ->
  lookup_path csv_path w <> Some Dir ->
  lookup_path (Path.parent csv_path) w = Some Dir ->
  exists rows w',
    export_csv all_boards w = (Ok tt, w') /\
    lookup_path csv_path w' = Some (File (CsvRows (csv_header :: rows))) /\
    length rows = card_count all_boards /\
    Forall (fun row => length row = 5%nat) rows /\
    log w' = log w ++ [EvPrint (MsgWroteCsv "trello_export.csv")].
Proof.
  intros Hall Hp Hpar.
  destruct (board_rows_all all_boards Hall) as (rows & Hrows & Hlen & Hcols).
  unfold export_csv. rewrite Hrows. fold csv_path. fold csv_header.
  pose proof (write_file_runs csv_path (CsvRows (csv_header :: rows)) w Hp Hpar) as Hw.
  rewrite (bind_ok _ _ _ _ _ Hw).
  destruct (write_file_ok _ _ _ _ Hw) as (Hfile & _ & _).
  eexists rows, _. split; [reflexivity |].
  split; [exact Hfile |]. split; [exact Hlen |]. split; [exact Hcols | reflexivity].
Qed.

(** [export_board] reads a card's [idList] with [get], [export_csv] with a
    subscript: when some card of the exported documents has no [idList],
    [export_csv] raises KeyError.  The file is left with the header and
    the rows of the cards before that card, and the line that announces
    the CSV is not printed. *)
Theorem export_csv_missing_idList all_boards w :
  Exists (fun x => Exists (fun c => c_idList c = None) (d_cards (fst x))) all_boards ->
  lookup_path csv_path w <> Some Dir ->
  lookup_path (Path.parent csv_path) w = Some Dir ->
  exists rows w',
    export_csv all_boards w = (Raise KeyError, w') /\
    lookup_path csv_path w' = Some (File (CsvRows (csv_header :: rows))) /\
    (length rows < card_count all_boards)%nat /\
    log w' = log w.
Proof.
  intros Hex Hp Hpar.
  destruct (board_rows_stop all_boards Hex) as (rows & Hrows & Hlen).
  unfold export_csv. rewrite Hrows. fold csv_path. fold csv_header.
  pose proof (write_file_runs csv_path (CsvRows (csv_header :: rows)) w Hp Hpar) as Hw.
  rewrite (bind_ok _ _ _ _ _ Hw).
  destruct (write_file_ok _ _ _ _ Hw) as (Hfile & _ & _).
  eexists rows, _. split; [reflexivity |].
  split; [exact Hfile |]. split; [exact Hlen | reflexivity].
Qed.

Lemma export_csv_one_row_per_card_witness :
  let w := set_cwd (Path.of_string "trello_exports")
             (Examples.start Examples.old_dirs Examples.healthy) in
  exists rows w',
    export_csv [(Examples.data_a, "Board A"); (Examples.data_b, "Board B")] w
    = (Ok tt, w') /\
    length rows = 3%nat /\
    lookup_path csv_path w' = Some (File (CsvRows (csv_header :: rows))).
Proof.
  intros w.
  destruct (export_csv_one_row_per_card
              [(Examples.data_a, "Board A"); (Examples.data_b, "Board B")] w)
    as (rows & w' & Hrun & Hfile & Hlen & _).
  - repeat constructor; discriminate.
  - vm_compute. discriminate.
  - vm_compute. reflexivity.
  - exists rows, w'. split; [exact Hrun |]. split; [exact Hlen | exact Hfile].
Defined.

Lemma export_csv_missing_idList_witness :
  let w := set_cwd (Path.of_string "trello_exports")
             (Examples.start Examples.old_dirs Examples.healthy) in
  let stray := mk_card "ghi" None (Some "Stray") None [] None in
  fst (export_csv [(mk_board_data [] [Examples.card_abc; stray; Examples.card_other],
                    "Board A")] w)
  = Raise KeyError.
Proof.
  intros w stray.
  destruct (export_csv_missing_idList
              [(mk_board_data [] [Examples.card_abc; stray; Examples.card_other],
                "Board A")] w)
    as (rows & w' & Hrun & _).
  - constructor. simpl. apply Exists_cons_tl. apply Exists_cons_hd. reflexivity.
  - vm_compute. discriminate.
  - vm_compute. reflexivity.
  - now rewrite Hrun.
Defined.

(** ** The driver: nothing to export, a blocked root *)

Lemma trello_get_keeps_files fuel : forall endpoint params w r w',
  trello_get fuel endpoint params w = (r, w') -> fs w' = fs w /\ cwd w' = cwd w.
Proof.
  induction fuel as [| fuel IH]; intros endpoint params w r w' H.
  - inversion H; subst. auto.
  - rewrite trello_get_unfold in H. unfold bind at 1 in H.
    destruct (sess_get _ w) as [[resp | e |] w1] eqn:E1;
      apply sess_get_keeps_files in E1 as [F1 C1];
      [| inversion H; subst; auto | inversion H; subst; auto].
    rewrite <- F1, <- C1.
    destruct (status resp =? 429).
    + unfold bind at 1 in H. unfold retry_after in H.
      destruct (header_get "Retry-After" (headers resp)) as [s |].
      * destruct (Py.int_of_str s) as [z |]; [| inversion H; subst; auto].
        unfold ret in H. unfold bind at 1 in H. unfold time_sleep in H.
        destruct ((z <? - sleep_bound) || (sleep_bound <? z));
          [inversion H; subst; auto |].
        destruct (z <? 0); [inversion H; subst; auto |].
        apply IH in H. exact H.
      * unfold ret in H. unfold bind at 1 in H. unfold time_sleep in H.
        simpl in H. apply IH in H. exact H.
    + unfold bind, raise_for_status, resp_json in H.
      destruct ((400 <=? status resp) && (status resp <? 600));
        [inversion H; subst; auto |].
      simpl in H. destruct (body resp); inversion H; subst; auto.
Qed.

Lemma chdir_ok p w w' :
  chdir p w = (Ok tt, w') ->
  w' = set_cwd (resolve p w) w /\ lookup_path p w = Some Dir.
Proof.
  unfold chdir, stat, bind. intros H.
  destruct (lookup_path p w) as [[| c] |]; inversion H; auto.
Qed.

Lemma append_here p : Path.append p (Path.mk "" []) = p.
Proof. unfold Path.append. simpl. rewrite app_nil_r. now destruct p. Qed.

(** After [chdir], the current directory exists. *)
Lemma chdir_here p w w' :
  chdir p w = (Ok tt, w') -> lookup_path (Path.mk "" []) w' = Some Dir.
Proof.
  intros H. apply chdir_ok in H as [-> H].
  unfold lookup_path, resolve in *. simpl. rewrite append_here. exact H.
Qed.

Section DriverCases.

Variable ok : string -> bool.

(** When the boards listed are all closed (or none is listed), [main]
    requests nothing more: it writes a CSV that holds the header only,
    prints the three lines and returns. *)
Theorem main_with_no_open_board fuel w wa wb w1 boards :
  mkdir false true (Path.of_string "trello_exports") w = (Ok tt, wa) ->
  chdir (Path.of_string "trello_exports") wa = (Ok tt, wb) ->
  trello_get fuel "/members/me/boards"
    [("fields", "name,closed,dateLastActivity")] wb = (Ok (JBoards boards), w1) ->
  Forall (fun b => b_closed b = true) boards ->
  lookup_path csv_path w1 <> Some Dir ->
  exists w',
    main ok fuel w = (Ok tt, w') /\
    log w' = log w1 ++ [EvPrint (MsgFound 0);
                        EvPrint (MsgWroteCsv "trello_export.csv");
                        EvPrint MsgAllDone] /\
    nreq w' = nreq w1 /\
    lookup_path csv_path w' = Some (File (CsvRows [csv_header])).
Proof.
  intros Hmk Hcd Hget Hclosed Hcsv.
  rewrite (main_after_listing ok _ _ _ _ _ _ Hmk Hcd Hget). cbv zeta.
  assert (Hnone : List.filter (fun b => negb (b_closed b)) boards = []).
  { clear Hget. induction Hclosed as [| b bs Hb _ IH]; [reflexivity |].
    simpl. rewrite Hb. simpl. exact IH. }
  rewrite Hnone. simpl length.
  erewrite bind_ok by reflexivity. simpl export_each.
  change (bind (ret []) ?k ?v) with (k [] v). cbv beta.
  set (w2 := add_event (EvPrint (MsgFound 0)) w1).
  destruct (trello_get_keeps_files _ _ _ _ _ _ Hget) as [Hfs Hcwd].
  assert (Hhere : lookup_path (Path.parent csv_path) w2 = Some Dir).
  { change (Path.parent csv_path) with (Path.mk "" []).
    rewrite (lookup_path_same _ wb w2) by assumption.
    eapply chdir_here. exact Hcd. }
  assert (Hp : lookup_path csv_path w2 <> Some Dir) by exact Hcsv.
  unfold export_csv. simpl board_rows. cbv iota. fold csv_path. fold csv_header.
  pose proof (write_file_runs csv_path (CsvRows [csv_header]) w2 Hp Hhere) as Hw.
  destruct (write_file_ok _ _ _ _ Hw) as (Hfile & _ & _).
  unfold bind. rewrite Hw.
  eexists. split; [reflexivity |]. split; [| split; [reflexivity | exact Hfile]].
  simpl. rewrite <- !app_assoc. reflexivity.
Qed.

(** When something that is not a directory is named trello_exports, [main]
    stops with FileExistsError before any request: the world is
    unchanged. *)
Theorem main_blocked_by_file fuel w c :
  lookup_path (Path.of_string "trello_exports") w = Some (File c) ->
  main ok fuel w = (Raise FileExistsError, w).
Proof.
  intros H. unfold main. apply bind_raise.
  unfold mkdir. simpl length.
  change (path_mkdir 1 false true (Path.of_string "trello_exports") w
          = (Raise FileExistsError, w)).
  simpl path_mkdir. unfold try_except, os_mkdir, stat, bind. rewrite H. simpl.
  rewrite H. reflexivity.
Qed.

Lemma board_rows_length all_boards rows :
  board_rows all_boards = (rows, true) -> length rows = card_count all_boards.
Proof.
  revert rows. induction all_boards as [| [data name] rest IH]; intros rows H.
  - inversion H. reflexivity.
  - simpl in H.
    destruct (card_rows (lists_dict (d_lists data)) name (d_cards data))
      as [r good] eqn:E.
    destruct good; [| discriminate H].
    destruct (board_rows rest) as [r' good'].
    inversion H; subst. rewrite length_app, (IH r' eq_refl).
    unfold card_count. simpl. f_equal.
    clear -E. revert r E.
    induction (d_cards data) as [| c cs IHc]; intros r E; simpl in E.
    + now inversion E.
    + destruct (card_row _ _ c); [| discriminate E].
      destruct (card_rows _ _ cs) as [r0 g]. inversion E; subst.
      simpl. f_equal. now apply IHc.
Qed.

End DriverCases.

(** A first run (nothing on disk) against an account whose only board is
    closed. *)
Lemma main_with_no_open_board_witness :
  let srv := fun (_ : nat) (_ : request) =>
               Reply (Examples.ok_json (JBoards [Examples.board_old])) in
  let w := Examples.start ∅ srv in
  let r := main Examples.no_bracket_check 5 w in
  fst r = Ok tt /\
  requests (log (snd r)) = [mk_request "https://api.trello.com/1/members/me/boards"
                              [("fields", "name,closed,dateLastActivity")] false] /\
  lookup_path csv_path (snd r) = Some (File (CsvRows [csv_header])).
Proof.
  intros srv w r.
  destruct (main_with_no_open_board Examples.no_bracket_check 5 w
              (snd (mkdir false true (Path.of_string "trello_exports") w))
              (snd (chdir (Path.of_string "trello_exports")
                      (snd (mkdir false true (Path.of_string "trello_exports") w))))
              (snd (trello_get 5 "/members/me/boards"
                      [("fields", "name,closed,dateLastActivity")]
                      (snd (chdir (Path.of_string "trello_exports")
                         (snd (mkdir false true (Path.of_string "trello_exports") w))))))
              [Examples.board_old]
              ltac:(vm_compute; reflexivity) ltac:(vm_compute; reflexivity)
              ltac:(vm_compute; reflexivity)
              ltac:(repeat constructor)
              ltac:(vm_compute; discriminate))
    as (w' & Hrun & Hlog & _ & Hfile).
  subst r. rewrite Hrun. simpl fst. simpl snd.
  split; [reflexivity |]. split; [| exact Hfile].
  rewrite Hlog. vm_compute. reflexivity.
Defined.

(** A regular file named trello_exports is in the way. *)
Lemma main_blocked_by_file_witness :
  let w := Examples.start (<["trello_exports" := File (Bytes ["x"])]> ∅)
             Examples.healthy in
  main Examples.no_bracket_check 5 w = (Raise FileExistsError, w).
Proof.
  intros w.
  apply (main_blocked_by_file Examples.no_bracket_check 5 w (Bytes ["x"])).
  vm_compute. reflexivity.
Defined.

(** ** The JSON files of different boards *)

Lemma append_cancel_l (a x y : string) : a +:+ x = a +:+ y -> x = y.
Proof.
  induction a as [| c a IH]; intros H; [exact H |].
  change (String c (a +:+ x) = String c (a +:+ y)) in H.
  inversion H. auto.
Qed.

Lemma length_append (a b : string) :
  String.length (a +:+ b) = (String.length a + String.length b)%nat.
Proof.
  induction a as [| c a IH]; [reflexivity |].
  change (S (String.length (a +:+ b)) = S (String.length a + String.length b)).
  now rewrite IH.
Qed.

Lemma append_cancel_r (t : string) : forall x y : string, x +:+ t = y +:+ t -> x = y.
Proof.
  induction x as [| c x IH]; intros [| d y] H.
  - reflexivity.
  - change (t = String d (y +:+ t)) in H.
    apply (f_equal String.length) in H.
    cbn [String.length] in H. rewrite length_append in H. lia.
  - change (String c (x +:+ t) = t) in H.
    apply (f_equal String.length) in H.
    cbn [String.length] in H. rewrite length_append in H. lia.
  - change (String c (x +:+ t) = String d (y +:+ t)) in H.
    inversion H. f_equal. now apply IH.
Qed.

(** Two strings cut at their first slash. *)
Lemma first_slash_unique : forall a b x y : string,
  Py.has_char "/" a = false -> Py.has_char "/" b = false ->
  a +:+ "/" +:+ x = b +:+ "/" +:+ y -> a = b /\ x = y.
Proof.
  induction a as [| c a IH]; intros [| d b] x y Ha Hb H.
  - change (String "/" x = String "/" y) in H. inversion H. auto.
  - change (String "/" x = String d (b +:+ "/" +:+ y)) in H. inversion H; subst.
    simpl in Hb. discriminate Hb.
  - change (String c (a +:+ "/" +:+ x) = String "/" y) in H. inversion H; subst.
    simpl in Ha. discriminate Ha.
  - change (String c (a +:+ "/" +:+ x) = String d (b +:+ "/" +:+ y)) in H.
    inversion H; subst.
    simpl in Ha, Hb. apply orb_false_elim in Ha as [_ Ha], Hb as [_ Hb].
    destruct (IH b x y Ha Hb) as [-> ->]; auto.
Qed.

Lemma json_path_named b :
  b_name b <> "" -> Py.has_char "/" (b_id b) = false ->
  json_path b = slug_of (b_name b) +:+ "/" +:+
                ("board_" +:+ slug_of (b_name b) +:+ "_" +:+ b_id b +:+ ".json").
Proof.
  intros Hn Hid. unfold json_path. cbv zeta.
  destruct (json_name_component (slug_of (b_name b)) (b_id b)
              (slug_no_slash _) Hid) as (H1 & H2 & H3).
  rewrite join_component by assumption.
  rewrite slug_component by assumption. reflexivity.
Qed.

Lemma json_path_unnamed b :
  b_name b = "" -> Py.has_char "/" (b_id b) = false ->
  json_path b = "board__" +:+ b_id b +:+ ".json".
Proof.
  intros Hn Hid. unfold json_path. rewrite Hn. cbv zeta.
  change (slug_of "") with "".
  destruct (json_name_component "" (b_id b) eq_refl Hid) as (H1 & H2 & H3).
  rewrite join_component by assumption. reflexivity.
Qed.

(** Two boards whose ids hold no slash write the same JSON file only when
    their ids are equal (and their names give the same slug): the documents
    of different boards never overwrite each other. *)
Theorem json_path_injective b1 b2 :
  Py.has_char "/" (b_id b1) = false ->
  Py.has_char "/" (b_id b2) = false ->
  json_path b1 = json_path b2 ->
  slug_of (b_name b1) = slug_of (b_name b2) /\ b_id b1 = b_id b2.
Proof.
  intros H1 H2 H.
  assert (Hfile : forall s i j : string,
             "board_" +:+ s +:+ "_" +:+ i +:+ ".json"
             = "board_" +:+ s +:+ "_" +:+ j +:+ ".json" -> i = j).
  { intros s i j E. apply append_cancel_l, append_cancel_l, append_cancel_l in E.
    now apply append_cancel_r in E. }
  assert (Hno : forall i : string, Py.has_char "/" i = false ->
             Py.has_char "/" ("board__" +:+ i +:+ ".json") = false).
  { intros i Hi. rewrite !has_char_app, Hi. reflexivity. }
  destruct (String.eqb (b_name b1) "") eqn:E1, (String.eqb (b_name b2) "") eqn:E2.
  - apply String.eqb_eq in E1, E2.
    rewrite (json_path_unnamed b1), (json_path_unnamed b2) in H by assumption.
    rewrite E1, E2. split; [reflexivity |]. exact (Hfile "" _ _ H).
  - apply String.eqb_eq in E1. apply String.eqb_neq in E2.
    rewrite (json_path_unnamed b1), (json_path_named b2) in H by assumption.
    apply (f_equal (Py.has_char "/")) in H.
    rewrite (Hno _ H1), has_char_app in H. simpl in H.
    rewrite orb_true_r in H. discriminate H.
  - apply String.eqb_neq in E1. apply String.eqb_eq in E2.
    rewrite (json_path_named b1), (json_path_unnamed b2) in H by assumption.
    apply (f_equal (Py.has_char "/")) in H.
    rewrite (Hno _ H2), has_char_app in H. simpl in H.
    rewrite orb_true_r in H. discriminate H.
  - apply String.eqb_neq in E1, E2.
    rewrite (json_path_named b1), (json_path_named b2) in H by assumption.
    apply first_slash_unique in H as [Hs Hf]; try apply slug_no_slash.
    split; [exact Hs |]. rewrite Hs in Hf. exact (Hfile _ _ _ Hf).
Qed.

(** Two boards named differently whose names give one slug. *)
Lemma json_path_injective_witness :
  let b1 := mk_board "x1" "A B" false in
  let b2 := mk_board "x1" "A_B" false in
  json_path b1 = json_path b2 /\
  slug_of (b_name b1) = slug_of (b_name b2) /\ b_id b1 = b_id b2.
Proof.
  intros b1 b2.
  assert (H : json_path b1 = json_path b2) by (vm_compute; reflexivity).
  split; [exact H |].
  exact (json_path_injective b1 b2 eq_refl eq_refl H).
Defined.

(** ** What an export leaves on disk, and a second export *)

Lemma extends_refl w : extends w w.
Proof. split; reflexivity. Qed.

Lemma extends_trans w1 w2 w3 : extends w1 w2 -> extends w2 w3 -> extends w1 w3.
Proof.
  intros [C1 F1] [C2 F2]. split; [congruence |]. etransitivity; eassumption.
Qed.

Lemma extends_same w v v' :
  extends w v -> fs v' = fs v -> cwd v' = cwd v -> extends w v'.
Proof. intros [C F] Hf Hc. split; [congruence | now rewrite Hf]. Qed.

Lemma extends_from w w' v :
  fs w' = fs w -> cwd w' = cwd w -> extends w' v -> extends w v.
Proof. intros Hf Hc [C F]. split; [congruence | now rewrite <- Hf]. Qed.

Lemma lookup_path_extends p w w' n :
  extends w w' -> lookup_path p w = Some n -> lookup_path p w' = Some n.
Proof.
  intros [C F]. unfold lookup_path, resolve. rewrite C.
  destruct (Path.is_anchor _); [auto |]. intros H.
  eapply lookup_weaken; eassumption.
Qed.

Lemma untouched_refl v : untouched v v.
Proof. repeat split. Qed.

Lemma untouched_trans v1 v2 v3 : untouched v1 v2 -> untouched v2 v3 -> untouched v1 v3.
Proof. intros (A1 & B1 & C1) (A2 & B2 & C2). repeat split; congruence. Qed.

Lemma untouched_extends w v v' : extends w v -> untouched v v' -> extends w v'.
Proof. intros H (A & B & _). eapply extends_same; eassumption. Qed.

Lemma grows_ret {A} (a : A) : grows (ret a).
Proof. intros w r w' H. inversion H; subst. apply extends_refl. Qed.

Lemma grows_raise {A} e : grows (@raise A e).
Proof. intros w r w' H. inversion H; subst. apply extends_refl. Qed.

Lemma grows_bind {A B} (m : M A) (k : A -> M B) :
  grows m -> (forall a, grows (k a)) -> grows (bind m k).
Proof.
  intros Hm Hk w r w' H. unfold bind in H.
  destruct (m w) as [[a | e |] w1] eqn:E.
  - eapply extends_trans; [eapply Hm; exact E | eapply Hk; exact H].
  - inversion H; subst. eapply Hm; exact E.
  - inversion H; subst. eapply Hm; exact E.
Qed.

Lemma grows_try_except {A} (m : M A) h :
  grows m -> (forall e, grows (h e)) -> grows (try_except m h).
Proof.
  intros Hm Hh w r w' H. unfold try_except in H.
  destruct (m w) as [[a | e |] w1] eqn:E.
  - inversion H; subst. eapply Hm; exact E.
  - eapply extends_trans; [eapply Hm; exact E | eapply Hh; exact H].
  - inversion H; subst. eapply Hm; exact E.
Qed.

Lemma grows_keeps {A} (m : M A) :
  (forall w r w', m w = (r, w') -> fs w' = fs w /\ cwd w' = cwd w) -> grows m.
Proof.
  intros Hm w r w' H. destruct (Hm _ _ _ H) as [Hf Hc].
  split; [exact Hc | now rewrite Hf].
Qed.

Lemma grows_print m : grows (print m).
Proof. apply grows_keeps. intros w r w' H. inversion H; subst. auto. Qed.

Lemma grows_stat p : grows (stat p).
Proof. apply grows_keeps. intros w r w' H. inversion H; subst. auto. Qed.

Ltac grows_step :=
  match goal with
  | |- grows (ret _) => apply grows_ret
  | |- grows (raise _) => apply grows_raise
  | |- grows (print _) => apply grows_print
  | |- grows (stat _) => apply grows_stat
  | |- grows (bind _ _) => apply grows_bind; [| intros ?]
  | |- grows (try_except _ _) => apply grows_try_except; [| intros ?]
  | |- grows (match ?x with _ => _ end) => destruct x
  | |- grows (if ?x then _ else _) => destruct x
  end.

(** Writing where nothing is yet only adds. *)
Lemma put_node_absent p n w :
  lookup_path p w = None ->
  extends w (set_fs (<[Path.to_string (resolve p w) := n]> (fs w)) w).
Proof.
  unfold lookup_path. destruct (Path.is_anchor _); [discriminate |].
  intros H. split; [reflexivity |]. simpl. now apply insert_subseteq.
Qed.

Lemma grows_os_mkdir p : grows (os_mkdir p).
Proof.
  intros w r w' H. unfold os_mkdir, stat, bind in H.
  destruct (lookup_path p w) as [n |] eqn:E.
  - inversion H; subst. apply extends_refl.
  - destruct (lookup_path (Path.parent p) w) as [[| c] |];
      inversion H; subst; try apply extends_refl.
    now apply put_node_absent.
Qed.

Lemma grows_path_mkdir depth : forall parents exist_ok p,
  grows (path_mkdir depth parents exist_ok p).
Proof.
  induction depth as [| d IH]; intros parents exist_ok p; simpl;
    (apply grows_try_except; [apply grows_os_mkdir |]);
    intros e; destruct e; repeat grows_step; auto.
Qed.

Lemma grows_mkdir parents exist_ok p : grows (mkdir parents exist_ok p).
Proof. apply grows_path_mkdir. Qed.

Lemma write_file_absent p c w r w' :
  lookup_path p w = None -> write_file p c w = (r, w') -> extends w w'.
Proof.
  intros E H. unfold write_file, stat, bind in H. rewrite E in H.
  destruct (lookup_path (Path.parent p) w) as [[| c0] |];
    inversion H; subst; try apply extends_refl.
  now apply put_node_absent.
Qed.

Lemma grows_download_file url dest : grows (download_file url dest).
Proof.
  intros w r w' H. destruct (lookup_path dest w) eqn:E.
  - rewrite download_file_present in H by congruence.
    inversion H; subst. apply extends_refl.
  - rewrite download_file_absent in H by exact E.
    unfold bind at 1 in H.
    destruct (sess_get _ w) as [[resp | e |] w1] eqn:Es;
      apply sess_get_keeps_files in Es as [F1 C1];
      assert (H1 : extends w w1) by (split; [exact C1 | now rewrite F1]);
      [| inversion H; subst; exact H1 | inversion H; subst; exact H1].
    assert (E1 : lookup_path dest w1 = None)
      by (rewrite (lookup_path_same dest w w1 F1 C1); exact E).
    unfold bind at 1 in H. unfold raise_for_status in H.
    destruct ((400 <=? status resp) && (status resp <? 600));
      [inversion H; subst; exact H1 |].
    change (ret tt w1) with (Ok tt, w1) in H. cbv iota beta in H.
    unfold bind at 1 in H.
    destruct (write_file dest (Bytes (chunks resp)) w1) as [[u | e |] w2] eqn:Ew;
      apply (write_file_absent _ _ _ _ _ E1) in Ew;
      pose proof (extends_trans _ _ _ H1 Ew) as H2.
    + destruct (stream_ok resp); inversion H; subst; exact H2.
    + inversion H; subst; exact H2.
    + inversion H; subst; exact H2.
Qed.

Lemma grows_trello_get fuel endpoint params : grows (trello_get fuel endpoint params).
Proof. apply grows_keeps. intros w r w'. apply trello_get_keeps_files. Qed.

Section Again.

Variable ok : string -> bool.

Lemma grows_download_attachment dir card_id att card :
  grows (download_attachment ok dir card_id att card).
Proof.
  unfold download_attachment, url_path_parts, attachment_id_of, list_index, list_item.
  repeat grows_step; auto using grows_mkdir, grows_download_file.
Qed.

Lemma grows_download_all dir card_id atts : forall card,
  grows (download_all ok dir card_id atts card).
Proof.
  induction atts as [| att rest IH]; intros card; simpl; [grows_step |].
  grows_step; [apply grows_download_attachment | apply IH].
Qed.

Lemma grows_process_card fuel dir card : grows (process_card ok fuel dir card).
Proof.
  unfold process_card, card_attachments.
  repeat grows_step; auto using grows_mkdir, grows_download_all, grows_trello_get.
Qed.

Lemma grows_process_cards fuel dir cards : grows (process_cards ok fuel dir cards).
Proof.
  induction cards as [| c rest IH]; simpl; [grows_step |].
  grows_step; [apply grows_process_card |].
  grows_step; [exact IH | grows_step].
Qed.

(** [export_board] leaves everything on disk as it was, except for the
    JSON file of the board itself: whatever the outcome (a result, an
    exception, no answer from a server that stays busy), every other file
    and directory that was there is still there, unchanged, and the
    starting directory is the same. *)
Theorem export_board_keeps_other_files fuel b w r w' :
  export_board ok fuel b w = (r, w') ->
  cwd w' = cwd w /\
  forall k n,
    fs w !! k = Some n ->
    k <> Path.to_string (resolve (json_file b) w) ->
    fs w' !! k = Some n.
Proof.
  intros H. unfold export_board in H. fold (json_file b) in H.
  assert (Hlift : forall v, extends w v ->
            cwd v = cwd w /\
            forall k n, fs w !! k = Some n ->
                        k <> Path.to_string (resolve (json_file b) w) ->
                        fs v !! k = Some n).
  { intros v [C F]. split; [exact C |]. intros k n Hk _.
    eapply lookup_weaken; eassumption. }
  apply bind_run in H as [(u & w0 & H0 & H) | [(e & H0 & _) | (H0 & _)]];
    [| inversion H0 | inversion H0].
  inversion H0; subst; clear H0.
  set (w0 := add_event _ w) in H.
  assert (E0 : extends w w0) by (split; reflexivity).
  apply bind_run in H as [(j & w1 & H1 & H) | [(e & H1 & _) | (H1 & _)]];
    try (apply Hlift; eapply extends_trans; [exact E0 |];
         eapply grows_trello_get; exact H1).
  apply grows_trello_get in H1. pose proof (extends_trans _ _ _ E0 H1) as E1.
  destruct j as [bs | d | atts]; try (inversion H; subst; now apply Hlift).
  change (bind (ret d) ?k w1) with (k d w1) in H. cbv beta in H.
  apply bind_run in H as [(cs & w2 & H2 & H) | [(e & H2 & _) | (H2 & _)]];
    try (apply Hlift; eapply extends_trans; [exact E1 |];
         eapply grows_process_cards; exact H2).
  apply grows_process_cards in H2. pose proof (extends_trans _ _ _ E1 H2) as E2.
  cbv zeta in H.
  assert (Hw : forall rw w3,
            write_file (json_file b) (JsonDoc (mk_board_data (d_lists d) cs)) w2
            = (rw, w3) ->
            cwd w3 = cwd w /\
            forall k n, fs w !! k = Some n ->
                        k <> Path.to_string (resolve (json_file b) w) ->
                        fs w3 !! k = Some n).
  { intros rw w3 Hrun. destruct E2 as [C2 F2].
    unfold write_file, stat, bind in Hrun.
    assert (Hput : forall v,
              put_node (json_file b) (File (JsonDoc (mk_board_data (d_lists d) cs))) w2
              = (rw, v) -> v = w3 ->
              cwd w3 = cwd w /\
              forall k n, fs w !! k = Some n ->
                          k <> Path.to_string (resolve (json_file b) w) ->
                          fs w3 !! k = Some n).
    { intros v Hv <-. inversion Hv; subst. split; [exact C2 |].
      intros k n Hk Hne. simpl. rewrite lookup_insert_ne.
      - eapply lookup_weaken; eassumption.
      - unfold resolve in *. rewrite C2. congruence. }
    destruct (lookup_path (json_file b) w2) as [[| c0] |];
      [inversion Hrun; subst; apply Hlift; now split | |];
      (destruct (lookup_path (Path.parent (json_file b)) w2) as [[| c1] |];
       [eapply Hput; [exact Hrun | reflexivity]
       | inversion Hrun; subst; apply Hlift; now split
       | inversion Hrun; subst; apply Hlift; now split]). }
  apply bind_run in H as [(u3 & w3 & H3 & H) | [(e & H3 & _) | (H3 & _)]];
    try (eapply Hw; exact H3).
  destruct (Hw _ _ H3) as [C3 F3].
  apply bind_run in H as [(u4 & w4 & H4 & H) | [(e & H4 & _) | (H4 & _)]];
    [| inversion H4 | inversion H4].
  inversion H4; subst w4; clear H4. inversion H; subst. split; [exact C3 | exact F3].
Qed.

Lemma persists_refl w : persists w w.
Proof. split; [reflexivity |]. intros k n H. now exists n. Qed.

Lemma persists_trans w1 w2 w3 : persists w1 w2 -> persists w2 w3 -> persists w1 w3.
Proof.
  intros [C1 F1] [C2 F2]. split; [congruence |]. intros k n H.
  destruct (F1 k n H) as (n1 & H1 & D1). destruct (F2 k n1 H1) as (n2 & H2 & D2).
  exists n2. auto.
Qed.

Lemma extends_persists w w' : extends w w' -> persists w w'.
Proof.
  intros [C F]. split; [exact C |]. intros k n H. exists n.
  split; [eapply lookup_weaken; eassumption | auto].
Qed.

Lemma persists_same w v v' :
  persists w v -> fs v' = fs v -> cwd v' = cwd v -> persists w v'.
Proof. intros [C F] Hf Hc. split; [congruence | now rewrite Hf]. Qed.

Lemma untouched_persists w v v' : persists w v -> untouched v v' -> persists w v'.
Proof. intros H (A & B & _). eapply persists_same; eassumption. Qed.

Lemma lookup_path_persists_dir p w w' :
  persists w w' -> lookup_path p w = Some Dir -> lookup_path p w' = Some Dir.
Proof.
  intros [C F]. unfold lookup_path, resolve. rewrite C.
  destruct (Path.is_anchor _); [auto |]. intros H.
  destruct (F _ _ H) as (n' & H' & D). now rewrite H', D.
Qed.

Lemma lookup_path_persists p w w' :
  persists w w' -> lookup_path p w <> None -> lookup_path p w' <> None.
Proof.
  intros [C F]. unfold lookup_path, resolve. rewrite C.
  destruct (Path.is_anchor _); [auto |]. intros H.
  destruct (fs w !! _) as [n |] eqn:E; [| congruence].
  destruct (F _ _ E) as (n' & H' & _). now rewrite H'.
Qed.

(** Writing a file keeps what is there, but for the content of that file. *)
Lemma write_file_persists p c w r w' : write_file p c w = (r, w') -> persists w w'.
Proof.
  intros H. unfold write_file, stat, bind in H.
  assert (Hput : lookup_path p w <> Some Dir ->
                 persists w (set_fs (<[Path.to_string (resolve p w) := File c]> (fs w)) w)).
  { intros Hp. split; [reflexivity |]. intros k n Hk. simpl.
    destruct (decide (k = Path.to_string (resolve p w))) as [-> | Hne].
    - rewrite lookup_insert_eq. eexists. split; [reflexivity |].
      intros ->. exfalso. apply Hp. unfold lookup_path.
      destruct (Path.is_anchor _); [reflexivity | exact Hk].
    - rewrite lookup_insert_ne by congruence. now exists n. }
  destruct (lookup_path p w) as [[| c0] |];
    [inversion H; subst; apply persists_refl | |];
    (destruct (lookup_path (Path.parent p) w) as [[| c1] |];
     inversion H; subst; try apply persists_refl; apply Hput; discriminate).
Qed.

Lemma path_mkdir_existing depth parents p w :
  lookup_path p w = Some Dir -> path_mkdir depth parents true p w = (Ok tt, w).
Proof.
  intros H. destruct depth; simpl; unfold try_except, os_mkdir, stat, bind;
    rewrite H; simpl; rewrite H; reflexivity.
Qed.

Lemma os_mkdir_cases p w r w' :
  os_mkdir p w = (r, w') ->
  (r = Ok tt /\ lookup_path p w' = Some Dir) \/
  (w' = w /\
   ((r = Raise FileExistsError /\ lookup_path p w <> None) \/
    (r = Raise FileNotFoundError /\ lookup_path p w = None) \/
    (r = Raise NotADirectoryError /\ lookup_path p w = None))).
Proof.
  unfold os_mkdir, stat, bind. intros H.
  destruct (lookup_path p w) as [n |] eqn:E.
  - inversion H; subst. right. split; [reflexivity |]. left. split; congruence.
  - destruct (lookup_path (Path.parent p) w) as [[| c] |]; inversion H; subst.
    + left. split; [reflexivity |]. unfold lookup_path, resolve. simpl.
      destruct (Path.is_anchor _); [reflexivity | apply lookup_insert_eq].
    + right. split; [reflexivity |]. right. right. auto.
    + right. split; [reflexivity |]. right. left. auto.
Qed.

(** When [mkdir] returns, the directory is there. *)
Lemma path_mkdir_ok depth : forall parents exist_ok p w w',
  path_mkdir depth parents exist_ok p w = (Ok tt, w') -> lookup_path p w' = Some Dir.
Proof.
  induction depth as [| d IH]; intros parents exist_ok p w w' H; simpl in H;
    unfold try_except in H;
    destruct (os_mkdir p w) as [r w1] eqn:E;
    apply os_mkdir_cases in E
      as [[-> Hd] | [-> [[-> Hp] | [[-> Hp] | [-> Hp]]]]].
  all: try (inversion H; subst; exact Hd).
  all: try (unfold stat, bind in H;
            destruct (lookup_path p w) as [[| c] |] eqn:El; try discriminate H;
            destruct exist_ok; inversion H; subst; exact El).
  - destruct (negb parents || bool_decide (Path.parent p = p)); discriminate H.
  - destruct (negb parents || bool_decide (Path.parent p = p)); [discriminate H |].
    apply bind_inv_ok in H as (u & w2 & _ & H). eapply IH. exact H.
Qed.

Lemma download_file_ok_present url dest w w' :
  download_file url dest w = (Ok tt, w') -> lookup_path dest w' <> None.
Proof.
  intros H. unfold download_file in H.
  apply bind_inv_ok in H as (present & w0 & H0 & H).
  unfold path_exists, stat, bind, ret in H0.
  destruct (lookup_path dest w) eqn:E; inversion H0; subst; clear H0.
  - inversion H; subst. congruence.
  - apply bind_inv_ok in H as (resp & w1 & _ & H).
    apply bind_inv_ok in H as (u & w2 & _ & H).
    apply bind_inv_ok in H as (u' & w3 & Hw & H).
    destruct u'. apply write_file_present in Hw.
    destruct (stream_ok resp); inversion H; subst. exact Hw.
Qed.

(** One attachment, a second time: once its download has returned, the
    loop body only prints its line and records the same path, wherever the
    files of the first time are still there. *)
Lemma download_attachment_again dir card_id att card w card' w' :
  download_attachment ok dir card_id att card w = (Ok card', w') ->
  exists p,
    card' = append_local p card /\
    forall c v, persists w' v ->
      exists v', download_attachment ok dir card_id att c v = (Ok (append_local p c), v')
                 /\ untouched v v'.
Proof.
  unfold download_attachment, url_path_parts. intros H.
  destruct (att_url att) as [url |]; [| discriminate H].
  change (bind (ret url) ?k w) with (k url w) in H. cbv beta in H.
  destruct (Url.urlparse ok url) as [r |] eqn:Er; [| discriminate H].
  change (bind (ret ?x) ?k w) with (k x w) in H. cbv beta in H.
  rewrite (bind_ok _ _ _ _ _ (attachment_id_of_run _ w)) in H.
  set (parts := Py.split "/" (Url.path r)) in *.
  set (att_dir := dir </> (card_id +:+ "_" +:+ attachment_id parts)) in *.
  set (dest := att_dir </> safe_name_of (filename_of att parts)) in *.
  apply bind_inv_ok in H as ([] & w1 & Hmk & H).
  apply bind_inv_ok in H as ([] & w2 & Hpr & H).
  inversion Hpr; subst w2; clear Hpr.
  unfold try_except in H.
  match type of H with
  | (let (_, _) := ?m ?w in _) = _ => destruct (m w) as [[c | e |] w3] eqn:E
  end; try discriminate H.
  inversion H; subst; clear H.
  apply bind_inv_ok in E as ([] & w4 & Hdl & E). inversion E; subst; clear E.
  exists (Path.to_string dest). split; [reflexivity |].
  apply path_mkdir_ok in Hmk.
  assert (Hdir : lookup_path att_dir w' = Some Dir).
  { eapply lookup_path_persists_dir; [| exact Hmk].
    apply extends_persists. eapply extends_from; [| | eapply grows_download_file; exact Hdl];
      reflexivity. }
  apply download_file_ok_present in Hdl.
  intros c v Hv.
  pose proof (lookup_path_persists_dir _ _ _ Hv Hdir) as Hdir'.
  pose proof (lookup_path_persists _ _ _ Hv Hdl) as Hdest'.
  change (bind (ret url) ?k v) with (k url v). cbv beta. rewrite Er.
  change (bind (ret ?x) ?k v) with (k x v). cbv beta.
  rewrite (bind_ok _ _ _ _ _ (attachment_id_of_run _ v)).
  fold att_dir. fold dest.
  erewrite bind_ok by (apply path_mkdir_existing; exact Hdir').
  erewrite bind_ok by reflexivity.
  unfold try_except.
  erewrite bind_ok by (apply download_file_present; exact Hdest').
  eexists. split; [reflexivity |]. repeat split.
Qed.

Lemma download_all_again dir card_id atts : forall card w card' w',
  download_all ok dir card_id atts card w = (Ok card', w') ->
  exists f : Card -> Card,
    card' = f card /\
    forall c v, persists w' v ->
      exists v', download_all ok dir card_id atts c v = (Ok (f c), v') /\ untouched v v'.
Proof.
  induction atts as [| att rest IH]; intros card w card' w' H; simpl in H.
  - inversion H; subst. exists (fun c => c). split; [reflexivity |].
    intros c v _. exists v. split; [reflexivity | apply untouched_refl].
  - apply bind_inv_ok in H as (c1 & w1 & H1 & H).
    pose proof (grows_download_all dir card_id rest c1 _ _ _ H) as Hgrow.
    apply download_attachment_again in H1 as (p & -> & Hagain1).
    apply IH in H as (f & -> & Hagain).
    exists (fun c => f (append_local p c)). split; [reflexivity |].
    intros c v Hv.
    destruct (Hagain1 c v) as (v1 & Hr1 & Hu1).
    { eapply persists_trans; [apply extends_persists; exact Hgrow | exact Hv]. }
    destruct (Hagain (append_local p c) v1) as (v2 & Hr2 & Hu2).
    { eapply untouched_persists; eassumption. }
    exists v2. split; [| eapply untouched_trans; eassumption].
    simpl. now rewrite (bind_ok _ _ _ _ _ Hr1).
Qed.

(** One card, a second time. *)
Lemma process_card_again fuel dir card w card' w' :
  has_attachments card ->
  process_card ok fuel dir card w = (Ok card', w') ->
  forall v, persists w' v ->
    exists v', process_card ok fuel dir card v = (Ok card', v') /\ untouched v v'.
Proof.
  intros Hatt H v Hv.
  destruct (decide (c_idList card = Some DEBUG_BOARD_ID)) as [Hl | Hl].
  2:{ rewrite process_card_skipped in H by exact Hl. inversion H; subst.
      exists v. split; [now apply process_card_skipped | apply untouched_refl]. }
  specialize (Hatt Hl).
  unfold process_card, DEBUG in *. simpl in H |- *.
  rewrite bool_decide_eq_true_2 in H |- * by exact Hl. simpl in H |- *.
  unfold card_attachments in *.
  destruct (c_attachments card) as [| a l] eqn:Ea; [congruence |].
  set (atts := a :: l) in *.
  change (bind (ret atts) ?k w) with (k atts w) in H.
  change (bind (ret atts) ?k v) with (k atts v). cbv beta in H |- *.
  set (c1 := match List.filter (fun att => has_url att && negb (is_trello_card_image att)) atts with
             | [] => card
             | _ => set_local (List.map get_url
                      (List.filter (fun att => has_url att && negb (is_trello_card_image att)) atts)) card
             end).
  assert (Hfirst : forall u, exists u0,
            (match List.filter (fun att => has_url att && negb (is_trello_card_image att)) atts with
             | [] => ret card
             | _ => print (MsgUrls (List.map get_url
                      (List.filter (fun att => has_url att && negb (is_trello_card_image att)) atts)))
                    >> ret (set_local (List.map get_url
                      (List.filter (fun att => has_url att && negb (is_trello_card_image att)) atts)) card)
             end) u = (Ok c1, u0) /\ untouched u u0).
  { intros u. unfold c1.
    destruct (List.filter (fun att => has_url att && negb (is_trello_card_image att)) atts).
    - exists u. split; [reflexivity | apply untouched_refl].
    - eexists. split; [reflexivity |]. repeat split. }
  destruct (Hfirst w) as (w0 & Hw0 & Uw0). destruct (Hfirst v) as (v0 & Hv0 & Uv0).
  rewrite (bind_ok _ _ _ _ _ Hw0) in H. rewrite (bind_ok _ _ _ _ _ Hv0).
  destruct (List.filter is_trello_card_image atts) as [| n ns].
  - inversion H; subst. exists v0. split; [reflexivity | exact Uv0].
  - apply bind_inv_ok in H as ([] & w1 & Hmk & H).
    apply path_mkdir_ok in Hmk.
    pose proof (grows_download_all _ (c_id c1) (n :: ns) c1 _ _ _ H) as Hgrow.
    apply download_all_again in H as (f & -> & Hagain).
    assert (Hv0' : persists w' v0) by (eapply untouched_persists; eassumption).
    assert (Hdir : lookup_path (dir </> "attachments") v0 = Some Dir).
    { eapply lookup_path_persists_dir; [exact Hv0' |].
      eapply lookup_path_extends; [exact Hgrow | exact Hmk]. }
    erewrite bind_ok by (apply path_mkdir_existing; exact Hdir).
    destruct (Hagain c1 v0 Hv0') as (v1 & Hr & Hu).
    exists v1. split; [exact Hr | eapply untouched_trans; eassumption].
Qed.

Lemma process_card_attachments fuel slug card w card' w' :
  process_card ok fuel (Path.of_string slug) card w = (Ok card', w') ->
  c_idList card' = c_idList card /\ c_attachments card' = c_attachments card.
Proof.
  intros H.
  destruct (decide (c_idList card = Some DEBUG_BOARD_ID)) as [Hl | Hl].
  - apply (process_card_ok ok) in H as (atts & wa & paths & _ & _ & ->); [| exact Hl].
    destruct (record_all_fields paths
                (match List.filter is_foreign atts with
                 | [] => card
                 | foreign => set_local (List.map get_url foreign) card
                 end)) as (_ & -> & ->).
    destruct (List.filter is_foreign atts); auto.
  - rewrite process_card_skipped in H by exact Hl. inversion H; subst. auto.
Qed.

(** The cards of a board, a second time. *)
Lemma process_cards_again fuel slug cards : forall w cards' w',
  process_cards ok fuel (Path.of_string slug) cards w = (Ok cards', w') ->
  Forall has_attachments cards' ->
  forall v, persists w' v ->
    exists v', process_cards ok fuel (Path.of_string slug) cards v = (Ok cards', v')
               /\ untouched v v'.
Proof.
  induction cards as [| c rest IH]; intros w cards' w' H Hall v Hv; simpl in H.
  - inversion H; subst. exists v. split; [reflexivity | apply untouched_refl].
  - apply bind_inv_ok in H as (c' & w1 & H1 & H).
    apply bind_inv_ok in H as (rest' & w2 & H2 & H).
    inversion H; subst; clear H. inversion Hall as [| ? ? Hc Hrest]; subst.
    assert (Hc0 : has_attachments c).
    { destruct (process_card_attachments _ _ _ _ _ _ H1) as [E1 E2].
      unfold has_attachments in *. now rewrite <- E1, <- E2. }
    pose proof (grows_process_cards fuel _ rest _ _ _ H2) as Hgrow.
    destruct (process_card_again _ _ _ _ _ _ Hc0 H1 v) as (v1 & Hr1 & Hu1).
    { eapply persists_trans; [apply extends_persists; exact Hgrow | exact Hv]. }
    destruct (IH _ _ _ H2 Hrest v1) as (v2 & Hr2 & Hu2).
    { eapply untouched_persists; eassumption. }
    exists v2. split; [| eapply untouched_trans; eassumption].
    simpl. rewrite (bind_ok _ _ _ _ _ Hr1), (bind_ok _ _ _ _ _ Hr2). reflexivity.
Qed.

(** A second export of a board.  When [export_board] has returned a
    document in which every card of the DEBUG list has attachments, and it
    runs again where the files of the first run are still as they were left
    (at once, or after other exports that only added files) and the server
    answers the request for the board as before, it returns the same
    document, leaves the file system as it is, and asks the server for
    nothing after the board: no attachment is downloaded again. *)
Theorem export_board_again fuel b w x w1 v :
  export_board ok fuel b w = (Ok x, w1) ->
  Forall has_attachments (d_cards (fst x)) ->
  extends w1 v ->
  fst (trello_get fuel ("/boards/" +:+ b_id b) board_params
         (add_event (EvPrint (MsgExporting (b_name b) (b_id b))) v))
  = fst (trello_get fuel ("/boards/" +:+ b_id b) board_params
           (add_event (EvPrint (MsgExporting (b_name b) (b_id b))) w)) ->
  exists v',
    export_board ok fuel b v = (Ok x, v') /\
    fs v' = fs v /\ cwd v' = cwd v /\
    nreq v' = nreq (snd (trello_get fuel ("/boards/" +:+ b_id b) board_params
                           (add_event (EvPrint (MsgExporting (b_name b) (b_id b))) v))).
Proof.
  intros H Hall Hv Hsame. unfold export_board in H |- *.
  fold (json_file b) in H |- *.
  apply bind_inv_ok in H as ([] & w0 & H0 & H). inversion H0; subst w0; clear H0.
  erewrite bind_ok by reflexivity.
  set (wp := add_event _ w) in *. set (vp := add_event _ v) in *.
  apply bind_inv_ok in H as (j & wA & HA & H).
  rewrite HA in Hsame. simpl in Hsame.
  destruct (trello_get fuel ("/boards/" +:+ b_id b) board_params vp) as [r vA] eqn:EA.
  simpl in Hsame. subst r. simpl snd.
  rewrite (bind_ok _ _ _ _ _ EA).
  destruct j as [bs | d | atts]; try discriminate H.
  change (bind (ret d) ?k wA) with (k d wA) in H.
  change (bind (ret d) ?k vA) with (k d vA). cbv beta in H |- *.
  apply bind_inv_ok in H as (cs & wB & HB & H). cbv zeta in H |- *.
  apply bind_inv_ok in H as ([] & wC & HC & H).
  apply bind_inv_ok in H as ([] & wD & HD & H).
  inversion HD; subst wD; clear HD. inversion H; subst; clear H.
  simpl in Hall.
  (* the files of the first run, in the world of the second *)
  destruct (trello_get_keeps_files _ _ _ _ _ _ EA) as [FA CA].
  assert (PC : persists wC vA).
  { eapply persists_same; [apply extends_persists; exact Hv | exact FA | exact CA]. }
  assert (PB : persists wB vA).
  { eapply persists_trans; [eapply write_file_persists; exact HC | exact PC]. }
  destruct (process_cards_again _ _ _ _ _ _ HB Hall vA PB) as (vB & HB' & UB).
  rewrite (bind_ok _ _ _ _ _ HB').
  (* the JSON file is there already, with the same document *)
  pose proof (write_file_ok _ _ _ _ HC) as (Hfile & _ & _).
  assert (Hfile' : lookup_path (json_file b) vB
                   = Some (File (JsonDoc (mk_board_data (d_lists d) cs)))).
  { destruct UB as (F & C & _).
    rewrite (lookup_path_same _ vA vB F C), (lookup_path_same _ vp vA FA CA).
    eapply lookup_path_extends; [| exact Hfile].
    eapply extends_same; [exact Hv | reflexivity | reflexivity]. }
  assert (Hparent : lookup_path (Path.parent (json_file b)) vB = Some Dir).
  { eapply lookup_path_persists_dir.
    - eapply untouched_persists; [exact PB | exact UB].
    - unfold write_file, stat, bind in HC.
      destruct (lookup_path (json_file b) wB) as [[| c0] |]; try discriminate HC;
        destruct (lookup_path (Path.parent (json_file b)) wB) as [[| c1] |];
        try discriminate HC; reflexivity. }
  rewrite (bind_ok _ _ _ _ _
             (write_file_runs _ (JsonDoc (mk_board_data (d_lists d) cs)) vB
                ltac:(rewrite Hfile'; discriminate) Hparent)).
  erewrite bind_ok by reflexivity.
  eexists. split; [reflexivity |].
  destruct UB as (F & C & N). simpl.
  split; [| split; [rewrite C, CA; reflexivity | exact N]].
  rewrite insert_id; [rewrite F, FA; reflexivity |].
  unfold lookup_path in Hfile'.
  destruct (Path.is_anchor (resolve (json_file b) vB)); [discriminate Hfile' | exact Hfile'].
Qed.

End Again.

(** Board A of the healthy server, exported a first time. *)
Lemma export_board_keeps_other_files_witness :
  let w := set_cwd (Path.of_string "trello_exports")
             (Examples.start
                (<["trello_exports/notes.txt" := File (Bytes ["mine"])]> Examples.old_dirs)
                Examples.healthy) in
  let r := export_board Examples.no_bracket_check 5 Examples.board_a w in
  is_ok (fst r) = true /\
  fs (snd r) !! "trello_exports/notes.txt" = Some (File (Bytes ["mine"])) /\
  fs (snd r) !! "trello_exports/Board_A" = Some Dir.
Proof.
  intros w r. split; [vm_compute; reflexivity |].
  destruct (export_board_keeps_other_files Examples.no_bracket_check 5
              Examples.board_a w (fst r) (snd r) ltac:(apply surjective_pairing))
    as [_ H].
  split; apply H; solve [vm_compute; reflexivity | vm_compute; discriminate].
Defined.

(** Board A of the healthy server, exported twice in a row. *)
Lemma export_board_again_witness :
  let w := set_cwd (Path.of_string "trello_exports")
             (Examples.start Examples.old_dirs Examples.healthy) in
  let r := export_board Examples.no_bracket_check 5 Examples.board_a w in
  let r2 := export_board Examples.no_bracket_check 5 Examples.board_a (snd r) in
  is_ok (fst r) = true /\
  downloads (log (snd r)) = [Examples.photo_url; Examples.notes_url] /\
  fst r2 = fst r /\ fs (snd r2) = fs (snd r) /\
  nreq (snd r2) = S (nreq (snd r)).
Proof.
  intros w r r2. split; [vm_compute; reflexivity |].
  split; [vm_compute; reflexivity |].
  destruct (fst r) as [x | e |] eqn:Er;
    [| vm_compute in Er; discriminate Er | vm_compute in Er; discriminate Er].
  destruct (export_board_again Examples.no_bracket_check 5 Examples.board_a
              w x (snd r) (snd r))
    as (v' & Hrun & Hfs & _ & Hn).
  - rewrite <- Er. apply surjective_pairing.
  - assert (Ex : Ok x = fst r) by (symmetry; exact Er).
    vm_compute in Ex. inversion Ex; subst x. simpl.
    repeat constructor; unfold has_attachments; simpl; intros; discriminate.
  - apply extends_refl.
  - vm_compute. reflexivity.
  - subst r2. rewrite Hrun. simpl. split; [reflexivity |]. split; [exact Hfs |].
    rewrite Hn. vm_compute. reflexivity.
Defined.

(** ** The driver: which boards a run exports, and a completed run *)




















Section Asks.

Variable ok : string -> bool.
Variable P : string -> event -> Prop.
Hypothesis Hprint : forall base m, P base (EvPrint m).
Hypothesis Hsleep : forall base z, P base (EvSleep z).
Hypothesis Hfollow : forall base r, P base (EvFollow r).
Hypothesis Hplain : forall base url stream, P base (EvGet (mk_request url [] stream)).









End Asks.


(** *** Files stay files *)

Lemma settled_refl w : settled w w.
Proof. split; [reflexivity |]. intros k n H. now exists n. Qed.

Lemma settled_trans w1 w2 w3 : settled w1 w2 -> settled w2 w3 -> settled w1 w3.
Proof.
  intros [C1 F1] [C2 F2]. split; [congruence |]. intros k n H.
  destruct (F1 k n H) as (n1 & H1 & D1). destruct (F2 k n1 H1) as (n2 & H2 & D2).
  exists n2. split; [exact H2 | now rewrite D1].
Qed.

Lemma extends_settled w w' : extends w w' -> settled w w'.
Proof.
  intros [C F]. split; [exact C |]. intros k n H. exists n.
  split; [eapply lookup_weaken; eassumption | reflexivity].
Qed.

Lemma lookup_path_settled p w w' c :
  settled w w' -> lookup_path p w = Some (File c) ->
  exists c', lookup_path p w' = Some (File c').
Proof.
  intros [C F]. unfold lookup_path, resolve. rewrite C.
  destruct (Path.is_anchor _); [discriminate |]. intros H.
  destruct (F _ _ H) as ([| c'] & H' & D).
  - destruct D as [_ D]. discriminate (D eq_refl).
  - now exists c'.
Qed.

Lemma settles_grows {A} (m : M A) : grows m -> settles m.
Proof. intros H w r w' Hrun. apply extends_settled. eapply H. exact Hrun. Qed.

Lemma settles_bind {A B} (m : M A) (k : A -> M B) :
  settles m -> (forall a, settles (k a)) -> settles (bind m k).
Proof.
  intros Hm Hk w r w' H. unfold bind in H.
  destruct (m w) as [[a | e |] w1] eqn:E.
  - eapply settled_trans; [eapply Hm; exact E | eapply Hk; exact H].
  - inversion H; subst. eapply Hm; exact E.
  - inversion H; subst. eapply Hm; exact E.
Qed.

Lemma settles_write_file p c : settles (write_file p c).
Proof.
  intros w r w' H. unfold write_file, stat, bind in H.
  assert (Hput : lookup_path p w <> Some Dir ->
                 settled w (set_fs (<[Path.to_string (resolve p w) := File c]> (fs w)) w)).
  { intros Hp. split; [reflexivity |]. intros k n Hk. simpl.
    destruct (decide (k = Path.to_string (resolve p w))) as [-> | Hne].
    - rewrite lookup_insert_eq. eexists. split; [reflexivity |].
      split; [| discriminate].
      intros ->. exfalso. apply Hp. unfold lookup_path.
      destruct (Path.is_anchor _); [reflexivity | exact Hk].
    - rewrite lookup_insert_ne by congruence. now exists n. }
  destruct (lookup_path p w) as [[| c0] |];
    [inversion H; subst; apply settled_refl | |];
    (destruct (lookup_path (Path.parent p) w) as [[| c1] |];
     inversion H; subst; try apply settled_refl; apply Hput; discriminate).
Qed.

Section Chain.

Variable ok : string -> bool.

Lemma settles_export_board fuel b : settles (export_board ok fuel b).
Proof.
  unfold export_board.
  apply settles_bind; [apply settles_grows, grows_print |]. intros _.
  apply settles_bind; [apply settles_grows, grows_trello_get |]. intros j.
  apply settles_bind; [apply settles_grows; destruct j; grows_step |]. intros d.
  apply settles_bind; [apply settles_grows, grows_process_cards |]. intros cs.
  apply settles_bind; [apply settles_write_file |]. intros _.
  apply settles_grows. grows_step; [apply grows_print | intros; grows_step].
Qed.

(** When an export returns, the JSON file of the board is there. *)
Lemma export_board_file fuel b w x w' :
  export_board ok fuel b w = (Ok x, w') ->
  lookup_path (json_file b) w' = Some (File (JsonDoc (fst x))).
Proof.
  unfold export_board. fold (json_file b). intros H.
  apply bind_inv_ok in H as ([] & w0 & _ & H).
  apply bind_inv_ok in H as (j & w1 & _ & H).
  apply bind_inv_ok in H as (d & w2 & _ & H).
  apply bind_inv_ok in H as (cs & w3 & _ & H). cbv zeta in H.
  apply bind_inv_ok in H as ([] & w4 & Hw & H).
  apply bind_inv_ok in H as ([] & w5 & Hp & H).
  inversion Hp; subst; clear Hp. inversion H; subst; clear H.
  apply write_file_ok in Hw as (Hfile & _ & _). exact Hfile.
Qed.

(** A chain of exports: as many documents as boards, and the JSON file of
    every board is there at the end. *)
Lemma exports_files fuel bs : forall w xs w',
  exports ok fuel bs w xs w' ->
  settled w w' /\ length xs = length bs /\
  forall b, In b bs -> exists c, lookup_path (json_file b) w' = Some (File c).
Proof.
  induction bs as [| b rest IH]; intros w [| x xs] w' H; simpl in H; try contradiction.
  - subst. split; [apply settled_refl |]. split; [reflexivity |]. intros b [].
  - destruct H as (w1 & H1 & H).
    destruct (IH _ _ _ H) as (S2 & L2 & F2).
    pose proof (settles_export_board _ _ _ _ _ H1) as S1.
    split; [eapply settled_trans; eassumption |].
    split; [simpl; now rewrite L2 |].
    intros b' [<- | Hin]; [| now apply F2].
    eapply lookup_path_settled; [exact S2 |].
    eapply export_board_file. exact H1.
Qed.

(** The loop of [main], whatever its outcome: complete exports of the
    first [k] boards, one after the other; then either all boards are done,
    or the export of the next board did not return. *)
Lemma export_each_run fuel active : forall acc w r w',
  export_each ok fuel active acc w = (r, w') ->
  exists k xs w3,
    exports ok fuel (take k active) w xs w3 /\
    settled w3 w' /\
    ((k = length active /\ r = Ok (acc ++ xs) /\ w' = w3) \/
     (k < length active /\ is_ok r = false))%nat.
Proof.
  induction active as [| b rest IH]; intros acc w r w' H; simpl in H.
  - inversion H; subst. exists O, [], w'. simpl.
    split; [reflexivity |]. split; [apply settled_refl |].
    left. now rewrite app_nil_r.
  - apply bind_run in H as [(x & w1 & H1 & H) | [(e & H1 & ->) | (H1 & ->)]].
    + destruct (IH _ _ _ _ H) as (k & xs & w3 & Hch & Hs & Hend).
      exists (S k), (x :: xs), w3. simpl.
      split; [exists w1; auto |]. split; [exact Hs |].
      destruct Hend as [(-> & -> & ->) | (Hk & Hr)].
      * left. rewrite <- app_assoc. auto.
      * right. split; [lia | exact Hr].
    + exists O, [], w. simpl. split; [reflexivity |].
      split; [eapply settles_export_board; exact H1 |]. right. split; [lia | reflexivity].
    + exists O, [], w. simpl. split; [reflexivity |].
      split; [eapply settles_export_board; exact H1 |]. right. split; [lia | reflexivity].
Qed.



Lemma write_file_ok_world p c w w' :
  write_file p c w = (Ok tt, w') ->
  w' = set_fs (<[Path.to_string (resolve p w) := File c]> (fs w)) w.
Proof.
  unfold write_file, stat, bind. intros H.
  destruct (lookup_path p w) as [[| c0] |]; try discriminate H;
    destruct (lookup_path (Path.parent p) w) as [[| c1] |]; try discriminate H;
    now inversion H.
Qed.

(** When [main] returns: the non-closed boards of the listing have been
    exported one after the other, each export starting where the one
    before has ended, and the CSV is written from the documents these
    exports have returned: the header and exactly one row per card, in the
    order of the boards and their cards.  Nothing else is written after
    the exports, and the last thing printed is the all-done line. *)
Theorem main_completed fuel w wa wb w1 boards w' :
  mkdir false true (Path.of_string "trello_exports") w = (Ok tt, wa) ->
  chdir (Path.of_string "trello_exports") wa = (Ok tt, wb) ->
  trello_get fuel "/members/me/boards"
    [("fields", "name,closed,dateLastActivity")] wb = (Ok (JBoards boards), w1) ->
  main ok fuel w = (Ok tt, w') ->
  let open := List.filter (fun b => negb (b_closed b)) boards in
  exists xs w3 rows,
    exports ok fuel open (add_event (EvPrint (MsgFound (length open))) w1) xs w3 /\
    length xs = length open /\
    board_rows xs = (rows, true) /\
    length rows = card_count xs /\
    fs w' = <[Path.to_string (resolve csv_path w3) :=
                File (CsvRows (csv_header :: rows))]> (fs w3) /\
    lookup_path csv_path w' = Some (File (CsvRows (csv_header :: rows))) /\
    log w' = log w3 ++ [EvPrint (MsgWroteCsv "trello_export.csv"); EvPrint MsgAllDone].
Proof.
  intros Hmk Hcd Hget Hmain open.
  rewrite (main_after_listing ok _ _ _ _ _ _ Hmk Hcd Hget) in Hmain.
  cbv zeta in Hmain. fold open in Hmain.
  apply bind_inv_ok in Hmain as ([] & w2 & H1 & H).
  inversion H1; subst w2; clear H1.
  apply bind_inv_ok in H as (all & w3 & Heach & H).
  apply bind_inv_ok in H as ([] & w4 & Hcsv & H).
  inversion H; subst; clear H.
  destruct (export_each_run _ _ _ _ _ _ Heach) as (k & xs & w5 & Hch & _ & Hend).
  destruct Hend as [(-> & Hall & <-) | (_ & Hr)]; [| discriminate Hr].
  inversion Hall; subst all; clear Hall. rewrite firstn_all in Hch.
  change ([] ++ xs) with xs in Hcsv.
  destruct (exports_files _ _ _ _ _ Hch) as (_ & Hlen & _).
  unfold export_csv in Hcsv. fold csv_path in Hcsv. fold csv_header in Hcsv.
  destruct (board_rows xs) as [rows good] eqn:Er.
  apply bind_inv_ok in Hcsv as ([] & w6 & Hw & Hp).
  destruct good; [| discriminate Hp]. inversion Hp; subst; clear Hp.
  pose proof (write_file_ok _ _ _ _ Hw) as (Hfile & _ & _).
  apply write_file_ok_world in Hw. subst w6.
  exists xs, w3, rows.
  split; [exact Hch |]. split; [exact Hlen |]. split; [exact Er |].
  split; [now apply board_rows_length |].
  split; [reflexivity |]. split; [exact Hfile |].
  simpl. now rewrite <- app_assoc.
Qed.

End Chain.



(** The run over the two open boards of the healthy server: two
    documents, and the CSV made of them. *)
Lemma main_completed_witness :
  let w := Examples.start Examples.old_dirs Examples.healthy in
  let r := main Examples.no_bracket_check 5 w in
  fst r = Ok tt /\
  exists xs rows,
    length xs = 2%nat /\
    board_rows xs = (rows, true) /\
    lookup_path csv_path (snd r) = Some (File (CsvRows (csv_header :: rows))) /\
    length rows = card_count xs.
Proof.
  intros w r.
  assert (Hr : fst r = Ok tt) by (vm_compute; reflexivity).
  split; [exact Hr |].
  destruct (main_completed Examples.no_bracket_check 5 w
              (snd (mkdir false true (Path.of_string "trello_exports") w))
              (snd (chdir (Path.of_string "trello_exports")
                      (snd (mkdir false true (Path.of_string "trello_exports") w))))
              (snd (trello_get 5 "/members/me/boards"
                      [("fields", "name,closed,dateLastActivity")]
                      (snd (chdir (Path.of_string "trello_exports")
                         (snd (mkdir false true (Path.of_string "trello_exports") w))))))
              [Examples.board_a; Examples.board_old; Examples.board_b]
              (snd r)
              ltac:(vm_compute; reflexivity) ltac:(vm_compute; reflexivity)
              ltac:(vm_compute; reflexivity)
              ltac:(rewrite <- Hr; apply surjective_pairing))
    as (xs & w3 & rows & _ & Hlen & Hrows & Hcount & _ & Hfile & _).
  exists xs, rows. split; [exact Hlen |].
  split; [exact Hrows |]. split; [exact Hfile | exact Hcount].
Defined.
